(** * Voice session protocol handler of [fastapi_app.py]

    A shallow embedding of the WebSocket handlers of [src/fastapi_app.py]
    ([websocket_endpoint], [led_websocket_endpoint]) and of the helper
    functions they call ([transcribe_audio_stream],
    [synthesize_speech_stream], [get_ai_response_with_redis]), followed by
    the properties of the session protocol that hold of them. *)

From stdpp Require Import gmap strings list.
From Stdlib Require Import Strings.Byte.

Set Warnings "-register-all".

Local Open Scope string_scope.
Local Open Scope list_scope.

(** ** Data *)

(** Python [bytes] / [bytearray]. *)
Abbreviation bytes := (list byte).

(** A WebSocket object, identified by a number. *)
Abbreviation conn := nat.

(** One entry of a [RedisChatMessageHistory]. *)
Inductive turn :=
| Human (text : string)
| Ai (text : string).

(** The value [json.loads] returns. A number keeps its lexeme: the handler
    only ever compares decoded values with event names. *)
Inductive json :=
| JNull
| JBool (b : bool)
| JNumber (lexeme : string)
| JString (s : string)
| JArray (items : list json)
| JObject (fields : list (string * json)).

(** The dict returned by [speech_client.asr]: the keys the code reads,
    [None] for an absent key. *)
Record stt_dict := {
  err_no : option Z;
  result : option (list string)
}.

(** What [speech_client.synthesis] returns: audio bytes on success, a dict
    describing the error otherwise. *)
Inductive tts_result :=
| TtsAudio (audio : bytes)
| TtsErrorDict (error_code : Z).

(** The ASGI message [websocket.receive()] returns: the [text] and [bytes]
    keys, [None] for an absent key (a [websocket.disconnect] message has
    neither). *)
Record message := {
  msg_text : option string;
  msg_bytes : option bytes
}.

Definition text_frame (text : string) : message :=
  {| msg_text := Some text; msg_bytes := None |}.

Definition binary_frame (chunk : bytes) : message :=
  {| msg_text := None; msg_bytes := Some chunk |}.

(** The [client_state] dict of one connection. *)
Record client_state := {
  is_recording : bool;
  audio_buffer : bytes
}.

(** Everything the handlers read and write: the connection's
    [client_state], the module-level [led_controller_connection], the Redis
    store behind [RedisChatMessageHistory] (keyed by session id) and the
    number of socket sends attempted so far, which indexes the transport's
    answers. *)
Record sys := {
  client : client_state;
  led_controller_connection : option conn;
  redis : gmap string (list turn);
  sends : nat
}.

(** The lines the handlers print. *)
Inductive log_line :=
| LogClientConnected
| LogForwarded (text : string)
| LogForwardFailed
| LogWakeWord
| LogRecordingStarted
| LogRecordingEnded
| LogBufferEmpty
| LogAudioSize (n : nat)
| LogPipelineStart
| LogSttError
| LogAsrFailed
| LogUserSaid (text : string)
| LogAiReply (text : string)
| LogTtsError
| LogTtsFailed
| LogStreamStart (n : nat)
| LogSendDisconnected
| LogTurnFinished
| LogRecordingCancelled
| LogClientDisconnected
| LogUnknownError
| LogForcedClose
| LogLedConnected
| LogLedMessage (text : string)
| LogLedDisconnected
| LogLedError.

(** What a handler does to the outside world, in order. A send carries the
    transport's answer: [false] when the call raised. *)
Inductive effect :=
| EAccept (ws : conn)
| EPrint (l : log_line)
| EAsr (audio : bytes)
| ERedisLoad (session_id : string)
| ELlm (history : list turn) (question : string)
| ERedisAppend (session_id : string) (new : list turn)
| ETts (text : string)
| ESleep (ms : nat)
| ESendBytes (to : conn) (chunk : bytes) (ok : bool)
| ESendText (to : conn) (text : string) (ok : bool)
| EClose (ws : conn).

(** The exceptions that reach the handlers. *)
Inductive exn :=
| JSONDecodeError
| AttributeError
| LLMError
| SendError
| WebSocketDisconnect.

(** ** The handler monad: state, effect trace, [continue] and exceptions *)

Inductive res (A : Type) :=
| Ret (a : A)
| Continue
| Raise (e : exn).
Arguments Ret {A} a.
Arguments Continue {A}.
Arguments Raise {A} e.

Definition M (A : Type) : Type := sys -> res A * sys * list effect.

Definition ret {A} (a : A) : M A := fun s => (Ret a, s, []).

Definition bind {A B} (m : M A) (k : A -> M B) : M B := fun s =>
  match m s with
  | (Ret a, s1, t1) => let '(r, s2, t2) := k a s1 in (r, s2, t1 ++ t2)
  | (Continue, s1, t1) => (Continue, s1, t1)
  | (Raise e, s1, t1) => (Raise e, s1, t1)
  end.

Notation "'do' x <- m ; k" := (bind m (fun x => k))
  (at level 10, x name, m at level 100, k at level 200).

Definition emit (e : effect) : M unit := fun s => (Ret tt, s, [e]).
Definition print (l : log_line) : M unit := emit (EPrint l).
Definition continue_ {A} : M A := fun s => (Continue, s, []).
Definition raise {A} (e : exn) : M A := fun s => (Raise e, s, []).
Definition gets {A} (f : sys -> A) : M A := fun s => (Ret (f s), s, []).
Definition modify (f : sys -> sys) : M unit := fun s => (Ret tt, f s, []).

(** [try: m  except Exception: h]. *)
Definition try_except {A} (m : M A) (h : exn -> M A) : M A := fun s =>
  match m s with
  | (Raise e, s1, t1) => let '(r, s2, t2) := h e s1 in (r, s2, t1 ++ t2)
  | other => other
  end.

(** [if c: m] for a statement [m]. *)
Definition when (c : bool) (m : M unit) : M unit := if c then m else ret tt.

(** Field updates. *)
Definition set_client (c : client_state) (s : sys) : sys :=
  {| client := c;
     led_controller_connection := led_controller_connection s;
     redis := redis s; sends := sends s |}.

Definition set_is_recording (b : bool) (s : sys) : sys :=
  set_client {| is_recording := b; audio_buffer := audio_buffer (client s) |} s.

Definition set_audio_buffer (buf : bytes) (s : sys) : sys :=
  set_client {| is_recording := is_recording (client s); audio_buffer := buf |} s.

Definition set_led (o : option conn) (s : sys) : sys :=
  {| client := client s; led_controller_connection := o;
     redis := redis s; sends := sends s |}.

Definition set_redis (r : gmap string (list turn)) (s : sys) : sys :=
  {| client := client s;
     led_controller_connection := led_controller_connection s;
     redis := r; sends := sends s |}.

Definition bump_sends (s : sys) : sys :=
  {| client := client s;
     led_controller_connection := led_controller_connection s;
     redis := redis s; sends := S (sends s) |}.

(** ** Text constants *)

(** The character [U+0022], and a JSON string literal of plain text. *)
Definition dquote : string := String (Ascii.ascii_of_nat 34) EmptyString.
Definition json_quote (s : string) : string := dquote +:+ s +:+ dquote.

(** [json.dumps({"event": name})]. *)
Definition json_dumps_event (name : string) : string :=
  "{" +:+ json_quote "event" +:+ ": " +:+ json_quote name +:+ "}".

(** ** Pure helpers *)

(** [dict.get(key)] on the items of a decoded object. *)
Fixpoint dict_lookup (key : string) (fields : list (string * json)) : option json :=
  match fields with
  | [] => None
  | (k, v) :: rest => if String.eqb k key then Some v else dict_lookup key rest
  end.

(** [event == name] for the value [data.get("event")] returned: only a
    string with the same characters compares equal to a [str]. *)
Definition event_is (event : option json) (name : string) : bool :=
  match event with
  | Some (JString s) => String.eqb s name
  | _ => false
  end.

(** The test and the indexing of [transcribe_audio_stream]:
    [stt_result and stt_result.get('err_no') == 0 and stt_result.get('result')]
    selects [stt_result['result'][0]]. *)
Definition stt_first_result (stt_result : option stt_dict) : option string :=
  match stt_result with
  | Some d =>
      match err_no d, result d with
      | Some 0%Z, Some (first :: _) => Some first
      | _, _ => None
      end
  | None => None
  end.

(** [range(start, stop, step)] for a positive [step] ([range] raises
    [ValueError] on a zero step, which no call of the source passes). *)
Fixpoint range_from (fuel start stop step : nat) : list nat :=
  match fuel with
  | O => []
  | S fuel' =>
      if Nat.ltb start stop
      then start :: range_from fuel' (start + step) stop step
      else []
  end.

Definition range (start stop step : nat) : list nat :=
  range_from stop start stop step.

(** The slice [b[i:j]]. *)
Definition slice (b : bytes) (i j : nat) : bytes := take (j - i) (drop i b).

(** ** Sample collaborators, for the closed examples *)

(** [json.loads] on the control payloads the examples use: the four event
    objects the device sends, one object with an unknown event, and the
    text [7], which decodes to a number. The theorems quantify over the
    decoder; this table only feeds the examples, where every text outside
    it, such as the cut-short payload [{], stands for one that does not
    decode. *)
Definition sample_json_loads (text : string) : option json :=
  if String.eqb text (json_dumps_event "wake_word_detected")
  then Some (JObject [("event", JString "wake_word_detected")])
  else if String.eqb text (json_dumps_event "recording_started")
  then Some (JObject [("event", JString "recording_started")])
  else if String.eqb text (json_dumps_event "recording_ended")
  then Some (JObject [("event", JString "recording_ended")])
  else if String.eqb text (json_dumps_event "recording_cancelled")
  then Some (JObject [("event", JString "recording_cancelled")])
  else if String.eqb text (json_dumps_event "volume_up")
  then Some (JObject [("event", JString "volume_up")])
  else if String.eqb text "7"
  then Some (JNumber "7")
  else None.

(** A recogniser that hears [ni hao] in every non-silent recording and
    reports error 3301 (bad audio quality) on a recording that starts with
    a zero byte. *)
Definition sample_asr (audio : bytes) : option stt_dict :=
  match audio with
  | x00 :: _ => Some {| err_no := Some 3301%Z; result := None |}
  | _ => Some {| err_no := Some 0%Z; result := Some ["ni hao"] |}
  end.

(** A dialogue model whose answer tells whether it was shown a history. *)
Definition sample_llm (history : list turn) (question : string) : option string :=
  Some (if Nat.eqb (length history) 0 then "first reply" else "later reply").

(** A synthesiser that returns 3000 bytes, except for the text [mute]. *)
Definition sample_synthesis (text : string) : tts_result :=
  if String.eqb text "mute" then TtsErrorDict 502 else TtsAudio (repeat x2a 3000).

(** Transports: one on which every send succeeds, one on which exactly the
    send number [n] (counted from zero) fails, and one on which every send
    from number [n] on fails. *)
Definition all_sends_ok (k : nat) : bool := true.
Definition send_fails_at (n k : nat) : bool := negb (Nat.eqb k n).
Definition sends_fail_from (n k : nat) : bool := Nat.ltb k n.

(** A dialogue model whose every answer is the text [mute]. *)
Definition mute_llm (history : list turn) (question : string) : option string :=
  Some "mute".

(** Sample states of the system: a connection that was just accepted, and
    one that is recording and has buffered [audio] so far. *)
Definition fresh : sys :=
  {| client := {| is_recording := false; audio_buffer := [] |};
     led_controller_connection := None;
     redis := ∅;
     sends := 0 |}.

Definition recording (audio : bytes) : sys :=
  {| client := {| is_recording := true; audio_buffer := audio |};
     led_controller_connection := None;
     redis := ∅;
     sends := 0 |}.

(** A state with the observer [led] registered. *)
Definition observed (led : conn) : sys :=
  {| client := {| is_recording := false; audio_buffer := [] |};
     led_controller_connection := Some led;
     redis := ∅;
     sends := 0 |}.

(** The control message that carries the event [name]. *)
Definition event_frame (name : string) : message :=
  text_frame (json_dumps_event name).

(** ** The handlers *)

Section Handlers.

(** The collaborators outside the repository. [json_loads] is [json.loads]
    ([None]: it raises [JSONDecodeError]); [speech_asr] and
    [speech_synthesis] are the two calls of the Baidu speech SDK, which
    reports a failure in the value it returns (an [err_no] other than zero,
    a dict in place of the audio), the only failures the two wrappers test
    for; [llm] is the chat model behind [tutor_chain] ([None]: the call
    raises); [send_ok] tells whether the socket send number [k], counted
    over all sockets, succeeds. *)
Variable json_loads : string -> option json.
Variable speech_asr : bytes -> option stt_dict.
Variable speech_synthesis : string -> tts_result.
Variable llm : list turn -> string -> option string.
Variable send_ok : nat -> bool.

(** [await ws.send_bytes(..)] and [await ws.send_text(..)]. *)
Definition send (e : bool -> effect) : M unit := fun s =>
  let ok := send_ok (sends s) in
  (if ok then Ret tt else Raise SendError, bump_sends s, [e ok]).

Definition send_bytes (ws : conn) (chunk : bytes) : M unit :=
  send (ESendBytes ws chunk).

Definition send_text (ws : conn) (text : string) : M unit :=
  send (ESendText ws text).

(** [await asyncio.sleep(..)], in milliseconds. *)
Definition asyncio_sleep (ms : nat) : M unit := emit (ESleep ms).

Definition transcribe_audio_stream (audio_bytes : bytes) : M string :=
  do _ <- emit (EAsr audio_bytes);
  match stt_first_result (speech_asr audio_bytes) with
  | Some text => ret text
  | None => do _ <- print LogSttError; ret ""
  end.

Definition synthesize_speech_stream (text : string) : M bytes :=
  do _ <- emit (ETts text);
  match speech_synthesis text with
  | TtsAudio audio => ret audio
  | TtsErrorDict _ => do _ <- print LogTtsError; ret []
  end.

(** Modelled from the spec: [LLMChain.invoke] of the LangChain library,
    called on a chain whose memory is a [ConversationBufferMemory] over a
    [RedisChatMessageHistory]; the library is not part of the repository.
    It loads the history of the session, asks the dialogue model, and on a
    reply appends the human turn and the assistant turn together; a failure
    of the model aborts before any write (spec 4.2, steps 2 to 4; the
    comment above the call in [get_ai_response_with_redis] says the same). *)
Definition tutor_chain_invoke (session_id question : string) : M string :=
  do _ <- emit (ERedisLoad session_id);
  do history <- gets (fun s => default [] (redis s !! session_id));
  do _ <- emit (ELlm history question);
  match llm history question with
  | None => raise LLMError
  | Some text =>
      let pair := [Human question; Ai text] in
      do _ <- emit (ERedisAppend session_id pair);
      do _ <- modify (fun s =>
                set_redis (<[session_id := history ++ pair]> (redis s)) s);
      ret text
  end.

Definition get_ai_response_with_redis (user_input user_id : string) : M string :=
  tutor_chain_invoke user_id user_input.

(** The [for i in range(0, len(response_audio_bytes), CHUNK_SIZE)] loop,
    over the offsets still to visit. The body answers [Some burst_count]
    to go on and [None] for [break]. *)
Fixpoint send_chunks (CHUNK_SIZE BURST_SIZE : nat) (websocket : conn)
    (response_audio_bytes : bytes) (offsets : list nat) (burst_count : nat)
    : M unit :=
  match offsets with
  | [] => ret tt
  | i :: rest =>
      let chunk := slice response_audio_bytes i (i + CHUNK_SIZE) in
      do next <- try_except
        (do _ <- send_bytes websocket chunk;
         let burst_count := S burst_count in
         if Nat.leb BURST_SIZE burst_count
         then do _ <- asyncio_sleep 1; ret (Some 0)
         else ret (Some burst_count))
        (fun _ => do _ <- print LogSendDisconnected; ret None);
      match next with
      | Some burst_count =>
          send_chunks CHUNK_SIZE BURST_SIZE websocket response_audio_bytes
            rest burst_count
      | None => ret tt
      end
  end.

(** Step 4 of the [recording_ended] branch: the chunk loop, then the
    [response_finished] marker, whose failure is swallowed. *)
Definition stream_reply (CHUNK_SIZE BURST_SIZE : nat) (websocket : conn)
    (response_audio_bytes : bytes) : M unit :=
  do _ <- send_chunks CHUNK_SIZE BURST_SIZE websocket response_audio_bytes
        (range 0 (length response_audio_bytes) CHUNK_SIZE) 0;
  try_except (send_text websocket (json_dumps_event "response_finished"))
    (fun _ => ret tt).

Definition CHUNK_SIZE : nat := 1024.
Definition BURST_SIZE : nat := 8.

(** The [recording_ended] branch of [websocket_endpoint]. *)
Definition on_recording_ended (websocket : conn) (client_id : string) : M unit :=
  do _ <- print LogRecordingEnded;
  do _ <- modify (set_is_recording false);
  do audio_buffer <- gets (fun s => audio_buffer (client s));
  do _ <- when (Nat.eqb (length audio_buffer) 0)
        (do _ <- print LogBufferEmpty; continue_);
  do _ <- print (LogAudioSize (length audio_buffer));
  do _ <- print LogPipelineStart;
  do user_text <- transcribe_audio_stream audio_buffer;
  do _ <- when (String.eqb user_text "")
        (do _ <- print LogAsrFailed; continue_);
  do _ <- print (LogUserSaid user_text);
  do ai_response_text <- get_ai_response_with_redis user_text client_id;
  do _ <- print (LogAiReply ai_response_text);
  do response_audio_bytes <- synthesize_speech_stream ai_response_text;
  do _ <- when (Nat.eqb (length response_audio_bytes) 0)
        (do _ <- print LogTtsFailed; continue_);
  do _ <- asyncio_sleep 100;
  do _ <- print (LogStreamStart (length response_audio_bytes));
  do _ <- stream_reply CHUNK_SIZE BURST_SIZE websocket response_audio_bytes;
  print LogTurnFinished.

(** The [if event == ...: / elif ...] chain of [websocket_endpoint]; an
    event that matches no branch falls through. *)
Definition on_event (websocket : conn) (client_id : string)
    (event : option json) : M unit :=
  if event_is event "wake_word_detected" then
    print LogWakeWord
  else if event_is event "recording_started" then
    do _ <- print LogRecordingStarted;
    do _ <- modify (set_is_recording true);
    modify (set_audio_buffer [])
  else if event_is event "recording_ended" then
    on_recording_ended websocket client_id
  else if event_is event "recording_cancelled" then
    do _ <- print LogRecordingCancelled;
    do _ <- modify (set_is_recording false);
    modify (set_audio_buffer [])
  else ret tt.

(** The body of the [while True] loop of [websocket_endpoint] for one
    received [message]. *)
Definition handle_message (websocket : conn) (client_id : string)
    (message : message) : M unit :=
  match msg_text message with
  | Some text =>
      if String.eqb text "1" || String.eqb text "0" then
        do led <- gets led_controller_connection;
        do _ <- match led with
                | Some led =>
                    try_except
                      (do _ <- send_text led text; print (LogForwarded text))
                      (fun _ => do _ <- print LogForwardFailed;
                                modify (set_led None))
                | None => ret tt
                end;
        continue_
      else
        do data <- match json_loads text with
                   | Some data => ret data
                   | None => raise JSONDecodeError
                   end;
        do event <- match data with
                    | JObject fields => ret (dict_lookup "event" fields)
                    | _ => raise AttributeError
                    end;
        on_event websocket client_id event
  | None =>
      match msg_bytes message with
      | Some audio_chunk =>
          do recording <- gets (fun s => is_recording (client s));
          when recording
            (modify (fun s =>
               set_audio_buffer (audio_buffer (client s) ++ audio_chunk) s))
      | None => ret tt
      end
  end.

(** One turn of the [while True] loop: a [continue] ends the turn, an
    exception leaves the loop. *)
Definition iteration (body : M unit) : M unit := fun s =>
  match body s with
  | (Continue, s1, t1) => (Ret tt, s1, t1)
  | other => other
  end.

(** The loop over the messages that arrive; it returns when it is waiting
    in [receive()] for a message that has not arrived yet. *)
Fixpoint receive_loop (websocket : conn) (client_id : string)
    (incoming : list message) : M unit :=
  match incoming with
  | [] => ret tt
  | message :: rest =>
      do _ <- iteration (handle_message websocket client_id message);
      receive_loop websocket client_id rest
  end.

(** [websocket_endpoint]: a fresh [client_state], the loop, and the
    [except]/[finally] clauses. The answer is [true] while the handler is
    still waiting in [receive()], and [false] once it has returned. Every
    exception that leaves the loop here is raised while the socket is
    connected, so the [finally] clause closes it. *)
Definition websocket_endpoint (websocket : conn) (client_id : string)
    (incoming : list message) : M bool :=
  do _ <- emit (EAccept websocket);
  do _ <- print LogClientConnected;
  do _ <- modify (set_client {| is_recording := false; audio_buffer := [] |});
  try_except
    (do _ <- receive_loop websocket client_id incoming; ret true)
    (fun e =>
       do _ <- print (match e with
                      | WebSocketDisconnect => LogClientDisconnected
                      | _ => LogUnknownError
                      end);
       do _ <- emit (EClose websocket);
       do _ <- print LogForcedClose;
       ret false).

(** [led_websocket_endpoint], in the three stretches between which other
    handlers run: up to the first [receive_text()], one received text, and
    the [except]/[finally] clauses once [receive_text()] raises. *)
Definition led_accept (websocket : conn) : M unit :=
  do _ <- emit (EAccept websocket);
  do _ <- modify (set_led (Some websocket));
  print LogLedConnected.

Definition led_receive (websocket : conn) (data : string) : M unit :=
  print (LogLedMessage data).

Definition led_finish (websocket : conn) (e : exn) : M unit :=
  do _ <- print (match e with
                 | WebSocketDisconnect => LogLedDisconnected
                 | _ => LogLedError
                 end);
  modify (set_led None).


(** The chunks the loop of [stream_reply] cuts a reply into. *)
Definition reply_chunks (CHUNK_SIZE : nat) (response_audio_bytes : bytes)
    : list bytes :=
  map (fun i => slice response_audio_bytes i (i + CHUNK_SIZE))
      (range 0 (length response_audio_bytes) CHUNK_SIZE).

(** ** Observations on states and traces *)

(** The protocol state stored between two messages. The handler reads no
    message while it processes a turn, so [Processing] is never what a
    message finds. *)
Inductive session_state := Idle | Recording | Processing.

Definition state_of (c : client_state) : session_state :=
  if is_recording c then Recording else Idle.

(** A control payload that decodes to an object whose [event] is [name]. *)
Definition is_event (text name : string) : bool :=
  negb (String.eqb text "1" || String.eqb text "0") &&
  match json_loads text with
  | Some (JObject fields) => event_is (dict_lookup "event" fields) name
  | _ => false
  end.

(** The literal status markers ["1"] and ["0"]. *)
Definition is_status_signal (text : string) : bool :=
  String.eqb text "1" || String.eqb text "0".

(** The event names with a branch in [websocket_endpoint]. *)
Definition recognised (event : option json) : bool :=
  event_is event "wake_word_detected" || event_is event "recording_started" ||
  event_is event "recording_ended" || event_is event "recording_cancelled".

(** A control payload that decodes to an object whose [event] is missing
    or is none of the recognised names. *)
Definition is_unrecognised_event (text : string) : bool :=
  negb (is_status_signal text) &&
  match json_loads text with
  | Some (JObject fields) => negb (recognised (dict_lookup "event" fields))
  | _ => false
  end.

(** The calls of the pipeline (transcription, dialogue with its memory,
    synthesis) in a trace. *)
Definition is_pipeline_call (e : effect) : bool :=
  match e with
  | EAsr _ | ERedisLoad _ | ELlm _ _ | ERedisAppend _ _ | ETts _ => true
  | _ => false
  end.

Definition pipeline_calls (tr : list effect) : list effect :=
  List.filter is_pipeline_call tr.

(** A trace without pipeline calls. *)
Definition quiet (tr : list effect) : Prop :=
  Forall (fun e => is_pipeline_call e = false) tr.

Definition is_append (e : effect) : bool :=
  match e with ERedisAppend _ _ => true | _ => false end.

Definition memory_appends (tr : list effect) : list effect :=
  List.filter is_append tr.

Definition is_send (e : effect) : bool :=
  match e with ESendBytes _ _ _ | ESendText _ _ _ => true | _ => false end.

Definition send_attempts (tr : list effect) : list effect :=
  List.filter is_send tr.

(** The payloads of the chunk sends that succeeded, in order. *)
Fixpoint sent_chunks (tr : list effect) : list bytes :=
  match tr with
  | [] => []
  | ESendBytes _ chunk true :: tr' => chunk :: sent_chunks tr'
  | _ :: tr' => sent_chunks tr'
  end.

(** The bursts of a trace: how many chunks went out before each yield
    ([asyncio.sleep]), and how many after the last one; [cur] counts the
    chunks since the last yield. *)
Fixpoint burst_sizes (cur : nat) (tr : list effect) : list nat * nat :=
  match tr with
  | [] => ([], cur)
  | ESendBytes _ _ true :: tr' => burst_sizes (S cur) tr'
  | ESleep _ :: tr' => let '(bs, r) := burst_sizes 0 tr' in (cur :: bs, r)
  | _ :: tr' => burst_sizes cur tr'
  end.

(** [ceil(l / c)] on naturals. *)
Definition ceil_div (l c : nat) : nat := (l + c - 1) / c.

(** The trace of a run of chunk sends that all succeed, from a burst
    counter [burst_count]: a yield follows the chunk that fills a burst. *)
Fixpoint chunk_trace (BURST_SIZE : nat) (ws : conn) (chunks : list bytes)
    (burst_count : nat) : list effect :=
  match chunks with
  | [] => []
  | chunk :: rest =>
      ESendBytes ws chunk true ::
      (if Nat.leb BURST_SIZE (S burst_count)
       then ESleep 1 :: chunk_trace BURST_SIZE ws rest 0
       else chunk_trace BURST_SIZE ws rest (S burst_count))
  end.

(** The state after [n] more sends. *)
Definition add_sends (n : nat) (s : sys) : sys :=
  {| client := client s;
     led_controller_connection := led_controller_connection s;
     redis := redis s; sends := sends s + n |}.

(** What [transcribe_audio_stream] returns and what it does on the way. *)
Definition transcript (audio : bytes) : string :=
  default "" (stt_first_result (speech_asr audio)).

Definition asr_trace (audio : bytes) : list effect :=
  EAsr audio ::
  match stt_first_result (speech_asr audio) with
  | Some _ => []
  | None => [EPrint LogSttError]
  end.

(** What [synthesize_speech_stream] returns and what it does on the way. *)
Definition synthesized (text : string) : bytes :=
  match speech_synthesis text with
  | TtsAudio audio => audio
  | TtsErrorDict _ => []
  end.

Definition tts_trace (text : string) : list effect :=
  ETts text ::
  match speech_synthesis text with
  | TtsAudio _ => []
  | TtsErrorDict _ => [EPrint LogTtsError]
  end.

(** The session's history in the store. *)
Definition history_of (s : sys) (session_id : string) : list turn :=
  default [] (redis s !! session_id).

(** ** Running the monad *)

(** A control payload that decodes to an event reaches the [if]/[elif]
    chain with that event name. *)
Lemma handle_message_event ws cid text name s :
  is_event text name = true ->
  handle_message ws cid (text_frame text) s
  = on_event ws cid (Some (JString name)) s.
Proof.
  unfold is_event, handle_message. cbn [msg_text text_frame].
  intros H. apply andb_prop in H as [Hlit Hdec].
  apply negb_true_iff in Hlit. rewrite Hlit.
  destruct (json_loads text) as [[| | | | |fields]|]; try discriminate.
  unfold event_is in Hdec.
  destruct (dict_lookup "event" fields) as [[| | |ev| |]|] eqn:Hev;
    try discriminate.
  apply String.eqb_eq in Hdec. subst ev.
  unfold bind, ret. cbn. rewrite Hev.
  destruct (on_event ws cid (Some (JString name)) s) as [[[]] ?]; cbn;
    rewrite ?app_nil_l; reflexivity.
Qed.

(** ** Turn boundaries *)

(** The [recording_ended] branch when nothing was recorded. *)
Lemma on_recording_ended_empty ws cid s :
  audio_buffer (client s) = [] ->
  on_recording_ended ws cid s
  = (Continue, set_is_recording false s,
     [EPrint LogRecordingEnded; EPrint LogBufferEmpty]).
Proof.
  intros H. unfold on_recording_ended, bind, print, emit, modify, gets, when.
  cbn. rewrite H. reflexivity.
Qed.

(** C1. A [recording_ended] event that arrives while the audio buffer is
    empty puts the session back in [Idle] and ends the turn at once: the
    handler prints its two lines and calls neither the transcriber, nor the
    dialogue model and its memory, nor the synthesiser, and sends nothing. *)
Theorem recording_ended_empty_buffer_skips_pipeline ws cid text s :
  is_event text "recording_ended" = true ->
  audio_buffer (client s) = [] ->
  let '(r, s', tr) := handle_message ws cid (text_frame text) s in
  r = Continue /\
  state_of (client s') = Idle /\
  audio_buffer (client s') = [] /\
  redis s' = redis s /\
  pipeline_calls tr = [] /\
  send_attempts tr = [] /\
  tr = [EPrint LogRecordingEnded; EPrint LogBufferEmpty].
Proof.
  intros Hev Hbuf.
  rewrite (handle_message_event _ _ _ _ _ Hev).
  unfold on_event. cbn [event_is String.eqb Ascii.eqb Bool.eqb].
  rewrite (on_recording_ended_empty _ _ _ Hbuf).
  cbn. rewrite Hbuf. repeat split; reflexivity.
Qed.

(** ** Audio frames *)

(** What one binary frame does. *)
Lemma handle_binary_frame ws cid chunk s :
  handle_message ws cid (binary_frame chunk) s
  = (Ret tt,
     (if is_recording (client s)
      then set_audio_buffer (audio_buffer (client s) ++ chunk) s
      else s),
     []).
Proof.
  unfold handle_message, bind, gets, when, modify, ret. cbn.
  destruct (is_recording (client s)); reflexivity.
Qed.

(** The loop over two batches of messages is the loop over the first, then
    over the second unless an exception has left the loop. *)
Lemma receive_loop_app ws cid l1 l2 s :
  receive_loop ws cid (l1 ++ l2) s
  = (let '(r, s1, t1) := receive_loop ws cid l1 s in
     match r with
     | Ret _ =>
         let '(r2, s2, t2) := receive_loop ws cid l2 s1 in (r2, s2, t1 ++ t2)
     | _ => (r, s1, t1)
     end).
Proof.
  revert s. induction l1 as [|m l1 IH]; intros s.
  - cbn. destruct (receive_loop ws cid l2 s) as [[r2 s2] t2]. reflexivity.
  - cbn [app receive_loop]. unfold bind.
    destruct (iteration (handle_message ws cid m) s) as [[[[]| |e] s1] t1];
      try reflexivity.
    rewrite IH.
    destruct (receive_loop ws cid l1 s1) as [[[?| |?] s2] t2]; try reflexivity.
    destruct (receive_loop ws cid l2 s2) as [[r3 s3] t3].
    rewrite app_assoc. reflexivity.
Qed.

(** C2. After any sequence of messages that leaves the handler in its
    loop, a binary frame is appended to the audio buffer exactly when the
    session is [Recording]; in any other state the buffer stays as it was.
    The frame changes nothing else and produces no effect. *)
Theorem audio_appended_only_while_recording ws cid before chunk s0 :
  let '(r, s, tr) := receive_loop ws cid before s0 in
  let '(r', s', tr') :=
    receive_loop ws cid (before ++ [binary_frame chunk]) s0 in
  match r with
  | Ret _ =>
      r' = Ret tt /\ tr' = tr /\
      audio_buffer (client s') =
        match state_of (client s) with
        | Recording => audio_buffer (client s) ++ chunk
        | Idle | Processing => audio_buffer (client s)
        end /\
      state_of (client s') = state_of (client s) /\
      led_controller_connection s' = led_controller_connection s /\
      redis s' = redis s /\ sends s' = sends s
  | _ => (r', s', tr') = (r, s, tr)
  end.
Proof.
  rewrite receive_loop_app.
  destruct (receive_loop ws cid before s0) as [[[[]| |e] s] tr];
    try reflexivity.
  cbn [receive_loop]. unfold bind, iteration.
  rewrite handle_binary_frame. cbn. rewrite app_nil_r.
  unfold state_of.
  destruct (is_recording (client s)) eqn:Hrec; cbn; rewrite ?Hrec;
    repeat split; reflexivity.
Qed.

(** ** Chunking *)

Section Chunking.

Variable C : nat.
Hypothesis C_pos : 0 < C.

(** The offsets of [range(start, stop, C)] cut [audio] into consecutive
    slices that make up [audio] again. *)
Lemma range_slices_concat (audio : bytes) fuel start :
  length audio - start <= fuel ->
  concat (map (fun i => slice audio i (i + C))
              (range_from fuel start (length audio) C))
  = drop start audio.
Proof.
  revert start. induction fuel as [|fuel IH]; intros start Hfuel.
  - cbn. symmetry. apply drop_ge. lia.
  - cbn [range_from]. destruct (Nat.ltb_spec start (length audio)) as [Hlt|Hge].
    + cbn [map concat]. rewrite IH by lia.
      unfold slice. replace (start + C - start) with C by lia.
      replace (drop (start + C) audio) with (drop C (drop start audio))
        by (rewrite drop_drop; f_equal; lia).
      apply take_drop.
    + cbn. symmetry. apply drop_ge. lia.
Qed.

(** [range] visits [ceil((stop - start) / C)] offsets. *)
Lemma range_from_length fuel start stop :
  stop - start <= fuel ->
  length (range_from fuel start stop C) = ceil_div (stop - start) C.
Proof.
  unfold ceil_div.
  revert start. induction fuel as [|fuel IH]; intros start Hfuel.
  - cbn. replace (stop - start) with 0 by lia. cbn.
    symmetry. apply Nat.div_small. lia.
  - cbn [range_from]. destruct (Nat.ltb_spec start stop) as [Hlt|Hge].
    + cbn [length]. rewrite IH by lia.
      destruct (Nat.le_gt_cases C (stop - start)) as [Hbig|Hsmall].
      * replace (stop - start + C - 1) with (stop - (start + C) + C - 1 + 1 * C)
          by lia.
        rewrite Nat.div_add by lia. lia.
      * replace (stop - (start + C)) with 0 by lia.
        rewrite (Nat.div_small (0 + C - 1)) by lia.
        replace (stop - start + C - 1) with (stop - start - 1 + 1 * C) by lia.
        rewrite Nat.div_add by lia. rewrite Nat.div_small by lia. lia.
    + cbn. replace (stop - start) with 0 by lia.
      symmetry. apply Nat.div_small. lia.
Qed.

End Chunking.

(** ** The reply stream *)

Lemma add_sends_0 s : add_sends 0 s = s.
Proof. destruct s. unfold add_sends. cbn. f_equal. lia. Qed.

Lemma add_sends_bump n s : add_sends n (bump_sends s) = add_sends (S n) s.
Proof. unfold add_sends, bump_sends. cbn. f_equal. lia. Qed.

(** The chunk loop when every send succeeds. *)
Lemma send_chunks_all_ok C B ws audio offsets bc s :
  (forall k, k < length offsets -> send_ok (sends s + k) = true) ->
  send_chunks C B ws audio offsets bc s
  = (Ret tt, add_sends (length offsets) s,
     chunk_trace B ws (map (fun i => slice audio i (i + C)) offsets) bc).
Proof.
  revert bc s. induction offsets as [|i rest IH]; intros bc s Hok.
  - cbn. rewrite add_sends_0. reflexivity.
  - cbn [send_chunks map chunk_trace length].
    assert (H0 : send_ok (sends s) = true).
    { rewrite <- (Nat.add_0_r (sends s)). apply Hok. cbn. lia. }
    assert (Hrest : forall b, send_chunks C B ws audio rest b (bump_sends s)
      = (Ret tt, add_sends (S (length rest)) s,
         chunk_trace B ws (map (fun i => slice audio i (i + C)) rest) b)).
    { intros b. rewrite IH, add_sends_bump; [reflexivity|].
      intros k Hk. cbn. replace (S (sends s + k)) with (sends s + S k) by lia.
      apply Hok. cbn. lia. }
    unfold bind, try_except, send_bytes, send, asyncio_sleep, emit, ret.
    rewrite H0. cbn.
    destruct (Nat.leb B (S bc)); cbn; rewrite Hrest; reflexivity.
Qed.

(** The chunk loop when the sends of the offsets [pre] succeed and the
    next one fails: the loop stops there. *)
Lemma send_chunks_first_failure C B ws audio pre i post bc s :
  (forall k, k < length pre -> send_ok (sends s + k) = true) ->
  send_ok (sends s + length pre) = false ->
  send_chunks C B ws audio (pre ++ i :: post) bc s
  = (Ret tt, add_sends (S (length pre)) s,
     chunk_trace B ws (map (fun i => slice audio i (i + C)) pre) bc
     ++ [ESendBytes ws (slice audio i (i + C)) false;
         EPrint LogSendDisconnected]).
Proof.
  revert bc s. induction pre as [|j pre IH]; intros bc s Hok Hfail.
  - cbn [app length map chunk_trace send_chunks].
    rewrite Nat.add_0_r in Hfail.
    unfold bind, try_except, send_bytes, send, print, emit, ret.
    rewrite Hfail. cbn. unfold add_sends, bump_sends. cbn.
    repeat f_equal. lia.
  - cbn [app send_chunks map chunk_trace length].
    assert (H0 : send_ok (sends s) = true).
    { rewrite <- (Nat.add_0_r (sends s)). apply Hok. cbn. lia. }
    assert (Hrest : forall b,
      send_chunks C B ws audio (pre ++ i :: post) b (bump_sends s)
      = (Ret tt, add_sends (S (S (length pre))) s,
         chunk_trace B ws (map (fun i => slice audio i (i + C)) pre) b
         ++ [ESendBytes ws (slice audio i (i + C)) false;
             EPrint LogSendDisconnected])).
    { intros b. rewrite IH, add_sends_bump; [reflexivity| |].
      - intros k Hk. cbn. replace (S (sends s + k)) with (sends s + S k) by lia.
        apply Hok. cbn. lia.
      - cbn. replace (S (sends s + length pre))
          with (sends s + S (length pre)) by lia. exact Hfail. }
    unfold bind, try_except, send_bytes, send, asyncio_sleep, emit, ret.
    rewrite H0. cbn.
    destruct (Nat.leb B (S bc)); cbn; rewrite Hrest; reflexivity.
Qed.

(** What the observations see in a run of successful chunk sends. *)
Lemma sent_chunks_chunk_trace B ws chunks bc tl :
  sent_chunks (chunk_trace B ws chunks bc ++ tl) = chunks ++ sent_chunks tl.
Proof.
  revert bc. induction chunks as [|c cs IH]; intros bc; [reflexivity|].
  cbn [chunk_trace app sent_chunks].
  destruct (Nat.leb B (S bc)); cbn [app sent_chunks]; rewrite IH; reflexivity.
Qed.

Lemma send_attempts_chunk_trace B ws chunks bc tl :
  send_attempts (chunk_trace B ws chunks bc ++ tl)
  = map (fun c => ESendBytes ws c true) chunks ++ send_attempts tl.
Proof.
  unfold send_attempts.
  revert bc. induction chunks as [|c cs IH]; intros bc; [reflexivity|].
  cbn [chunk_trace app map].
  destruct (Nat.leb B (S bc)); cbn; rewrite IH; reflexivity.
Qed.

Lemma burst_sizes_chunk_trace B ws chunks bc tl :
  0 < B -> bc < B ->
  (forall cur, burst_sizes cur tl = ([], cur)) ->
  burst_sizes bc (chunk_trace B ws chunks bc ++ tl)
  = (repeat B ((bc + length chunks) / B), (bc + length chunks) mod B).
Proof.
  intros HB Hbc Htl.
  revert bc Hbc. induction chunks as [|c cs IH]; intros bc Hbc.
  - cbn [chunk_trace app length]. rewrite Htl, Nat.add_0_r.
    rewrite Nat.div_small, Nat.mod_small by lia. reflexivity.
  - cbn [chunk_trace app length burst_sizes].
    destruct (Nat.leb_spec B (S bc)) as [Hfull|Hroom].
    + cbn [app burst_sizes]. rewrite (IH 0) by lia.
      assert (S bc = B) as Heq by lia.
      replace (bc + S (length cs)) with (0 + length cs + 1 * B) by lia.
      rewrite Nat.div_add, Nat.Div0.mod_add by lia.
      rewrite Nat.add_1_r. cbn [repeat]. rewrite Heq. reflexivity.
    + rewrite (IH (S bc)) by lia.
      replace (S bc + length cs) with (bc + S (length cs)) by lia.
      reflexivity.
Qed.

(** The whole reply stream when every send succeeds. *)
Lemma stream_reply_all_ok C B ws audio s :
  0 < C ->
  (forall k, k <= ceil_div (length audio) C -> send_ok (sends s + k) = true) ->
  stream_reply C B ws audio s
  = (Ret tt, add_sends (S (ceil_div (length audio) C)) s,
     chunk_trace B ws
       (map (fun i => slice audio i (i + C)) (range 0 (length audio) C)) 0
     ++ [ESendText ws (json_dumps_event "response_finished") true]).
Proof.
  intros HC Hok.
  assert (Hlen : length (range 0 (length audio) C) = ceil_div (length audio) C).
  { unfold range. rewrite range_from_length by lia. f_equal. lia. }
  unfold stream_reply, bind.
  rewrite send_chunks_all_ok by (intros k Hk; apply Hok; lia).
  unfold try_except, send_text, send. rewrite Hlen. cbn [sends add_sends].
  rewrite Hok by lia. cbn. unfold add_sends, bump_sends. cbn.
  repeat f_equal. lia.
Qed.

(** C6. A reply of [L] bytes streamed in chunks of [C] bytes over a
    transport that accepts every send goes out as exactly [ceil(L / C)]
    chunks whose concatenation is the reply; the handler yields after every
    [B]-th chunk and only then; and the [response_finished] marker is the
    one send that follows the last chunk. *)
Theorem stream_reply_chunks_and_marker C B ws audio s :
  0 < C -> 0 < B ->
  (forall k, k <= ceil_div (length audio) C -> send_ok (sends s + k) = true) ->
  let n := ceil_div (length audio) C in
  let '(r, s', tr) := stream_reply C B ws audio s in
  r = Ret tt /\
  length (sent_chunks tr) = n /\
  concat (sent_chunks tr) = audio /\
  burst_sizes 0 tr = (repeat B (n / B), n mod B) /\
  send_attempts tr
  = map (fun chunk => ESendBytes ws chunk true) (sent_chunks tr)
    ++ [ESendText ws (json_dumps_event "response_finished") true].
Proof.
  intros HC HB Hok n.
  rewrite stream_reply_all_ok by assumption.
  assert (Hlen : length (range 0 (length audio) C) = n).
  { unfold range. rewrite range_from_length by lia. unfold n. f_equal. lia. }
  rewrite sent_chunks_chunk_trace. cbn [sent_chunks]. rewrite app_nil_r.
  split; [reflexivity|]. split; [|split; [|split]].
  - rewrite length_map. exact Hlen.
  - unfold range. rewrite range_slices_concat by lia. apply drop_0.
  - rewrite burst_sizes_chunk_trace by (try lia; reflexivity).
    rewrite length_map, Hlen. reflexivity.
  - rewrite send_attempts_chunk_trace. reflexivity.
Qed.

Lemma reply_chunks_length C audio :
  0 < C -> length (reply_chunks C audio) = ceil_div (length audio) C.
Proof.
  intros HC. unfold reply_chunks, range.
  rewrite length_map, range_from_length by lia. f_equal. lia.
Qed.

Lemma map_lookup_Some {A B} (f : A -> B) (l : list A) k y :
  map f l !! k = Some y -> exists x, l !! k = Some x /\ y = f x.
Proof.
  revert k. induction l as [|a l IH]; intros [|k] H; try discriminate.
  - injection H as <-. exists a. split; reflexivity.
  - apply IH. exact H.
Qed.

Lemma map_take {A B} (f : A -> B) (l : list A) k :
  map f (take k l) = take k (map f l).
Proof.
  revert k. induction l as [|a l IH]; intros [|k]; cbn; try reflexivity.
  rewrite IH. reflexivity.
Qed.

(** The whole reply stream when the send of chunk number [k] is the first
    that fails. *)
Lemma stream_reply_first_failure C B ws audio s k chunk :
  reply_chunks C audio !! k = Some chunk ->
  (forall j, j < k -> send_ok (sends s + j) = true) ->
  send_ok (sends s + k) = false ->
  stream_reply C B ws audio s
  = (Ret tt, add_sends (S (S k)) s,
     chunk_trace B ws (take k (reply_chunks C audio)) 0
     ++ [ESendBytes ws chunk false; EPrint LogSendDisconnected;
         ESendText ws (json_dumps_event "response_finished")
           (send_ok (sends s + S k))]).
Proof.
  intros Hk Hok Hfail. unfold reply_chunks in *.
  apply map_lookup_Some in Hk as (i & Hi & ->).
  assert (Hlt : k < length (range 0 (length audio) C))
    by (apply lookup_lt_is_Some; eauto).
  assert (Hlen : length (take k (range 0 (length audio) C)) = k)
    by (rewrite length_take; lia).
  unfold stream_reply, bind.
  rewrite <- (take_drop_middle _ _ _ Hi) at 1.
  rewrite send_chunks_first_failure by (rewrite Hlen; assumption).
  rewrite Hlen, map_take.
  unfold try_except, send_text, send. cbn [sends add_sends].
  destruct (send_ok (sends s + S k)) eqn:Hm; cbn;
    rewrite <- app_assoc; cbn; unfold add_sends, bump_sends; cbn;
    repeat f_equal; lia.
Qed.

(** ** The reply stream touches the transport only *)

Lemma quiet_pipeline_calls tr : quiet tr -> pipeline_calls tr = [].
Proof.
  unfold quiet, pipeline_calls. induction 1 as [|e tr He _ IH]; [reflexivity|].
  cbn. rewrite He. exact IH.
Qed.

Lemma quiet_memory_appends tr : quiet tr -> memory_appends tr = [].
Proof.
  unfold quiet, memory_appends. induction 1 as [|e tr He _ IH]; [reflexivity|].
  destruct e; cbn in *; try discriminate; exact IH.
Qed.

Lemma pipeline_calls_app t1 t2 :
  pipeline_calls (t1 ++ t2) = pipeline_calls t1 ++ pipeline_calls t2.
Proof. apply List.filter_app. Qed.

Lemma memory_appends_app t1 t2 :
  memory_appends (t1 ++ t2) = memory_appends t1 ++ memory_appends t2.
Proof. apply List.filter_app. Qed.

Lemma send_attempts_app t1 t2 :
  send_attempts (t1 ++ t2) = send_attempts t1 ++ send_attempts t2.
Proof. apply List.filter_app. Qed.

(** Whatever the transport answers, the chunk loop ends normally, changes
    nothing but the send counter, and calls no collaborator. *)
Lemma send_chunks_frame C B ws audio offsets bc s :
  exists n tr,
    send_chunks C B ws audio offsets bc s = (Ret tt, add_sends n s, tr) /\
    quiet tr.
Proof.
  revert bc s. induction offsets as [|i rest IH]; intros bc s.
  - exists 0, []. cbn. rewrite add_sends_0. split; [reflexivity|constructor].
  - cbn [send_chunks].
    unfold bind, try_except, send_bytes, send, asyncio_sleep, print, emit, ret.
    destruct (send_ok (sends s)) eqn:Hok; cbn.
    + destruct (Nat.leb B (S bc)); cbn.
      * destruct (IH 0 (bump_sends s)) as (n & tr & -> & Hq).
        exists (S n), (ESendBytes ws (slice audio i (i + C)) true
                       :: ESleep 1 :: tr).
        rewrite add_sends_bump. split; [reflexivity|].
        repeat constructor. exact Hq.
      * destruct (IH (S bc) (bump_sends s)) as (n & tr & -> & Hq).
        exists (S n), (ESendBytes ws (slice audio i (i + C)) true :: tr).
        rewrite add_sends_bump. split; [reflexivity|].
        repeat constructor. exact Hq.
    + exists 1, [ESendBytes ws (slice audio i (i + C)) false;
                 EPrint LogSendDisconnected].
      split; [|repeat constructor].
      unfold add_sends, bump_sends. cbn. repeat f_equal. lia.
Qed.

Lemma stream_reply_frame C B ws audio s :
  exists n tr,
    stream_reply C B ws audio s = (Ret tt, add_sends n s, tr) /\ quiet tr.
Proof.
  unfold stream_reply, bind.
  destruct (send_chunks_frame C B ws audio
              (range 0 (length audio) C) 0 s) as (n & tr & -> & Hq).
  unfold try_except, send_text, send, ret.
  destruct (send_ok (sends (add_sends n s))) eqn:Hok; cbn.
  - exists (S n), (tr ++ [ESendText ws (json_dumps_event "response_finished") true]).
    split.
    + unfold add_sends, bump_sends. cbn. repeat f_equal. lia.
    + apply Forall_app. split; [exact Hq|repeat constructor].
  - exists (S n), (tr ++ [ESendText ws (json_dumps_event "response_finished") false]).
    split.
    + rewrite ?app_nil_r. unfold add_sends, bump_sends. cbn. repeat f_equal. lia.
    + apply Forall_app. split; [exact Hq|repeat constructor].
Qed.

(** ** The pipeline of one turn *)

Lemma transcribe_audio_stream_run audio s :
  transcribe_audio_stream audio s = (Ret (transcript audio), s, asr_trace audio).
Proof.
  unfold transcribe_audio_stream, transcript, asr_trace, bind, emit, print, ret.
  cbn. destruct (stt_first_result (speech_asr audio)); reflexivity.
Qed.

Lemma synthesize_speech_stream_run text s :
  synthesize_speech_stream text s = (Ret (synthesized text), s, tts_trace text).
Proof.
  unfold synthesize_speech_stream, synthesized, tts_trace, bind, emit, print, ret.
  cbn. destruct (speech_synthesis text); reflexivity.
Qed.

Lemma get_ai_response_with_redis_run user_input user_id s :
  get_ai_response_with_redis user_input user_id s
  = let history := history_of s user_id in
    match llm history user_input with
    | None =>
        (Raise LLMError, s, [ERedisLoad user_id; ELlm history user_input])
    | Some text =>
        let pair := [Human user_input; Ai text] in
        (Ret text, set_redis (<[user_id := history ++ pair]> (redis s)) s,
         [ERedisLoad user_id; ELlm history user_input;
          ERedisAppend user_id pair])
    end.
Proof.
  unfold get_ai_response_with_redis, tutor_chain_invoke, history_of,
    bind, emit, gets, modify, raise, ret.
  cbn. destruct (llm (default [] (redis s !! user_id)) user_input); reflexivity.
Qed.

(** The [recording_ended] branch, case by case, for a buffer that holds
    audio. *)
Lemma on_recording_ended_run ws cid s :
  audio_buffer (client s) <> [] ->
  on_recording_ended ws cid s
  = let buf := audio_buffer (client s) in
    let s1 := set_is_recording false s in
    let t1 := [EPrint LogRecordingEnded; EPrint (LogAudioSize (length buf));
               EPrint LogPipelineStart] ++ asr_trace buf in
    if String.eqb (transcript buf) "" then
      (Continue, s1, t1 ++ [EPrint LogAsrFailed])
    else
      let history := history_of s cid in
      let t2 := t1 ++ [EPrint (LogUserSaid (transcript buf));
                       ERedisLoad cid; ELlm history (transcript buf)] in
      match llm history (transcript buf) with
      | None => (Raise LLMError, s1, t2)
      | Some reply =>
          let pair := [Human (transcript buf); Ai reply] in
          let s2 := set_redis (<[cid := history ++ pair]> (redis s)) s1 in
          let t3 := t2 ++ [ERedisAppend cid pair; EPrint (LogAiReply reply)]
                       ++ tts_trace reply in
          if Nat.eqb (length (synthesized reply)) 0 then
            (Continue, s2, t3 ++ [EPrint LogTtsFailed])
          else
            let '(_, s3, t4) :=
              stream_reply CHUNK_SIZE BURST_SIZE ws (synthesized reply) s2 in
            (Ret tt, s3,
             t3 ++ [ESleep 100;
                    EPrint (LogStreamStart (length (synthesized reply)))]
                ++ t4 ++ [EPrint LogTurnFinished])
      end.
Proof.
  intros Hbuf. cbv zeta.
  unfold on_recording_ended.
  unfold bind at 1. unfold print at 1, emit at 1.
  unfold bind at 1. unfold modify at 1.
  unfold bind at 1. unfold gets at 1.
  cbn [client set_is_recording set_client audio_buffer].
  unfold bind at 1.
  destruct (audio_buffer (client s)) as [|b buf'] eqn:Ebuf; [congruence|].
  cbn [length Nat.eqb when ret].
  unfold bind at 1. unfold print at 1, emit at 1.
  unfold bind at 1. unfold print at 1, emit at 1.
  unfold bind at 1. rewrite transcribe_audio_stream_run.
  unfold bind at 1.
  destruct (String.eqb (transcript (b :: buf')) "") eqn:Etxt.
  - cbn. reflexivity.
  - cbn [when ret].
    unfold bind at 1. unfold print at 1, emit at 1.
    unfold bind at 1. rewrite get_ai_response_with_redis_run. cbv zeta.
    assert (Hh : history_of (set_is_recording false s) cid = history_of s cid)
      by reflexivity.
    rewrite Hh.
    destruct (llm (history_of s cid) (transcript (b :: buf'))) as [reply|].
    2:{ cbn. reflexivity. }
    unfold bind at 1. unfold print at 1, emit at 1.
    unfold bind at 1. rewrite synthesize_speech_stream_run.
    unfold bind at 1.
    destruct (Nat.eqb (length (synthesized reply)) 0) eqn:Elen.
    + cbn. rewrite <- !app_assoc. reflexivity.
    + cbn [when ret].
      unfold bind at 1. unfold asyncio_sleep at 1, emit at 1.
      unfold bind at 1. unfold print at 1, emit at 1.
      unfold bind at 1.
      cbn [set_redis set_is_recording set_client redis client sends
           led_controller_connection is_recording audio_buffer].
      match goal with
      | |- context [stream_reply ?c ?b ?w ?a ?st] =>
          destruct (stream_reply_frame c b w a st) as (n & t4 & -> & _)
      end.
      unfold print, emit. cbn. rewrite <- !app_assoc. reflexivity.
Qed.

Lemma handle_recording_ended ws cid text s :
  is_event text "recording_ended" = true ->
  handle_message ws cid (text_frame text) s = on_recording_ended ws cid s.
Proof.
  intros Hev. rewrite (handle_message_event _ _ _ _ _ Hev). reflexivity.
Qed.

(** Enter the pipeline of a [recording_ended] message whose buffer holds
    audio. *)
Ltac run_turn Hev Hbuf :=
  rewrite (handle_recording_ended _ _ _ _ Hev);
  rewrite (on_recording_ended_run _ _ _ Hbuf);
  cbv zeta.

Lemma transcript_empty audio :
  transcript audio = "" <->
  stt_first_result (speech_asr audio) = None \/
  stt_first_result (speech_asr audio) = Some "".
Proof.
  unfold transcript.
  destruct (stt_first_result (speech_asr audio)) as [t|]; cbn.
  - split; [intros ->; right; reflexivity|intros [H|H]; congruence].
  - split; [left|]; reflexivity.
Qed.

(** A result that is missing, carries an error number other than zero, or
    carries no sentence yields the empty transcript. *)
Lemma transcript_of_error audio :
  match speech_asr audio with
  | None => True
  | Some d => err_no d <> Some 0%Z \/ result d = None \/ result d = Some []
  end ->
  transcript audio = "".
Proof.
  unfold transcript, stt_first_result.
  destruct (speech_asr audio) as [[e r]|]; cbn; [|reflexivity].
  intros [H|[->| ->]].
  - destruct e as [[| |]|]; try reflexivity. congruence.
  - destruct e as [[| |]|]; reflexivity.
  - destruct e as [[| |]|]; reflexivity.
Qed.

Lemma pipeline_calls_asr_trace audio :
  pipeline_calls (asr_trace audio) = [EAsr audio].
Proof.
  unfold asr_trace. destruct (stt_first_result (speech_asr audio)); reflexivity.
Qed.

Lemma pipeline_calls_tts_trace text :
  pipeline_calls (tts_trace text) = [ETts text].
Proof. unfold tts_trace. destruct (speech_synthesis text); reflexivity. Qed.

Lemma send_attempts_asr_trace audio : send_attempts (asr_trace audio) = [].
Proof.
  unfold asr_trace. destruct (stt_first_result (speech_asr audio)); reflexivity.
Qed.

Lemma send_attempts_tts_trace text : send_attempts (tts_trace text) = [].
Proof. unfold tts_trace. destruct (speech_synthesis text); reflexivity. Qed.

Lemma memory_appends_asr_trace audio : memory_appends (asr_trace audio) = [].
Proof.
  unfold asr_trace. destruct (stt_first_result (speech_asr audio)); reflexivity.
Qed.

Lemma memory_appends_tts_trace text : memory_appends (tts_trace text) = [].
Proof. unfold tts_trace. destruct (speech_synthesis text); reflexivity. Qed.

(** One more message in front of the loop. *)
Lemma receive_loop_cons ws cid m rest s :
  receive_loop ws cid (m :: rest) s
  = (let '(r, s1, t1) := handle_message ws cid m s in
     match r with
     | Raise e => (Raise e, s1, t1)
     | _ => let '(r2, s2, t2) := receive_loop ws cid rest s1 in
            (r2, s2, t1 ++ t2)
     end).
Proof.
  cbn [receive_loop]. unfold bind, iteration.
  destruct (handle_message ws cid m s) as [[[[]| |e] s1] t1]; reflexivity.
Qed.

(** C5. When the transcriber returns the empty text (its answer to an
    error result as well as to an empty sentence), the turn stops there:
    the transcriber is the only collaborator called, so the dialogue model
    is not asked and the conversation memory is not written; nothing is
    sent; the handler is told by the empty return value and reports the
    failure on its log; and the loop goes on with the messages that
    follow, the session and the connection alive. *)
Theorem asr_failure_aborts_turn ws cid text s rest :
  is_event text "recording_ended" = true ->
  audio_buffer (client s) <> [] ->
  transcript (audio_buffer (client s)) = "" ->
  let '(r, s', tr) := handle_message ws cid (text_frame text) s in
  r = Continue /\
  s' = set_is_recording false s /\
  redis s' = redis s /\
  pipeline_calls tr = [EAsr (audio_buffer (client s))] /\
  memory_appends tr = [] /\
  send_attempts tr = [] /\
  last tr = Some (EPrint LogAsrFailed) /\
  receive_loop ws cid (text_frame text :: rest) s
  = (let '(r2, s2, t2) := receive_loop ws cid rest s' in (r2, s2, tr ++ t2)).
Proof.
  intros Hev Hbuf Htxt.
  rewrite receive_loop_cons.
  run_turn Hev Hbuf.
  rewrite Htxt. cbn [String.eqb].
  repeat split.
  - rewrite !pipeline_calls_app, pipeline_calls_asr_trace. reflexivity.
  - rewrite !memory_appends_app, memory_appends_asr_trace. reflexivity.
  - rewrite !send_attempts_app, send_attempts_asr_trace. reflexivity.
  - rewrite last_snoc. reflexivity.
Qed.

Lemma history_of_add_sends n s cid : history_of (add_sends n s) cid = history_of s cid.
Proof. reflexivity. Qed.

(** C3. In a turn in which the transcriber hears something and the
    dialogue model answers, the conversation memory is appended to exactly
    once, with the human turn and the assistant turn together: the
    session's history grows by these two entries, and no other session's
    history changes. This covers every turn that runs to its end. *)
Theorem completed_turn_appends_one_pair ws cid text s reply :
  is_event text "recording_ended" = true ->
  audio_buffer (client s) <> [] ->
  transcript (audio_buffer (client s)) <> "" ->
  llm (history_of s cid) (transcript (audio_buffer (client s))) = Some reply ->
  let pair := [Human (transcript (audio_buffer (client s))); Ai reply] in
  let '(r, s', tr) := handle_message ws cid (text_frame text) s in
  r = (if Nat.eqb (length (synthesized reply)) 0 then Continue else Ret tt) /\
  memory_appends tr = [ERedisAppend cid pair] /\
  history_of s' cid = history_of s cid ++ pair /\
  length (history_of s' cid) = length (history_of s cid) + 2 /\
  (forall other, other <> cid -> history_of s' other = history_of s other).
Proof.
  intros Hev Hbuf Htxt Hllm pair.
  run_turn Hev Hbuf.
  apply String.eqb_neq in Htxt. rewrite Htxt, Hllm.
  set (s2 := set_redis _ _).
  assert (Hh : history_of s2 cid = history_of s cid ++ pair).
  { unfold s2, history_of. cbn. rewrite lookup_insert_eq. reflexivity. }
  assert (Ho : forall other, other <> cid ->
                 history_of s2 other = history_of s other).
  { intros other Hne. unfold s2, history_of. cbn.
    rewrite lookup_insert_ne by congruence. reflexivity. }
  destruct (Nat.eqb (length (synthesized reply)) 0).
  - repeat split.
    + rewrite !memory_appends_app, memory_appends_asr_trace,
        memory_appends_tts_trace. reflexivity.
    + exact Hh.
    + rewrite Hh, length_app. reflexivity.
    + exact Ho.
  - destruct (stream_reply_frame CHUNK_SIZE BURST_SIZE ws
                (synthesized reply) s2) as (n & t4 & -> & Hq).
    repeat split.
    + rewrite !memory_appends_app, memory_appends_asr_trace,
        memory_appends_tts_trace, (quiet_memory_appends _ Hq). reflexivity.
    + exact Hh.
    + rewrite history_of_add_sends, Hh, length_app. reflexivity.
    + intros other Hne. rewrite history_of_add_sends. apply Ho, Hne.
Qed.

(** C4. In a pipeline run that reaches synthesis, the calls follow each
    other as transcription, history load, dialogue model, memory append,
    synthesis: the pair is in the store before the synthesiser is asked.
    When synthesis then fails (it yields no audio), only the delivery is
    given up: nothing is sent, the turn ends, and the history keeps the
    pair. *)
Theorem memory_append_precedes_synthesis ws cid text s reply :
  is_event text "recording_ended" = true ->
  audio_buffer (client s) <> [] ->
  transcript (audio_buffer (client s)) <> "" ->
  llm (history_of s cid) (transcript (audio_buffer (client s))) = Some reply ->
  let buf := audio_buffer (client s) in
  let pair := [Human (transcript buf); Ai reply] in
  let '(r, s', tr) := handle_message ws cid (text_frame text) s in
  pipeline_calls tr
  = [EAsr buf; ERedisLoad cid; ELlm (history_of s cid) (transcript buf);
     ERedisAppend cid pair; ETts reply] /\
  history_of s' cid = history_of s cid ++ pair /\
  match synthesized reply with
  | [] =>
      r = Continue /\ send_attempts tr = [] /\
      last tr = Some (EPrint LogTtsFailed)
  | _ :: _ => r = Ret tt
  end.
Proof.
  intros Hev Hbuf Htxt Hllm buf pair.
  run_turn Hev Hbuf.
  apply String.eqb_neq in Htxt. rewrite Htxt, Hllm.
  fold buf. fold pair.
  set (s2 := set_redis _ _).
  assert (Hh : history_of s2 cid = history_of s cid ++ pair).
  { unfold s2, history_of. cbn. rewrite lookup_insert_eq. reflexivity. }
  destruct (synthesized reply) as [|b audio] eqn:Esyn.
  - cbn [length Nat.eqb]. repeat split.
    + rewrite !pipeline_calls_app, pipeline_calls_asr_trace,
        pipeline_calls_tts_trace. reflexivity.
    + exact Hh.
    + rewrite !send_attempts_app, send_attempts_asr_trace,
        send_attempts_tts_trace. reflexivity.
    + rewrite last_snoc. reflexivity.
  - cbn [length Nat.eqb].
    destruct (stream_reply_frame CHUNK_SIZE BURST_SIZE ws (b :: audio) s2)
      as (n & t4 & -> & Hq).
    repeat split.
    + rewrite !pipeline_calls_app, pipeline_calls_asr_trace,
        pipeline_calls_tts_trace, (quiet_pipeline_calls _ Hq). reflexivity.
    + rewrite history_of_add_sends. exact Hh.
Qed.

(** ** A send that fails in the middle of a reply *)

Lemma sent_chunks_app t1 t2 :
  sent_chunks (t1 ++ t2) = sent_chunks t1 ++ sent_chunks t2.
Proof.
  induction t1 as [|e t1 IH]; [reflexivity|].
  destruct e as [| | | | | | | |to chunk [|]| |]; cbn; rewrite ?IH; reflexivity.
Qed.

Lemma sent_chunks_chunk_trace_all B ws chunks bc :
  sent_chunks (chunk_trace B ws chunks bc) = chunks.
Proof.
  rewrite <- (app_nil_r (chunk_trace B ws chunks bc)).
  rewrite sent_chunks_chunk_trace. apply app_nil_r.
Qed.

Lemma send_attempts_chunk_trace_all B ws chunks bc :
  send_attempts (chunk_trace B ws chunks bc)
  = map (fun c => ESendBytes ws c true) chunks.
Proof.
  rewrite <- (app_nil_r (chunk_trace B ws chunks bc)).
  rewrite send_attempts_chunk_trace. apply app_nil_r.
Qed.

Lemma sent_chunks_asr_trace audio : sent_chunks (asr_trace audio) = [].
Proof.
  unfold asr_trace. destruct (stt_first_result (speech_asr audio)); reflexivity.
Qed.

Lemma sent_chunks_tts_trace text : sent_chunks (tts_trace text) = [].
Proof. unfold tts_trace. destruct (speech_synthesis text); reflexivity. Qed.

(** C7, as the code has it. When the send of chunk number [k] of a reply
    is the first to fail, the chunks before it are the only ones that went
    out and no further chunk send is attempted: no retry and no shorter
    chunk. The handler prints that the client disconnected, still tries to
    send the [response_finished] marker, whatever the outcome of that send,
    and ends the turn normally: the session keeps its state and the loop
    goes on with the messages that follow. *)
Theorem chunk_send_failure_stops_stream ws cid text s reply k chunk rest :
  is_event text "recording_ended" = true ->
  audio_buffer (client s) <> [] ->
  transcript (audio_buffer (client s)) <> "" ->
  llm (history_of s cid) (transcript (audio_buffer (client s))) = Some reply ->
  reply_chunks CHUNK_SIZE (synthesized reply) !! k = Some chunk ->
  (forall j, j < k -> send_ok (sends s + j) = true) ->
  send_ok (sends s + k) = false ->
  let '(r, s', tr) := handle_message ws cid (text_frame text) s in
  r = Ret tt /\
  client s' = client (set_is_recording false s) /\
  sent_chunks tr = take k (reply_chunks CHUNK_SIZE (synthesized reply)) /\
  send_attempts tr
  = map (fun c => ESendBytes ws c true)
        (take k (reply_chunks CHUNK_SIZE (synthesized reply)))
    ++ [ESendBytes ws chunk false;
        ESendText ws (json_dumps_event "response_finished")
          (send_ok (sends s + S k))] /\
  In (EPrint LogSendDisconnected) tr /\
  receive_loop ws cid (text_frame text :: rest) s
  = (let '(r2, s2, t2) := receive_loop ws cid rest s' in (r2, s2, tr ++ t2)).
Proof.
  intros Hev Hbuf Htxt Hllm Hk Hok Hfail.
  rewrite receive_loop_cons.
  run_turn Hev Hbuf.
  apply String.eqb_neq in Htxt. rewrite Htxt, Hllm.
  destruct (Nat.eqb (length (synthesized reply)) 0) eqn:Elen.
  { apply Nat.eqb_eq in Elen. destruct (synthesized reply); [|discriminate].
    discriminate Hk. }
  set (s2 := set_redis _ _).
  rewrite (stream_reply_first_failure CHUNK_SIZE BURST_SIZE ws
             (synthesized reply) s2 k chunk Hk Hok Hfail).
  repeat split.
  - rewrite !sent_chunks_app, sent_chunks_asr_trace, sent_chunks_tts_trace.
    rewrite sent_chunks_chunk_trace_all. cbn. rewrite ?app_nil_r.
    reflexivity.
  - rewrite !send_attempts_app, send_attempts_asr_trace,
      send_attempts_tts_trace.
    rewrite send_attempts_chunk_trace_all. cbn. rewrite ?app_nil_r.
    reflexivity.
  - rewrite !in_app_iff. cbn [In]. auto 20.
Qed.

(** ** Control payloads without a branch *)

(** C8, as the code has it. A control payload that decodes to an object
    whose event is missing or is none of the four recognised names falls
    through the whole chain: the handler changes nothing, prints nothing,
    sends nothing and raises nothing, and the loop goes on with the
    messages that follow. *)
Theorem unrecognised_event_ignored ws cid text s rest :
  is_unrecognised_event text = true ->
  handle_message ws cid (text_frame text) s = (Ret tt, s, []) /\
  receive_loop ws cid (text_frame text :: rest) s
  = receive_loop ws cid rest s.
Proof.
  intros H. unfold is_unrecognised_event, is_status_signal in H.
  apply andb_prop in H as [Hlit Hdec]. apply negb_true_iff in Hlit.
  assert (Hm : handle_message ws cid (text_frame text) s = (Ret tt, s, [])).
  { unfold handle_message. cbn [msg_text text_frame]. rewrite Hlit.
    destruct (json_loads text) as [[| | | | |fields]|]; try discriminate.
    apply negb_true_iff in Hdec. unfold recognised in Hdec.
    apply orb_false_elim in Hdec as [Hdec H4].
    apply orb_false_elim in Hdec as [Hdec H3].
    apply orb_false_elim in Hdec as [H1 H2].
    unfold bind, ret, on_event. cbn. rewrite H1, H2, H3, H4. reflexivity. }
  split; [exact Hm|].
  rewrite receive_loop_cons, Hm.
  destruct (receive_loop ws cid rest s) as [[r2 s2] t2]. reflexivity.
Qed.

(** ** Status signals and the observer slot *)

(** With no observer registered, status signals leave no mark. *)
Lemma status_signals_without_observer ws cid signals s :
  led_controller_connection s = None ->
  Forall (fun text => is_status_signal text = true) signals ->
  receive_loop ws cid (map text_frame signals) s = (Ret tt, s, []).
Proof.
  intros Hled Hsig. induction Hsig as [|text signals Ht _ IH]; [reflexivity|].
  cbn [map]. rewrite receive_loop_cons.
  unfold handle_message. cbn [msg_text text_frame].
  unfold is_status_signal in Ht. rewrite Ht.
  unfold bind, gets, ret, continue_. rewrite Hled. cbn.
  rewrite IH. reflexivity.
Qed.

(** C9. A status signal ["1"] or ["0"] ends the turn of the loop at once
    and never touches the session's state, its audio buffer or the
    conversation memory. With an observer registered it is sent to that
    observer as it came; when that send fails the slot is emptied, and from
    then on any number of further signals are dropped without a send; with
    no observer registered nothing happens at all. *)
Theorem status_signal_forwarded_or_dropped ws cid text s :
  is_status_signal text = true ->
  let '(r, s', tr) := handle_message ws cid (text_frame text) s in
  r = Continue /\ client s' = client s /\ redis s' = redis s /\
  match led_controller_connection s with
  | None => s' = s /\ tr = []
  | Some led =>
      if send_ok (sends s) then
        led_controller_connection s' = Some led /\
        tr = [ESendText led text true; EPrint (LogForwarded text)]
      else
        led_controller_connection s' = None /\
        tr = [ESendText led text false; EPrint LogForwardFailed] /\
        forall signals,
          Forall (fun text => is_status_signal text = true) signals ->
          receive_loop ws cid (map text_frame signals) s' = (Ret tt, s', [])
  end.
Proof.
  intros Ht. unfold handle_message. cbn [msg_text text_frame].
  unfold is_status_signal in Ht. rewrite Ht.
  unfold bind, gets, ret, continue_, try_except, send_text, send, print,
    emit, modify.
  destruct (led_controller_connection s) as [led|] eqn:Hled; cbn.
  - destruct (send_ok (sends s)) eqn:Hok; cbn.
    + repeat split. exact Hled.
    + repeat split. intros signals Hsig.
      apply status_signals_without_observer; [reflexivity|exact Hsig].
  - repeat split.
Qed.

(** C10. When the handler of a status observer ends, the slot is emptied
    whatever it holds. So when an observer [stale] registers, another
    observer [live] replaces it, and the handler of [stale] then ends, the
    slot that held [live] is empty, and the next status signal of a session
    is dropped although [live] is still connected. *)
Theorem stale_observer_exit_empties_slot ws cid stale live e (signal : bool) s :
  let text := if signal then "1" else "0" in
  let '(r0, s0, _) := led_finish stale e s in
  let '(_, s1, _) := led_accept stale s in
  let '(_, s2, _) := led_accept live s1 in
  let '(r3, s3, _) := led_finish stale e s2 in
  (r0 = Ret tt /\ led_controller_connection s0 = None) /\
  led_controller_connection s1 = Some stale /\
  led_controller_connection s2 = Some live /\
  (r3 = Ret tt /\ led_controller_connection s3 = None) /\
  handle_message ws cid (text_frame text) s3 = (Continue, s3, []).
Proof.
  destruct signal; cbn; repeat split.
Qed.

(** ** Frames that arrive while a turn is processed *)

(** Whatever the pipeline does, the [recording_ended] branch leaves the
    session not recording and the audio buffer as it was. *)
Lemma on_recording_ended_client ws cid s :
  let '(_, s', _) := on_recording_ended ws cid s in
  client s' = client (set_is_recording false s).
Proof.
  destruct (audio_buffer (client s)) as [|b buf] eqn:Ebuf.
  - rewrite (on_recording_ended_empty _ _ _ Ebuf). reflexivity.
  - rewrite on_recording_ended_run by (rewrite Ebuf; discriminate).
    cbv zeta. rewrite Ebuf.
    destruct (String.eqb (transcript (b :: buf)) ""); [reflexivity|].
    destruct (llm (history_of s cid) (transcript (b :: buf))) as [reply|];
      [|reflexivity].
    destruct (Nat.eqb (length (synthesized reply)) 0); [reflexivity|].
    match goal with
    | |- context [stream_reply ?c ?b ?w ?a ?st] =>
        destruct (stream_reply_frame c b w a st) as (n & t4 & -> & _)
    end.
    reflexivity.
Qed.

(** X16. A frame that reached the socket while the turn was processed is
    read once the turn is over, finds the session [Idle] and is dropped. *)
Lemma frame_queued_behind_recording_ended_dropped ws cid text chunk s :
  is_event text "recording_ended" = true ->
  let '(_, s', _) :=
    receive_loop ws cid [text_frame text; binary_frame chunk] s in
  state_of (client s') = Idle /\
  audio_buffer (client s') = audio_buffer (client s).
Proof.
  intros Hev. rewrite receive_loop_cons.
  rewrite (handle_recording_ended _ _ _ _ Hev).
  pose proof (on_recording_ended_client ws cid s) as Hc.
  destruct (on_recording_ended ws cid s) as [[r s1] t1].
  assert (Hgo : let '(_, s', _) :=
            (let '(r2, s2, t2) :=
               receive_loop ws cid [binary_frame chunk] s1 in
             (r2, s2, t1 ++ t2)) in
          state_of (client s') = Idle /\
          audio_buffer (client s') = audio_buffer (client s)).
  { rewrite receive_loop_cons, handle_binary_frame.
    rewrite Hc. cbn. rewrite Hc. cbn. split; reflexivity. }
  destruct r as [[]| |e]; [exact Hgo|exact Hgo|].
  rewrite Hc. split; reflexivity.
Qed.

(** ** Recording, from the first frame to the transcriber *)

(** The audio of the transcriber calls of a trace, in order. *)
Fixpoint asr_calls (tr : list effect) : list bytes :=
  match tr with
  | [] => []
  | EAsr audio :: tr' => audio :: asr_calls tr'
  | _ :: tr' => asr_calls tr'
  end.

Lemma asr_calls_app t1 t2 : asr_calls (t1 ++ t2) = asr_calls t1 ++ asr_calls t2.
Proof.
  induction t1 as [|e t1 IH]; [reflexivity|].
  destruct e; cbn; rewrite ?IH; reflexivity.
Qed.

Lemma asr_calls_asr_trace audio : asr_calls (asr_trace audio) = [audio].
Proof.
  unfold asr_trace. destruct (stt_first_result (speech_asr audio)); reflexivity.
Qed.

Lemma asr_calls_tts_trace text : asr_calls (tts_trace text) = [].
Proof. unfold tts_trace. destruct (speech_synthesis text); reflexivity. Qed.

Lemma quiet_asr_calls tr : quiet tr -> asr_calls tr = [].
Proof.
  unfold quiet. induction 1 as [|e tr He _ IH]; [reflexivity|].
  destruct e; cbn in *; try discriminate; exact IH.
Qed.

(** Frames read while the session records pile up behind the buffer. *)
Lemma frames_while_recording ws cid frames s :
  is_recording (client s) = true ->
  receive_loop ws cid (map binary_frame frames) s
  = (Ret tt,
     set_client {| is_recording := true;
                   audio_buffer := audio_buffer (client s) ++ concat frames |} s,
     []).
Proof.
  revert s. induction frames as [|f frames IH]; intros s Hrec.
  - cbn. rewrite app_nil_r. destruct s as [[rec buf] led r n].
    cbn in Hrec. subst rec. reflexivity.
  - cbn [map]. rewrite receive_loop_cons, handle_binary_frame, Hrec.
    rewrite IH by exact Hrec. cbn. rewrite <- app_assoc. reflexivity.
Qed.

(** Frames read while the session does not record leave no mark. *)
Lemma frames_while_idle ws cid frames s :
  is_recording (client s) = false ->
  receive_loop ws cid (map binary_frame frames) s = (Ret tt, s, []).
Proof.
  intros Hrec. induction frames as [|f frames IH]; [reflexivity|].
  cbn [map]. rewrite receive_loop_cons, handle_binary_frame, Hrec, IH.
  reflexivity.
Qed.

Lemma handle_recording_started ws cid text s :
  is_event text "recording_started" = true ->
  handle_message ws cid (text_frame text) s
  = (Ret tt, set_client {| is_recording := true; audio_buffer := [] |} s,
     [EPrint LogRecordingStarted]).
Proof.
  intros Hev. rewrite (handle_message_event _ _ _ _ _ Hev). reflexivity.
Qed.

Lemma handle_recording_cancelled ws cid text s :
  is_event text "recording_cancelled" = true ->
  handle_message ws cid (text_frame text) s
  = (Ret tt, set_client {| is_recording := false; audio_buffer := [] |} s,
     [EPrint LogRecordingCancelled]).
Proof.
  intros Hev. rewrite (handle_message_event _ _ _ _ _ Hev). reflexivity.
Qed.

(** A [recording_started] followed by frames, from any state: whatever was
    buffered before is gone, and the buffer holds the frames in the order
    of arrival. *)
Lemma recording_started_then_frames ws cid text frames s :
  is_event text "recording_started" = true ->
  receive_loop ws cid (text_frame text :: map binary_frame frames) s
  = (Ret tt,
     set_client {| is_recording := true; audio_buffer := concat frames |} s,
     [EPrint LogRecordingStarted]).
Proof.
  intros Hev. rewrite receive_loop_cons, (handle_recording_started _ _ _ _ Hev).
  rewrite frames_while_recording by reflexivity. reflexivity.
Qed.

(** The transcriber is called once in a turn whose buffer holds audio, on
    that audio. *)
Lemma asr_calls_on_recording_ended ws cid s :
  audio_buffer (client s) <> [] ->
  let '(_, _, tr) := on_recording_ended ws cid s in
  asr_calls tr = [audio_buffer (client s)].
Proof.
  intros Hbuf. rewrite (on_recording_ended_run _ _ _ Hbuf). cbv zeta.
  destruct (String.eqb (transcript (audio_buffer (client s))) "").
  { rewrite !asr_calls_app, asr_calls_asr_trace. reflexivity. }
  destruct (llm _ _) as [reply|].
  2:{ rewrite !asr_calls_app, asr_calls_asr_trace. reflexivity. }
  destruct (Nat.eqb (length (synthesized reply)) 0).
  { rewrite !asr_calls_app, asr_calls_asr_trace, asr_calls_tts_trace.
    reflexivity. }
  match goal with
  | |- context [stream_reply ?c ?b ?w ?a ?st] =>
      destruct (stream_reply_frame c b w a st) as (n & t4 & -> & Hq)
  end.
  rewrite !asr_calls_app, asr_calls_asr_trace, asr_calls_tts_trace,
    (quiet_asr_calls _ Hq). reflexivity.
Qed.

(** X1. From any state, a [recording_started], then any frames, then a
    [recording_ended] hand the transcriber the frames received since the
    [recording_started], concatenated in the order of arrival, in exactly
    one call: audio buffered before the [recording_started] is not part of
    it. *)
Theorem recorded_frames_reach_transcriber ws cid started ended frames s :
  is_event started "recording_started" = true ->
  is_event ended "recording_ended" = true ->
  concat frames <> [] ->
  let '(_, _, tr) :=
    receive_loop ws cid
      (text_frame started :: map binary_frame frames ++ [text_frame ended]) s in
  asr_calls tr = [concat frames].
Proof.
  intros Hs He Hne.
  change (text_frame started :: map binary_frame frames ++ [text_frame ended])
    with ((text_frame started :: map binary_frame frames)
            ++ [text_frame ended]).
  rewrite receive_loop_app, (recording_started_then_frames _ _ _ _ _ Hs).
  rewrite receive_loop_cons, (handle_recording_ended _ _ _ _ He).
  set (s1 := set_client _ s).
  pose proof (asr_calls_on_recording_ended ws cid s1 Hne) as Hasr.
  destruct (on_recording_ended ws cid s1) as [[r s2] t2].
  cbn in Hasr.
  destruct r as [[]| |e]; cbn; rewrite ?app_nil_r; exact Hasr.
Qed.

(** X2. A [recording_cancelled] throws the recording away for good: from
    any state, whatever frames follow it are dropped, and a
    [recording_ended] that comes after them finds an empty buffer, so the
    pipeline never runs, nothing is sent and the memory is untouched; the
    session ends [Idle]. *)
Theorem cancelled_recording_never_processed ws cid cancel ended frames s :
  is_event cancel "recording_cancelled" = true ->
  is_event ended "recording_ended" = true ->
  receive_loop ws cid
    (text_frame cancel :: map binary_frame frames ++ [text_frame ended]) s
  = (Ret tt, set_client {| is_recording := false; audio_buffer := [] |} s,
     [EPrint LogRecordingCancelled; EPrint LogRecordingEnded;
      EPrint LogBufferEmpty]).
Proof.
  intros Hc He.
  rewrite receive_loop_cons, (handle_recording_cancelled _ _ _ _ Hc).
  rewrite receive_loop_app, frames_while_idle by reflexivity.
  rewrite receive_loop_cons, (handle_recording_ended _ _ _ _ He).
  rewrite on_recording_ended_empty by reflexivity. reflexivity.
Qed.

(** ** Exceptions that leave the loop *)

(** A control payload that is no status marker and does not decode to an
    object: [json.loads] raises on it, or [data.get] does. *)
Definition is_undecodable (text : string) : bool :=
  negb (is_status_signal text) &&
  match json_loads text with
  | Some (JObject _) => false
  | _ => true
  end.

(** The exception such a payload raises. *)
Definition decode_error (text : string) : exn :=
  match json_loads text with
  | None => JSONDecodeError
  | Some _ => AttributeError
  end.

Lemma handle_undecodable ws cid text s :
  is_undecodable text = true ->
  handle_message ws cid (text_frame text) s = (Raise (decode_error text), s, []).
Proof.
  unfold is_undecodable, is_status_signal, decode_error, handle_message.
  cbn [msg_text text_frame]. intros H.
  apply andb_prop in H as [Hlit Hdec]. apply negb_true_iff in Hlit.
  rewrite Hlit. unfold bind, ret, raise.
  destruct (json_loads text) as [[| | | | |fields]|]; try reflexivity.
  discriminate.
Qed.


(** [websocket_endpoint] in terms of its loop. *)
Lemma websocket_endpoint_run ws cid msgs s :
  websocket_endpoint ws cid msgs s
  = (let '(r, s1, t1) :=
       receive_loop ws cid msgs
         (set_client {| is_recording := false; audio_buffer := [] |} s) in
     match r with
     | Ret _ =>
         (Ret true, s1, [EAccept ws; EPrint LogClientConnected] ++ t1)
     | Continue =>
         (Continue, s1, [EAccept ws; EPrint LogClientConnected] ++ t1)
     | Raise e =>
         (Ret false, s1,
          [EAccept ws; EPrint LogClientConnected] ++ t1 ++
          [EPrint (match e with
                   | WebSocketDisconnect => LogClientDisconnected
                   | _ => LogUnknownError
                   end);
           EClose ws; EPrint LogForcedClose])
     end).
Proof.
  unfold websocket_endpoint, bind, try_except, emit, print, modify, ret.
  cbn.
  destruct (receive_loop ws cid msgs _) as [[[[]| |e] s1] t1]; cbn;
    rewrite ?app_nil_r; reflexivity.
Qed.


(** X4. When the dialogue model raises, the exception leaves the loop in
    the middle of the turn: the transcriber, the history load and the model
    have been called, but nothing was appended to the memory, the
    synthesiser is not asked, nothing is sent to the device, and the
    messages behind the [recording_ended] are never read. *)
Theorem dialogue_failure_leaves_loop ws cid text rest s :
  is_event text "recording_ended" = true ->
  audio_buffer (client s) <> [] ->
  transcript (audio_buffer (client s)) <> "" ->
  llm (history_of s cid) (transcript (audio_buffer (client s))) = None ->
  let '(r, s', tr) := receive_loop ws cid (text_frame text :: rest) s in
  r = Raise LLMError /\
  s' = set_is_recording false s /\
  pipeline_calls tr
  = [EAsr (audio_buffer (client s)); ERedisLoad cid;
     ELlm (history_of s cid) (transcript (audio_buffer (client s)))] /\
  send_attempts tr = [].
Proof.
  intros Hev Hbuf Htxt Hllm.
  rewrite receive_loop_cons. run_turn Hev Hbuf.
  apply String.eqb_neq in Htxt. rewrite Htxt, Hllm.
  repeat split.
  - rewrite !pipeline_calls_app, pipeline_calls_asr_trace. reflexivity.
  - rewrite !send_attempts_app, send_attempts_asr_trace. reflexivity.
Qed.

(** ** What a session can and cannot touch *)

(** A history made of human turns each followed by an assistant turn. *)
Fixpoint paired (h : list turn) : bool :=
  match h with
  | [] => true
  | Human _ :: Ai _ :: h' => paired h'
  | _ => false
  end.

Lemma paired_app h1 h2 :
  paired h1 = true -> paired h2 = true -> paired (h1 ++ h2) = true.
Proof.
  revert h1. fix IH 1. intros [|[u|a] [|[u'|a'] h1]] H1 H2; cbn in *;
    try discriminate; [exact H2|].
  apply IH; assumption.
Qed.

(** What a run leaves alone: it may empty the observer slot but never
    fills it; it leaves the histories of the other sessions as they were;
    and it extends the history of its own session by [ext], one pair for
    each append of its trace. *)
Definition frame_of (cid : string) (s s' : sys) (tr : list effect) : Prop :=
  (led_controller_connection s' = None \/
   led_controller_connection s' = led_controller_connection s) /\
  (forall other, other <> cid -> history_of s' other = history_of s other) /\
  exists ext,
    history_of s' cid = history_of s cid ++ ext /\
    paired ext = true /\
    length ext = 2 * length (memory_appends tr).

Lemma frame_of_same cid s tr :
  memory_appends tr = [] -> frame_of cid s s tr.
Proof.
  intros Hm. split; [right; reflexivity|]. split; [reflexivity|].
  exists []. rewrite app_nil_r, Hm. repeat split.
Qed.

Lemma frame_of_client cid s c tr :
  memory_appends tr = [] -> frame_of cid s (set_client c s) tr.
Proof. intros Hm. apply (frame_of_same cid s tr Hm). Qed.

Lemma frame_of_trans cid s1 s2 s3 t1 t2 :
  frame_of cid s1 s2 t1 -> frame_of cid s2 s3 t2 ->
  frame_of cid s1 s3 (t1 ++ t2).
Proof.
  intros (Hl1 & Ho1 & e1 & He1 & Hp1 & Hn1) (Hl2 & Ho2 & e2 & He2 & Hp2 & Hn2).
  split; [|split].
  - destruct Hl2 as [H|H]; [left; exact H|]. rewrite H. exact Hl1.
  - intros other Hne. rewrite (Ho2 other Hne). apply Ho1, Hne.
  - exists (e1 ++ e2). split; [|split].
    + rewrite He2, He1, app_assoc. reflexivity.
    + apply paired_app; assumption.
    + rewrite memory_appends_app, !length_app. lia.
Qed.

Lemma on_recording_ended_frame ws cid s :
  let '(_, s', tr) := on_recording_ended ws cid s in frame_of cid s s' tr.
Proof.
  destruct (audio_buffer (client s)) as [|b buf] eqn:Ebuf.
  { rewrite (on_recording_ended_empty _ _ _ Ebuf).
    apply (frame_of_same cid s). reflexivity. }
  rewrite on_recording_ended_run by (rewrite Ebuf; discriminate).
  cbv zeta. rewrite Ebuf.
  destruct (String.eqb (transcript (b :: buf)) "").
  { apply (frame_of_same cid s).
    rewrite !memory_appends_app, memory_appends_asr_trace. reflexivity. }
  destruct (llm (history_of s cid) (transcript (b :: buf))) as [reply|].
  2:{ apply (frame_of_same cid s).
      rewrite !memory_appends_app, memory_appends_asr_trace. reflexivity. }
  set (pair := [Human (transcript (b :: buf)); Ai reply]).
  assert (Hpair : forall n tr, length (memory_appends tr) = 1 ->
    frame_of cid s
      (add_sends n
         (set_redis (<[cid := history_of s cid ++ pair]> (redis s))
            (set_is_recording false s))) tr).
  { intros n tr Htr. split; [right; reflexivity|]. split.
    - intros other Hne. unfold history_of. cbn.
      rewrite lookup_insert_ne by congruence. reflexivity.
    - exists pair. split; [|split].
      + unfold history_of at 1. cbn. rewrite lookup_insert_eq. reflexivity.
      + reflexivity.
      + rewrite Htr. reflexivity. }
  destruct (Nat.eqb (length (synthesized reply)) 0).
  { rewrite <- (add_sends_0 (set_redis _ _)). apply Hpair.
    rewrite !memory_appends_app, memory_appends_asr_trace,
      memory_appends_tts_trace. reflexivity. }
  match goal with
  | |- context [stream_reply ?c ?b ?w ?a ?st] =>
      destruct (stream_reply_frame c b w a st) as (n & t4 & -> & Hq)
  end.
  apply Hpair.
  rewrite !memory_appends_app, memory_appends_asr_trace,
    memory_appends_tts_trace, (quiet_memory_appends _ Hq). reflexivity.
Qed.

(** The branch an event takes is settled by its name. *)
Lemma on_event_cases ws cid event s :
  on_event ws cid event s = (Ret tt, s, [EPrint LogWakeWord]) \/
  on_event ws cid event s
  = (Ret tt, set_client {| is_recording := true; audio_buffer := [] |} s,
     [EPrint LogRecordingStarted]) \/
  (event_is event "recording_ended" = true /\
   on_event ws cid event s = on_recording_ended ws cid s) \/
  on_event ws cid event s
  = (Ret tt, set_client {| is_recording := false; audio_buffer := [] |} s,
     [EPrint LogRecordingCancelled]) \/
  on_event ws cid event s = (Ret tt, s, []).
Proof.
  unfold on_event.
  destruct (event_is event "wake_word_detected"); [left; reflexivity|].
  destruct (event_is event "recording_started"); [right; left; reflexivity|].
  destruct (event_is event "recording_ended") eqn:He;
    [right; right; left; split; reflexivity|].
  destruct (event_is event "recording_cancelled");
    [right; right; right; left; reflexivity|].
  right; right; right; right; reflexivity.
Qed.

(** A control payload that decodes to an object reaches the chain with
    the value of its [event] field. *)
Lemma handle_message_object ws cid text fields s :
  is_status_signal text = false ->
  json_loads text = Some (JObject fields) ->
  handle_message ws cid (text_frame text) s
  = on_event ws cid (dict_lookup "event" fields) s.
Proof.
  unfold is_status_signal, handle_message. cbn [msg_text text_frame].
  intros -> ->. unfold bind, ret.
  destruct (on_event ws cid (dict_lookup "event" fields) s) as [[[]] ?];
    reflexivity.
Qed.

Lemma handle_message_frame ws cid m s :
  let '(_, s', tr) := handle_message ws cid m s in frame_of cid s s' tr.
Proof.
  destruct m as [[text|] bytes].
  - destruct (is_status_signal text) eqn:Hlit.
    + unfold handle_message. cbn [msg_text].
      unfold is_status_signal in Hlit. rewrite Hlit.
      unfold bind, gets, ret, continue_, try_except, send_text, send, print,
        emit, modify.
      destruct (led_controller_connection s) as [led|] eqn:Hled; cbn.
      * destruct (send_ok (sends s)); cbn.
        -- split; [right; reflexivity|]. split; [reflexivity|].
           exists []. rewrite app_nil_r. repeat split.
        -- split; [left; reflexivity|]. split; [reflexivity|].
           exists []. rewrite app_nil_r. repeat split.
      * apply (frame_of_same cid s). reflexivity.
    + assert (Hsame : handle_message ws cid
                {| msg_text := Some text; msg_bytes := bytes |} s
              = handle_message ws cid (text_frame text) s) by reflexivity.
      rewrite Hsame.
      destruct (json_loads text) as [[| | | | |fields]|] eqn:Hdec;
        try (rewrite handle_undecodable
               by (unfold is_undecodable; rewrite Hlit, Hdec; reflexivity);
             apply (frame_of_same cid s); reflexivity).
      rewrite (handle_message_object _ _ _ _ _ Hlit Hdec).
      pose proof (on_recording_ended_frame ws cid s) as Hf.
      destruct (on_event_cases ws cid (dict_lookup "event" fields) s)
        as [->|[->|[[_ ->]|[->| ->]]]];
        try (apply (frame_of_same cid s); reflexivity).
      exact Hf.
  - unfold handle_message. cbn [msg_text msg_bytes].
    destruct bytes as [chunk|];
      [|apply (frame_of_same cid s); reflexivity].
    unfold bind, gets, when, modify, ret. cbn.
    destruct (is_recording (client s)); cbn;
      apply (frame_of_same cid s); reflexivity.
Qed.

Lemma receive_loop_frame ws cid msgs s :
  let '(_, s', tr) := receive_loop ws cid msgs s in frame_of cid s s' tr.
Proof.
  revert s. induction msgs as [|m msgs IH]; intros s.
  - apply (frame_of_same cid s). reflexivity.
  - rewrite receive_loop_cons.
    pose proof (handle_message_frame ws cid m s) as Hm.
    destruct (handle_message ws cid m s) as [[r s1] t1].
    specialize (IH s1).
    destruct (receive_loop ws cid msgs s1) as [[r2 s2] t2].
    destruct r as [[]| |e]; [| |exact Hm];
      apply (frame_of_trans cid s s1 s2); assumption.
Qed.

(** X5. A session never registers an observer: over any sequence of
    messages the slot either keeps what it held or has been emptied by a
    forward that failed. *)
Theorem session_never_fills_observer_slot ws cid msgs s :
  let '(_, s', _) := receive_loop ws cid msgs s in
  led_controller_connection s' = None \/
  led_controller_connection s' = led_controller_connection s.
Proof.
  pose proof (receive_loop_frame ws cid msgs s) as H.
  destruct (receive_loop ws cid msgs s) as [[r s'] tr]. apply H.
Qed.

(** X6. Over any sequence of messages of a session, whatever the
    collaborators and the transport answer, the history of that session
    only grows at its end, by one human turn followed by one assistant
    turn for each append of the trace, and the histories stored under
    other session ids stay as they were. *)
Theorem history_grows_by_pairs ws cid msgs s :
  let '(_, s', tr) := receive_loop ws cid msgs s in
  (exists ext,
     history_of s' cid = history_of s cid ++ ext /\
     paired ext = true /\
     length ext = 2 * length (memory_appends tr)) /\
  forall other, other <> cid -> history_of s' other = history_of s other.
Proof.
  pose proof (receive_loop_frame ws cid msgs s) as H.
  destruct (receive_loop ws cid msgs s) as [[r s'] tr].
  destruct H as (_ & Ho & He). split; assumption.
Qed.

(** A message that opens a turn of the pipeline: a [recording_ended] that
    finds audio in the buffer. *)
Definition starts_turn (m : message) (s : sys) : bool :=
  match msg_text m with
  | Some text =>
      is_event text "recording_ended" &&
      negb (Nat.eqb (length (audio_buffer (client s))) 0)
  | None => false
  end.

(** A message that carries a status marker. *)
Definition is_status_message (m : message) : bool :=
  match msg_text m with
  | Some text => is_status_signal text
  | None => false
  end.

(** X7. Only a [recording_ended] that finds audio in the buffer sets the
    pipeline going. Any other message, in any state, calls no
    collaborator, leaves the conversation memory alone and puts no audio
    on the socket, and unless it is a status marker it sends nothing at
    all. *)
Theorem only_recording_ended_with_audio_runs_pipeline ws cid m s :
  starts_turn m s = false ->
  let '(_, s', tr) := handle_message ws cid m s in
  pipeline_calls tr = [] /\
  redis s' = redis s /\
  sent_chunks tr = [] /\
  (if is_status_message m then True else send_attempts tr = []).
Proof.
  unfold starts_turn, is_status_message.
  destruct m as [[text|] bytes]; cbn [msg_text].
  - intros Hno.
    assert (Hsame : handle_message ws cid
              {| msg_text := Some text; msg_bytes := bytes |} s
            = handle_message ws cid (text_frame text) s) by reflexivity.
    rewrite Hsame. clear Hsame.
    destruct (is_status_signal text) eqn:Hlit.
    + unfold handle_message. cbn [msg_text text_frame].
      unfold is_status_signal in Hlit. rewrite Hlit.
      unfold bind, gets, ret, continue_, try_except, send_text, send, print,
        emit, modify.
      destruct (led_controller_connection s) as [led|]; cbn;
        [destruct (send_ok (sends s)); cbn|]; repeat split.
    + destruct (json_loads text) as [[| | | | |fields]|] eqn:Hdec;
        try (rewrite handle_undecodable
               by (unfold is_undecodable; rewrite Hlit, Hdec; reflexivity);
             repeat split).
      rewrite (handle_message_object _ _ _ _ _ Hlit Hdec).
      destruct (on_event_cases ws cid (dict_lookup "event" fields) s)
        as [->|[->|[[He ->]|[->| ->]]]]; try (repeat split).
      unfold is_event in Hno. fold (is_status_signal text) in Hno.
      rewrite Hlit, Hdec, He in Hno. cbn in Hno.
      apply negb_false_iff, Nat.eqb_eq in Hno.
      rewrite on_recording_ended_empty
        by (destruct (audio_buffer (client s)); [reflexivity|discriminate]).
      repeat split.
  - intros _. unfold handle_message. cbn [msg_text msg_bytes].
    destruct bytes as [chunk|]; [|repeat split].
    unfold bind, gets, when, modify, ret. cbn.
    destruct (is_recording (client s)); cbn; repeat split.
Qed.

(** ** The reply stream over any transport *)

Definition is_text_send (e : effect) : bool :=
  match e with ESendText _ _ _ => true | _ => false end.

(** The text sends of a trace. *)
Definition text_sends (tr : list effect) : list effect :=
  List.filter is_text_send tr.

Lemma text_sends_app t1 t2 : text_sends (t1 ++ t2) = text_sends t1 ++ text_sends t2.
Proof. apply List.filter_app. Qed.

(** Whatever the transport answers, the chunk loop sends no text and what
    it got through is a leading part of the chunks it was given. *)
Lemma send_chunks_any_transport C B ws audio offsets bc s :
  let '(_, _, tr) := send_chunks C B ws audio offsets bc s in
  text_sends tr = [] /\
  exists k,
    sent_chunks tr = take k (map (fun i => slice audio i (i + C)) offsets).
Proof.
  revert bc s. induction offsets as [|i rest IH]; intros bc s.
  - cbn. split; [reflexivity|]. exists 0. reflexivity.
  - cbn [send_chunks].
    unfold bind, try_except, send_bytes, send, asyncio_sleep, print, emit, ret.
    destruct (send_ok (sends s)) eqn:Hok; cbn.
    + destruct (Nat.leb B (S bc)); cbn.
      * specialize (IH 0 (bump_sends s)).
        destruct (send_chunks C B ws audio rest 0 (bump_sends s))
          as [[r s1] t1].
        destruct IH as (Ht & k & Hk). cbn. split; [exact Ht|].
        exists (S k). cbn. rewrite Hk. reflexivity.
      * specialize (IH (S bc) (bump_sends s)).
        destruct (send_chunks C B ws audio rest (S bc) (bump_sends s))
          as [[r s1] t1].
        destruct IH as (Ht & k & Hk). cbn. split; [exact Ht|].
        exists (S k). cbn. rewrite Hk. reflexivity.
    + split; [reflexivity|]. exists 0. reflexivity.
Qed.

(** X8. Whatever the transport answers, streaming a reply never raises,
    and it attempts the [response_finished] marker exactly once, as the
    last thing it does: after a complete stream, after a chunk that failed,
    and even when the marker itself cannot be sent. *)
Theorem marker_always_attempted_last C B ws audio s :
  let '(r, _, tr) := stream_reply C B ws audio s in
  r = Ret tt /\
  exists ok,
    text_sends tr = [ESendText ws (json_dumps_event "response_finished") ok] /\
    last tr = Some (ESendText ws (json_dumps_event "response_finished") ok).
Proof.
  unfold stream_reply, bind.
  pose proof (send_chunks_any_transport C B ws audio
                (range 0 (length audio) C) 0 s) as Hc.
  destruct (send_chunks_frame C B ws audio (range 0 (length audio) C) 0 s)
    as (n & t1 & Hrun & _).
  rewrite Hrun in *. destruct Hc as (Ht & _).
  unfold try_except, send_text, send, ret.
  destruct (send_ok (sends (add_sends n s))); cbn.
  - split; [reflexivity|]. exists true.
    rewrite text_sends_app, Ht, last_snoc. split; reflexivity.
  - split; [reflexivity|]. exists false.
    rewrite ?app_nil_r. rewrite text_sends_app, Ht, last_snoc.
    split; reflexivity.
Qed.

(** X9. Whatever the transport answers, the chunks that got through are
    the first chunks of the reply, in order, so the bytes the device has
    received are a leading part of the reply audio: no chunk is skipped,
    repeated or sent out of order. *)
Theorem delivered_audio_is_prefix C B ws audio s :
  0 < C ->
  let '(_, _, tr) := stream_reply C B ws audio s in
  sent_chunks tr `prefix_of` reply_chunks C audio /\
  concat (sent_chunks tr) `prefix_of` audio.
Proof.
  intros HC. unfold stream_reply, bind.
  pose proof (send_chunks_any_transport C B ws audio
                (range 0 (length audio) C) 0 s) as Hc.
  destruct (send_chunks_frame C B ws audio (range 0 (length audio) C) 0 s)
    as (n & t1 & Hrun & _).
  rewrite Hrun in *. destruct Hc as (_ & k & Hk).
  assert (Hsent : forall tl, sent_chunks tl = [] ->
            sent_chunks (t1 ++ tl) = take k (reply_chunks C audio)).
  { intros tl Htl. rewrite sent_chunks_app, Htl, app_nil_r. exact Hk. }
  assert (Hall : concat (reply_chunks C audio) = audio).
  { unfold reply_chunks, range. rewrite range_slices_concat by lia.
    apply drop_0. }
  unfold try_except, send_text, send, ret.
  destruct (send_ok (sends (add_sends n s))); cbn; rewrite ?app_nil_r;
    rewrite Hsent by reflexivity.
  all: split;
    [exists (drop k (reply_chunks C audio)); symmetry; apply take_drop
    |exists (concat (drop k (reply_chunks C audio)));
     rewrite <- concat_app, take_drop; symmetry; exact Hall].
Qed.

(** The offsets of [range]: number [k] is [start + k * step], and it lies
    below [stop]. *)
Lemma range_from_lookup C fuel start stop k i :
  range_from fuel start stop C !! k = Some i ->
  i = start + k * C /\ i < stop.
Proof.
  revert start k. induction fuel as [|fuel IH]; intros start k H.
  - discriminate.
  - cbn [range_from] in H.
    destruct (Nat.ltb_spec start stop) as [Hlt|Hge]; [|discriminate].
    destruct k as [|k].
    + injection H as <-. lia.
    + apply IH in H. lia.
Qed.

(** X10. Chunk number [k] of a reply is the [C] bytes that start at offset
    [k * C], or as many as are left: it is never empty and never longer
    than [C], and only a chunk that reaches the end of the reply can be
    shorter than [C]. *)
Theorem reply_chunk_bounds C audio k chunk :
  0 < C ->
  reply_chunks C audio !! k = Some chunk ->
  chunk = take C (drop (k * C) audio) /\
  0 < length chunk <= C /\
  length chunk = Nat.min C (length audio - k * C).
Proof.
  intros HC Hk. unfold reply_chunks in Hk.
  apply map_lookup_Some in Hk as (i & Hi & ->).
  apply range_from_lookup in Hi as [-> Hlt].
  unfold slice. cbn [Nat.add].
  replace (k * C + C - k * C) with C by lia.
  split; [reflexivity|].
  rewrite length_take, length_drop. lia.
Qed.

(** ** A connection from its first message *)

(** X11. Every connection starts not recording, with an empty buffer,
    whatever [client_state] an earlier connection left behind; so the
    frames a device sends before its first [recording_started] are
    discarded: the handler behaves as if they had never been sent. *)
Theorem frames_before_first_recording_discarded ws cid c frames rest s :
  websocket_endpoint ws cid rest (set_client c s)
  = websocket_endpoint ws cid rest s /\
  websocket_endpoint ws cid (map binary_frame frames ++ rest) s
  = websocket_endpoint ws cid rest s.
Proof.
  split; [reflexivity|].
  rewrite !websocket_endpoint_run, receive_loop_app.
  rewrite frames_while_idle by reflexivity.
  destruct (receive_loop ws cid rest _) as [[r s1] t1]. reflexivity.
Qed.

(** ** The observer slot *)

(** X12. The last observer to register is the one that is served: when
    [old] registers and [new] registers after it, the next status marker
    of a session goes to [new] alone, and the slot still holds [new]
    afterwards. *)
Theorem last_registered_observer_is_served ws cid old new text s :
  is_status_signal text = true ->
  send_ok (sends s) = true ->
  let '(_, s1, _) := led_accept old s in
  let '(_, s2, _) := led_accept new s1 in
  let '(r, s3, tr) := handle_message ws cid (text_frame text) s2 in
  r = Continue /\
  send_attempts tr = [ESendText new text true] /\
  led_controller_connection s3 = Some new.
Proof.
  intros Ht Hok. cbn.
  unfold handle_message. cbn [msg_text text_frame].
  unfold is_status_signal in Ht. rewrite Ht.
  unfold bind, gets, ret, continue_, try_except, send_text, send, print, emit.
  cbn. rewrite Hok. cbn. repeat split.
Qed.

(** X13. With an observer registered and a transport that accepts the
    sends, a run of status markers reaches the observer as it came: one
    send for each marker, with the marker's own text, in the order of
    arrival; the session's state and the memory are untouched. *)
Theorem status_markers_forwarded_in_order ws cid led signals s :
  led_controller_connection s = Some led ->
  Forall (fun text => is_status_signal text = true) signals ->
  (forall k, k < length signals -> send_ok (sends s + k) = true) ->
  receive_loop ws cid (map text_frame signals) s
  = (Ret tt, add_sends (length signals) s,
     flat_map (fun text => [ESendText led text true; EPrint (LogForwarded text)])
       signals).
Proof.
  intros Hled Hsig. revert s Hled.
  induction Hsig as [|text signals Ht _ IH]; intros s Hled Hok.
  - cbn. rewrite add_sends_0. reflexivity.
  - cbn [map flat_map length]. rewrite receive_loop_cons.
    assert (H0 : send_ok (sends s) = true).
    { rewrite <- (Nat.add_0_r (sends s)). apply Hok. cbn. lia. }
    unfold handle_message. cbn [msg_text text_frame].
    unfold is_status_signal in Ht. rewrite Ht.
    unfold bind, gets, ret, continue_, try_except, send_text, send, print,
      emit.
    rewrite Hled. cbn. rewrite H0. cbn.
    rewrite (IH (bump_sends s)).
    + rewrite add_sends_bump. reflexivity.
    + exact Hled.
    + intros k Hk. cbn. replace (S (sends s + k)) with (sends s + S k) by lia.
      apply Hok. cbn. lia.
Qed.

(** ** The transcriber's answer *)

(** X14. [transcribe_audio_stream] asks the SDK once and changes nothing.
    It returns a sentence only when the SDK's result is there, carries
    [err_no] zero and a result list that is not empty, and the sentence is
    then the first of that list; a missing result, a missing or non-zero
    [err_no], a missing or empty result list all give the empty text and
    one error line on the log. *)
Theorem transcribe_audio_stream_outcome audio s :
  let '(r, s', tr) := transcribe_audio_stream audio s in
  s' = s /\ asr_calls tr = [audio] /\
  ((exists d text rest,
      speech_asr audio = Some d /\ err_no d = Some 0%Z /\
      result d = Some (text :: rest) /\
      r = Ret text /\ tr = [EAsr audio]) \/
   (r = Ret "" /\ tr = [EAsr audio; EPrint LogSttError] /\
    match speech_asr audio with
    | None => True
    | Some d =>
        err_no d <> Some 0%Z \/ result d = None \/ result d = Some []
    end)).
Proof.
  unfold transcribe_audio_stream, stt_first_result, bind, emit, print, ret.
  cbn.
  destruct (speech_asr audio) as [[e r]|]; cbn.
  2:{ repeat split. right. repeat split. }
  destruct e as [[| |]|]; cbn;
    try (repeat split; right; repeat split; left; congruence).
  destruct r as [[|text rest]|]; cbn.
  - repeat split. right. repeat split. right. right. reflexivity.
  - repeat split. left. exists {| err_no := Some 0%Z; result := Some (text :: rest) |}, text, rest.
    repeat split.
  - repeat split. right. repeat split. right. left. reflexivity.
Qed.

(** ** A turn in which everything succeeds *)

(** X15. When the transcriber hears something, the dialogue model
    answers, the synthesiser returns audio and the transport accepts every
    send, the device receives the whole synthesized audio, chunk after
    chunk, then the [response_finished] marker and nothing else; the turn
    ends normally, with the session not recording and its buffer as it
    was. *)
Theorem successful_turn_delivers_reply ws cid text s reply :
  is_event text "recording_ended" = true ->
  audio_buffer (client s) <> [] ->
  transcript (audio_buffer (client s)) <> "" ->
  llm (history_of s cid) (transcript (audio_buffer (client s))) = Some reply ->
  synthesized reply <> [] ->
  (forall k, k <= ceil_div (length (synthesized reply)) CHUNK_SIZE ->
     send_ok (sends s + k) = true) ->
  let '(r, s', tr) := handle_message ws cid (text_frame text) s in
  r = Ret tt /\
  client s' = client (set_is_recording false s) /\
  concat (sent_chunks tr) = synthesized reply /\
  send_attempts tr
  = map (fun chunk => ESendBytes ws chunk true)
        (reply_chunks CHUNK_SIZE (synthesized reply))
    ++ [ESendText ws (json_dumps_event "response_finished") true] /\
  last tr = Some (EPrint LogTurnFinished).
Proof.
  intros Hev Hbuf Htxt Hllm Hsyn Hok.
  run_turn Hev Hbuf.
  apply String.eqb_neq in Htxt. rewrite Htxt, Hllm.
  destruct (Nat.eqb (length (synthesized reply)) 0) eqn:Elen.
  { apply Nat.eqb_eq in Elen. destruct (synthesized reply); [congruence|].
    discriminate. }
  set (s2 := set_redis _ _).
  rewrite (stream_reply_all_ok CHUNK_SIZE BURST_SIZE ws (synthesized reply) s2)
    by (unfold CHUNK_SIZE; lia || exact Hok).
  fold (reply_chunks CHUNK_SIZE (synthesized reply)).
  assert (Hall : concat (reply_chunks CHUNK_SIZE (synthesized reply))
                 = synthesized reply).
  { unfold reply_chunks, range.
    rewrite range_slices_concat by (unfold CHUNK_SIZE; lia). apply drop_0. }
  repeat split.
  - rewrite !sent_chunks_app, sent_chunks_asr_trace, sent_chunks_tts_trace.
    rewrite sent_chunks_chunk_trace_all. cbn. rewrite ?app_nil_r. exact Hall.
  - rewrite !send_attempts_app, send_attempts_asr_trace,
      send_attempts_tts_trace.
    rewrite send_attempts_chunk_trace_all. cbn. rewrite ?app_nil_r.
    reflexivity.
  - rewrite !app_assoc. apply last_snoc.
Qed.

End Handlers.

(** ** Closed instances *)

Local Abbreviation sample_handle send_ok :=
  (handle_message sample_json_loads sample_asr sample_synthesis sample_llm
     send_ok).

Local Abbreviation sample_endpoint send_ok :=
  (websocket_endpoint sample_json_loads sample_asr sample_synthesis sample_llm
     send_ok).

(** C1 at work: the device ends a recording in which no frame arrived. *)
Lemma recording_ended_empty_buffer_witness :
  is_event sample_json_loads (json_dumps_event "recording_ended")
    "recording_ended" = true /\
  audio_buffer (client (recording [])) = [] /\
  let '(r, s', tr) :=
    sample_handle all_sends_ok 1 "esp32" (event_frame "recording_ended")
      (recording []) in
  r = Continue /\
  state_of (client s') = Idle /\
  audio_buffer (client s') = [] /\
  redis s' = redis (recording []) /\
  pipeline_calls tr = [] /\
  send_attempts tr = [] /\
  tr = [EPrint LogRecordingEnded; EPrint LogBufferEmpty].
Proof.
  split; [reflexivity|]. split; [reflexivity|].
  apply (recording_ended_empty_buffer_skips_pipeline
           sample_json_loads sample_asr sample_synthesis sample_llm
           all_sends_ok 1 "esp32" (json_dumps_event "recording_ended")
           (recording [])); reflexivity.
Defined.

(** C2 at work: of three frames, the one sent before [recording_started]
    and the one sent after [recording_cancelled] are dropped. *)
Example frames_outside_recording_dropped :
  let '(_, s, _) :=
    sample_endpoint all_sends_ok 1 "esp32"
      [binary_frame [x01]; event_frame "recording_started";
       binary_frame [x02; x03]; binary_frame [x04];
       event_frame "recording_cancelled"; binary_frame [x05];
       event_frame "recording_started"; binary_frame [x06]] fresh in
  client s = {| is_recording := true; audio_buffer := [x06] |}.
Proof. reflexivity. Qed.

(** C3 at work: a first turn on an empty history. *)
Lemma completed_turn_witness :
  let s := recording [x01] in
  is_event sample_json_loads (json_dumps_event "recording_ended")
    "recording_ended" = true /\
  audio_buffer (client s) <> [] /\
  transcript sample_asr (audio_buffer (client s)) <> "" /\
  sample_llm (history_of s "esp32")
    (transcript sample_asr (audio_buffer (client s))) = Some "first reply" /\
  let pair := [Human (transcript sample_asr (audio_buffer (client s)));
               Ai "first reply"] in
  let '(r, s', tr) :=
    sample_handle all_sends_ok 1 "esp32" (event_frame "recording_ended") s in
  r = (if Nat.eqb (length (synthesized sample_synthesis "first reply")) 0
       then Continue else Ret tt) /\
  memory_appends tr = [ERedisAppend "esp32" pair] /\
  history_of s' "esp32" = history_of s "esp32" ++ pair /\
  length (history_of s' "esp32") = length (history_of s "esp32") + 2 /\
  (forall other, other <> "esp32" -> history_of s' other = history_of s other).
Proof.
  cbv zeta.
  assert (H1 : audio_buffer (client (recording [x01])) <> []) by discriminate.
  assert (H2 : transcript sample_asr (audio_buffer (client (recording [x01])))
               <> "") by discriminate.
  split; [reflexivity|]. split; [exact H1|]. split; [exact H2|].
  split; [reflexivity|].
  exact (completed_turn_appends_one_pair
           sample_json_loads sample_asr sample_synthesis sample_llm
           all_sends_ok 1 "esp32" (json_dumps_event "recording_ended")
           (recording [x01]) "first reply" eq_refl H1 H2 eq_refl).
Defined.

(** C4 at work: the dialogue model answers [mute], which the sample
    synthesiser cannot speak; the pair is in the store all the same. *)
Lemma memory_append_precedes_synthesis_witness :
  let s := recording [x01] in
  is_event sample_json_loads (json_dumps_event "recording_ended")
    "recording_ended" = true /\
  audio_buffer (client s) <> [] /\
  transcript sample_asr (audio_buffer (client s)) <> "" /\
  mute_llm (history_of s "esp32")
    (transcript sample_asr (audio_buffer (client s))) = Some "mute" /\
  let '(r, s', tr) :=
    handle_message sample_json_loads sample_asr sample_synthesis mute_llm
      all_sends_ok 1 "esp32" (event_frame "recording_ended") s in
  pipeline_calls tr
  = [EAsr [x01]; ERedisLoad "esp32"; ELlm [] "ni hao";
     ERedisAppend "esp32" [Human "ni hao"; Ai "mute"]; ETts "mute"] /\
  history_of s' "esp32" = [Human "ni hao"; Ai "mute"] /\
  r = Continue /\ send_attempts tr = [] /\
  last tr = Some (EPrint LogTtsFailed).
Proof.
  cbv zeta.
  assert (H1 : audio_buffer (client (recording [x01])) <> []) by discriminate.
  assert (H2 : transcript sample_asr (audio_buffer (client (recording [x01])))
               <> "") by discriminate.
  split; [reflexivity|]. split; [exact H1|]. split; [exact H2|].
  split; [reflexivity|].
  exact (memory_append_precedes_synthesis
           sample_json_loads sample_asr sample_synthesis mute_llm
           all_sends_ok 1 "esp32" (json_dumps_event "recording_ended")
           (recording [x01]) "mute" eq_refl H1 H2 eq_refl).
Defined.

(** C5 at work: the recogniser reports error 3301 on the recording; a
    wake word that follows is still served. *)
Lemma asr_failure_witness :
  let s := recording [x00; x01] in
  is_event sample_json_loads (json_dumps_event "recording_ended")
    "recording_ended" = true /\
  audio_buffer (client s) <> [] /\
  transcript sample_asr (audio_buffer (client s)) = "" /\
  let '(r, s', tr) :=
    sample_handle all_sends_ok 1 "esp32" (event_frame "recording_ended") s in
  r = Continue /\
  s' = set_is_recording false s /\
  redis s' = redis s /\
  pipeline_calls tr = [EAsr [x00; x01]] /\
  memory_appends tr = [] /\
  send_attempts tr = [] /\
  last tr = Some (EPrint LogAsrFailed) /\
  receive_loop sample_json_loads sample_asr sample_synthesis sample_llm
    all_sends_ok 1 "esp32"
    [event_frame "recording_ended"; event_frame "wake_word_detected"] s
  = (Ret tt, s', tr ++ [EPrint LogWakeWord]).
Proof.
  cbv zeta.
  assert (H1 : audio_buffer (client (recording [x00; x01])) <> [])
    by discriminate.
  split; [reflexivity|]. split; [exact H1|]. split; [reflexivity|].
  exact (asr_failure_aborts_turn
           sample_json_loads sample_asr sample_synthesis sample_llm
           all_sends_ok 1 "esp32" (json_dumps_event "recording_ended")
           (recording [x00; x01]) [event_frame "wake_word_detected"]
           eq_refl H1 eq_refl).
Defined.

(** C6 at work: a reply of 10,000 bytes in chunks of 1024 bytes goes out
    as ten chunks, the last of 784 bytes, with one yield after the eighth,
    and the marker is sent after the tenth. *)
Lemma stream_reply_witness :
  let audio := repeat x2a (100 * 100) in
  0 < CHUNK_SIZE /\ 0 < BURST_SIZE /\
  (forall k, k <= ceil_div (length audio) CHUNK_SIZE ->
     all_sends_ok (sends fresh + k) = true) /\
  (let n := ceil_div (length audio) CHUNK_SIZE in
   let '(r, s', tr) :=
     stream_reply all_sends_ok CHUNK_SIZE BURST_SIZE 1 audio fresh in
   r = Ret tt /\
   length (sent_chunks tr) = n /\
   concat (sent_chunks tr) = audio /\
   burst_sizes 0 tr = (repeat BURST_SIZE (n / BURST_SIZE), n mod BURST_SIZE) /\
   send_attempts tr
   = map (fun chunk => ESendBytes 1 chunk true) (sent_chunks tr)
     ++ [ESendText 1 (json_dumps_event "response_finished") true]) /\
  (let '(_, _, tr) :=
     stream_reply all_sends_ok CHUNK_SIZE BURST_SIZE 1 audio fresh in
   map length (sent_chunks tr) = repeat 1024 9 ++ [784] /\
   burst_sizes 0 tr = ([8], 2) /\
   last tr = Some (ESendText 1 (json_dumps_event "response_finished") true)).
Proof.
  cbv zeta.
  split; [unfold CHUNK_SIZE; lia|]. split; [unfold BURST_SIZE; lia|].
  split; [intros k _; reflexivity|].
  split.
  - apply (stream_reply_chunks_and_marker all_sends_ok CHUNK_SIZE BURST_SIZE 1
             (repeat x2a (100 * 100)) fresh).
    + unfold CHUNK_SIZE. lia.
    + unfold BURST_SIZE. lia.
    + intros k _. reflexivity.
  - vm_compute. repeat split.
Defined.

(** C7 at work: a reply of 3000 bytes makes three chunks; the send of the
    second one fails. One chunk went out, the third is never tried, and the
    marker is attempted, here with success. *)
Lemma chunk_send_failure_witness :
  let s := recording [x01] in
  is_event sample_json_loads (json_dumps_event "recording_ended")
    "recording_ended" = true /\
  audio_buffer (client s) <> [] /\
  transcript sample_asr (audio_buffer (client s)) <> "" /\
  sample_llm (history_of s "esp32")
    (transcript sample_asr (audio_buffer (client s))) = Some "first reply" /\
  reply_chunks CHUNK_SIZE (synthesized sample_synthesis "first reply") !! 1
  = Some (repeat x2a 1024) /\
  (forall j, j < 1 -> send_fails_at 1 (sends s + j) = true) /\
  send_fails_at 1 (sends s + 1) = false /\
  let '(r, s', tr) :=
    sample_handle (send_fails_at 1) 1 "esp32"
      (event_frame "recording_ended") s in
  r = Ret tt /\
  client s' = client (set_is_recording false s) /\
  sent_chunks tr
  = take 1 (reply_chunks CHUNK_SIZE (synthesized sample_synthesis "first reply")) /\
  send_attempts tr
  = map (fun c => ESendBytes 1 c true)
        (take 1 (reply_chunks CHUNK_SIZE
                   (synthesized sample_synthesis "first reply")))
    ++ [ESendBytes 1 (repeat x2a 1024) false;
        ESendText 1 (json_dumps_event "response_finished")
          (send_fails_at 1 (sends s + 2))] /\
  In (EPrint LogSendDisconnected) tr /\
  receive_loop sample_json_loads sample_asr sample_synthesis sample_llm
    (send_fails_at 1) 1 "esp32" [event_frame "recording_ended"] s
  = (let '(r2, s2, t2) :=
       receive_loop sample_json_loads sample_asr sample_synthesis sample_llm
         (send_fails_at 1) 1 "esp32" [] s' in
     (r2, s2, tr ++ t2)).
Proof.
  cbv zeta.
  assert (H1 : audio_buffer (client (recording [x01])) <> []) by discriminate.
  assert (H2 : transcript sample_asr (audio_buffer (client (recording [x01])))
               <> "") by discriminate.
  assert (H3 : forall j, j < 1 ->
                 send_fails_at 1 (sends (recording [x01]) + j) = true).
  { intros j Hj. destruct j; [reflexivity|lia]. }
  split; [reflexivity|]. split; [exact H1|]. split; [exact H2|].
  split; [reflexivity|]. split; [reflexivity|]. split; [exact H3|].
  split; [reflexivity|].
  exact (chunk_send_failure_stops_stream
           sample_json_loads sample_asr sample_synthesis sample_llm
           (send_fails_at 1) 1 "esp32" (json_dumps_event "recording_ended")
           (recording [x01]) "first reply" 1 (repeat x2a 1024) []
           eq_refl H1 H2 eq_refl eq_refl H3 eq_refl).
Defined.

(** C7 as the spec words it does not hold: a chunk send that fails is not
    taken as the end of the session. Every send from the second chunk on
    fails here; the handler still tries the marker after the failed chunk,
    finishes the turn, and serves the wake word that follows. It is still
    waiting in [receive()] at the end, and the socket was never closed. *)
Lemma send_failure_is_not_a_disconnect :
  let '(r, s', tr) :=
    sample_endpoint (sends_fail_from 1) 1 "esp32"
      [event_frame "recording_started"; binary_frame [x01];
       event_frame "recording_ended"; event_frame "wake_word_detected"]
      fresh in
  r = Ret true /\
  send_attempts tr
  = [ESendBytes 1 (repeat x2a 1024) true;
     ESendBytes 1 (repeat x2a 1024) false;
     ESendText 1 (json_dumps_event "response_finished") false] /\
  existsb (fun e => match e with EClose _ => true | _ => false end) tr
  = false /\
  last tr = Some (EPrint LogWakeWord) /\
  state_of (client s') = Idle /\
  history_of s' "esp32" = [Human "ni hao"; Ai "first reply"].
Proof. vm_compute. repeat split. Qed.

(** C8 at work: an event the handler has no branch for. *)
Lemma unrecognised_event_witness :
  is_unrecognised_event sample_json_loads (json_dumps_event "volume_up")
  = true /\
  sample_handle all_sends_ok 1 "esp32" (event_frame "volume_up")
    (recording [x01])
  = (Ret tt, recording [x01], []) /\
  receive_loop sample_json_loads sample_asr sample_synthesis sample_llm
    all_sends_ok 1 "esp32"
    [event_frame "volume_up"; binary_frame [x02]] (recording [x01])
  = receive_loop sample_json_loads sample_asr sample_synthesis sample_llm
      all_sends_ok 1 "esp32" [binary_frame [x02]] (recording [x01]).
Proof.
  split; [reflexivity|].
  exact (unrecognised_event_ignored
           sample_json_loads sample_asr sample_synthesis sample_llm
           all_sends_ok 1 "esp32" (json_dumps_event "volume_up")
           (recording [x01]) [binary_frame [x02]] eq_refl).
Defined.

(** C8 as the spec words it does not hold, on three counts. A
    [recording_ended] that arrives while the session is [Idle] is not
    ignored: after one complete turn a second [recording_ended] runs the
    pipeline again on the bytes left in the buffer and writes a second pair
    to the memory. A payload that does not decode, and one that decodes to
    something other than an object, raise in the handler, which prints the
    error, closes the socket and returns. And an event without a branch is
    ignored without a line on the log. *)
Lemma protocol_errors_not_all_ignored :
  (let '(r, s1, _) :=
     sample_endpoint all_sends_ok 1 "esp32"
       [event_frame "recording_started"; binary_frame [x01];
        event_frame "recording_ended"] fresh in
   let '(r2, s2, tr2) :=
     sample_handle all_sends_ok 1 "esp32" (event_frame "recording_ended") s1 in
   r = Ret true /\ state_of (client s1) = Idle /\
   history_of s1 "esp32" = [Human "ni hao"; Ai "first reply"] /\
   pipeline_calls tr2
   = [EAsr [x01]; ERedisLoad "esp32";
      ELlm [Human "ni hao"; Ai "first reply"] "ni hao";
      ERedisAppend "esp32" [Human "ni hao"; Ai "later reply"];
      ETts "later reply"] /\
   history_of s2 "esp32"
   = [Human "ni hao"; Ai "first reply"; Human "ni hao"; Ai "later reply"]) /\
  (let '(r, _, tr) :=
     sample_endpoint all_sends_ok 1 "esp32" [text_frame "{"] fresh in
   r = Ret false /\
   tr = [EAccept 1; EPrint LogClientConnected; EPrint LogUnknownError;
         EClose 1; EPrint LogForcedClose]) /\
  (let '(r, _, tr) :=
     sample_endpoint all_sends_ok 1 "esp32" [text_frame "7"] fresh in
   r = Ret false /\
   tr = [EAccept 1; EPrint LogClientConnected; EPrint LogUnknownError;
         EClose 1; EPrint LogForcedClose]) /\
  (let '(_, _, tr) :=
     sample_handle all_sends_ok 1 "esp32" (event_frame "volume_up") fresh in
   tr = []).
Proof. vm_compute. repeat split. Qed.

(** C9 at work: the observer 7 is registered and the send to it fails. *)
Lemma status_signal_witness :
  is_status_signal "1" = true /\
  let '(r, s', tr) :=
    sample_handle (send_fails_at 0) 1 "esp32" (text_frame "1") (observed 7) in
  r = Continue /\ client s' = client (observed 7) /\
  redis s' = redis (observed 7) /\
  led_controller_connection s' = None /\
  tr = [ESendText 7 "1" false; EPrint LogForwardFailed] /\
  forall signals,
    Forall (fun text => is_status_signal text = true) signals ->
    receive_loop sample_json_loads sample_asr sample_synthesis sample_llm
      (send_fails_at 0) 1 "esp32" (map text_frame signals) s'
    = (Ret tt, s', []).
Proof.
  split; [reflexivity|].
  exact (status_signal_forwarded_or_dropped
           sample_json_loads sample_asr sample_synthesis sample_llm
           (send_fails_at 0) 1 "esp32" "1" (observed 7) eq_refl).
Defined.

(** C9 at work: with the observer 7 registered and a transport that
    accepts the send, the signal reaches the observer as it came. *)
Example status_signal_forwarded :
  sample_handle all_sends_ok 1 "esp32" (text_frame "0") (observed 7)
  = (Continue, bump_sends (observed 7),
     [ESendText 7 "0" true; EPrint (LogForwarded "0")]).
Proof. reflexivity. Qed.

(** ** Further closed instances *)

(** A dialogue model that is out of reach: every call raises. *)
Definition failing_llm (history : list turn) (question : string) : option string :=
  None.

(** X1 at work: three frames between [recording_started] and
    [recording_ended], on a session that still held audio. *)
Lemma recorded_frames_witness :
  is_event sample_json_loads (json_dumps_event "recording_started")
    "recording_started" = true /\
  is_event sample_json_loads (json_dumps_event "recording_ended")
    "recording_ended" = true /\
  concat [[x01]; [x02; x03]; [x04]] <> [] /\
  let '(_, _, tr) :=
    receive_loop sample_json_loads sample_asr sample_synthesis sample_llm
      all_sends_ok 1 "esp32"
      (text_frame (json_dumps_event "recording_started")
         :: map binary_frame [[x01]; [x02; x03]; [x04]]
         ++ [text_frame (json_dumps_event "recording_ended")])
      (recording [x09]) in
  asr_calls tr = [[x01; x02; x03; x04]].
Proof.
  assert (H : concat [[x01]; [x02; x03]; [x04]] <> []) by discriminate.
  split; [reflexivity|]. split; [reflexivity|]. split; [exact H|].
  exact (recorded_frames_reach_transcriber
           sample_json_loads sample_asr sample_synthesis sample_llm
           all_sends_ok 1 "esp32" (json_dumps_event "recording_started")
           (json_dumps_event "recording_ended") [[x01]; [x02; x03]; [x04]]
           (recording [x09]) eq_refl eq_refl H).
Defined.

(** X2 at work: a recording is cancelled, two frames straggle in, and a
    stray [recording_ended] follows. *)
Lemma cancelled_recording_witness :
  is_event sample_json_loads (json_dumps_event "recording_cancelled")
    "recording_cancelled" = true /\
  is_event sample_json_loads (json_dumps_event "recording_ended")
    "recording_ended" = true /\
  receive_loop sample_json_loads sample_asr sample_synthesis sample_llm
    all_sends_ok 1 "esp32"
    (text_frame (json_dumps_event "recording_cancelled")
       :: map binary_frame [[x01]; [x02]]
       ++ [text_frame (json_dumps_event "recording_ended")])
    (recording [x09])
  = (Ret tt, fresh,
     [EPrint LogRecordingCancelled; EPrint LogRecordingEnded;
      EPrint LogBufferEmpty]).
Proof.
  split; [reflexivity|]. split; [reflexivity|].
  exact (cancelled_recording_never_processed
           sample_json_loads sample_asr sample_synthesis sample_llm
           all_sends_ok 1 "esp32" (json_dumps_event "recording_cancelled")
           (json_dumps_event "recording_ended") [[x01]; [x02]]
           (recording [x09]) eq_refl eq_refl).
Defined.


(** X4 at work: the dialogue model cannot be reached. *)
Lemma dialogue_failure_witness :
  let s := recording [x01] in
  is_event sample_json_loads (json_dumps_event "recording_ended")
    "recording_ended" = true /\
  audio_buffer (client s) <> [] /\
  transcript sample_asr (audio_buffer (client s)) <> "" /\
  failing_llm (history_of s "esp32")
    (transcript sample_asr (audio_buffer (client s))) = None /\
  let '(r, s', tr) :=
    receive_loop sample_json_loads sample_asr sample_synthesis failing_llm
      all_sends_ok 1 "esp32"
      [event_frame "recording_ended"; event_frame "wake_word_detected"] s in
  r = Raise LLMError /\
  s' = set_is_recording false s /\
  pipeline_calls tr = [EAsr [x01]; ERedisLoad "esp32"; ELlm [] "ni hao"] /\
  send_attempts tr = [].
Proof.
  cbv zeta.
  assert (H1 : audio_buffer (client (recording [x01])) <> []) by discriminate.
  assert (H2 : transcript sample_asr (audio_buffer (client (recording [x01])))
               <> "") by discriminate.
  split; [reflexivity|]. split; [exact H1|]. split; [exact H2|].
  split; [reflexivity|].
  exact (dialogue_failure_leaves_loop
           sample_json_loads sample_asr sample_synthesis failing_llm
           all_sends_ok 1 "esp32" (json_dumps_event "recording_ended")
           [event_frame "wake_word_detected"] (recording [x01])
           eq_refl H1 H2 eq_refl).
Defined.

(** X7 at work: a [recording_started] in the middle of a recording. *)
Lemma non_turn_message_witness :
  starts_turn sample_json_loads (event_frame "recording_started")
    (recording [x01]) = false /\
  let '(_, s', tr) :=
    sample_handle all_sends_ok 1 "esp32" (event_frame "recording_started")
      (recording [x01]) in
  pipeline_calls tr = [] /\
  redis s' = redis (recording [x01]) /\
  sent_chunks tr = [] /\
  send_attempts tr = [].
Proof.
  split; [reflexivity|].
  exact (only_recording_ended_with_audio_runs_pipeline
           sample_json_loads sample_asr sample_synthesis sample_llm
           all_sends_ok 1 "esp32" (event_frame "recording_started")
           (recording [x01]) eq_refl).
Defined.

(** X9 at work: the third send fails on a reply of 3000 bytes: 2048 bytes
    arrived. *)
Lemma delivered_prefix_witness :
  0 < CHUNK_SIZE /\
  (let '(_, _, tr) :=
     stream_reply (send_fails_at 2) CHUNK_SIZE BURST_SIZE 1
       (repeat x2a 3000) fresh in
   sent_chunks tr `prefix_of` reply_chunks CHUNK_SIZE (repeat x2a 3000) /\
   concat (sent_chunks tr) `prefix_of` repeat x2a 3000) /\
  (let '(_, _, tr) :=
     stream_reply (send_fails_at 2) CHUNK_SIZE BURST_SIZE 1
       (repeat x2a 3000) fresh in
   length (concat (sent_chunks tr)) = 2048).
Proof.
  assert (H : 0 < CHUNK_SIZE) by (unfold CHUNK_SIZE; lia).
  split; [exact H|]. split.
  - exact (delivered_audio_is_prefix (send_fails_at 2) CHUNK_SIZE BURST_SIZE 1
             (repeat x2a 3000) fresh H).
  - vm_compute. reflexivity.
Defined.

(** X10 at work: the last chunk of a reply of 3000 bytes has 952 bytes. *)
Lemma reply_chunk_bounds_witness :
  0 < CHUNK_SIZE /\
  reply_chunks CHUNK_SIZE (repeat x2a 3000) !! 2 = Some (repeat x2a 952) /\
  repeat x2a 952 = take CHUNK_SIZE (drop (2 * CHUNK_SIZE) (repeat x2a 3000)) /\
  0 < length (repeat x2a 952) <= CHUNK_SIZE /\
  length (repeat x2a 952)
  = Nat.min CHUNK_SIZE (length (repeat x2a 3000) - 2 * CHUNK_SIZE).
Proof.
  assert (H : 0 < CHUNK_SIZE) by (unfold CHUNK_SIZE; lia).
  assert (Hk : reply_chunks CHUNK_SIZE (repeat x2a 3000) !! 2
               = Some (repeat x2a 952)) by (vm_compute; reflexivity).
  split; [exact H|]. split; [exact Hk|].
  exact (reply_chunk_bounds CHUNK_SIZE (repeat x2a 3000) 2 (repeat x2a 952)
           H Hk).
Defined.

(** X12 at work: observer 7 registers, then observer 8. *)
Lemma last_registered_observer_witness :
  is_status_signal "1" = true /\
  all_sends_ok (sends fresh) = true /\
  let '(_, s1, _) := led_accept 7 fresh in
  let '(_, s2, _) := led_accept 8 s1 in
  let '(r, s3, tr) :=
    sample_handle all_sends_ok 1 "esp32" (text_frame "1") s2 in
  r = Continue /\
  send_attempts tr = [ESendText 8 "1" true] /\
  led_controller_connection s3 = Some 8.
Proof.
  split; [reflexivity|]. split; [reflexivity|].
  exact (last_registered_observer_is_served
           sample_json_loads sample_asr sample_synthesis sample_llm
           all_sends_ok 1 "esp32" 7 8 "1" fresh eq_refl eq_refl).
Defined.

(** X13 at work: speaking starts, stops and starts again. *)
Lemma status_markers_in_order_witness :
  led_controller_connection (observed 7) = Some 7 /\
  Forall (fun text => is_status_signal text = true) ["1"; "0"; "1"] /\
  (forall k, k < length ["1"; "0"; "1"] ->
     all_sends_ok (sends (observed 7) + k) = true) /\
  receive_loop sample_json_loads sample_asr sample_synthesis sample_llm
    all_sends_ok 1 "esp32" (map text_frame ["1"; "0"; "1"]) (observed 7)
  = (Ret tt, add_sends 3 (observed 7),
     [ESendText 7 "1" true; EPrint (LogForwarded "1");
      ESendText 7 "0" true; EPrint (LogForwarded "0");
      ESendText 7 "1" true; EPrint (LogForwarded "1")]).
Proof.
  assert (H : Forall (fun text => is_status_signal text = true)
                ["1"; "0"; "1"]) by (repeat constructor).
  split; [reflexivity|]. split; [exact H|].
  split; [intros k _; reflexivity|].
  exact (status_markers_forwarded_in_order
           sample_json_loads sample_asr sample_synthesis sample_llm
           all_sends_ok 1 "esp32" 7 ["1"; "0"; "1"] (observed 7)
           eq_refl H (fun k _ => eq_refl)).
Defined.

(** X15 at work: a turn on the sample collaborators: 3000 bytes of reply
    go out as three chunks and the marker. *)
Lemma successful_turn_witness :
  let s := recording [x01] in
  is_event sample_json_loads (json_dumps_event "recording_ended")
    "recording_ended" = true /\
  audio_buffer (client s) <> [] /\
  transcript sample_asr (audio_buffer (client s)) <> "" /\
  sample_llm (history_of s "esp32")
    (transcript sample_asr (audio_buffer (client s))) = Some "first reply" /\
  synthesized sample_synthesis "first reply" <> [] /\
  (forall k,
     k <= ceil_div (length (synthesized sample_synthesis "first reply"))
            CHUNK_SIZE ->
     all_sends_ok (sends s + k) = true) /\
  let '(r, s', tr) :=
    sample_handle all_sends_ok 1 "esp32" (event_frame "recording_ended") s in
  r = Ret tt /\
  client s' = client (set_is_recording false s) /\
  concat (sent_chunks tr) = synthesized sample_synthesis "first reply" /\
  send_attempts tr
  = map (fun chunk => ESendBytes 1 chunk true)
        (reply_chunks CHUNK_SIZE (synthesized sample_synthesis "first reply"))
    ++ [ESendText 1 (json_dumps_event "response_finished") true] /\
  last tr = Some (EPrint LogTurnFinished).
Proof.
  cbv zeta.
  assert (H1 : audio_buffer (client (recording [x01])) <> []) by discriminate.
  assert (H2 : transcript sample_asr (audio_buffer (client (recording [x01])))
               <> "") by discriminate.
  assert (H3 : synthesized sample_synthesis "first reply" <> [])
    by discriminate.
  split; [reflexivity|]. split; [exact H1|]. split; [exact H2|].
  split; [reflexivity|]. split; [exact H3|].
  split; [intros k _; reflexivity|].
  exact (successful_turn_delivers_reply
           sample_json_loads sample_asr sample_synthesis sample_llm
           all_sends_ok 1 "esp32" (json_dumps_event "recording_ended")
           (recording [x01]) "first reply" eq_refl H1 H2 eq_refl H3
           (fun k _ => eq_refl)).
Defined.

(** X16 at work: a frame comes in while the turn is processed. *)
Lemma queued_frame_witness :
  is_event sample_json_loads (json_dumps_event "recording_ended")
    "recording_ended" = true /\
  let '(_, s', _) :=
    receive_loop sample_json_loads sample_asr sample_synthesis sample_llm
      all_sends_ok 1 "esp32"
      [text_frame (json_dumps_event "recording_ended"); binary_frame [x07]]
      (recording [x01]) in
  state_of (client s') = Idle /\
  audio_buffer (client s') = audio_buffer (client (recording [x01])).
Proof.
  split; [reflexivity|].
  exact (frame_queued_behind_recording_ended_dropped
           sample_json_loads sample_asr sample_synthesis sample_llm
           all_sends_ok 1 "esp32" (json_dumps_event "recording_ended")
           [x07] (recording [x01]) eq_refl).
Defined.

(** * The audio recorder of [simple_server.py]

    The [AudioReceiver] class and the WebSocket handler of
    [src/simple_server.py], which saves what a device records as WAV files.
    The handlers of the other servers have their own state and effects, so
    the monad is stated once more over any state, effect and exception. *)

(** How a statement ends: with a value, on a [continue], or on an
    exception. *)
Inductive outcome (X A : Type) :=
| Done (a : A)
| Skip
| Fail (e : X).
Arguments Done {X A} a.
Arguments Skip {X A}.
Arguments Fail {X A} e.

Section Generic.

Context {S E X : Type}.

Definition G (A : Type) : Type := S -> outcome X A * S * list E.

Definition gret {A} (a : A) : G A := fun s => (Done a, s, []).

Definition gbind {A B} (m : G A) (k : A -> G B) : G B := fun s =>
  match m s with
  | (Done a, s1, t1) => let '(r, s2, t2) := k a s1 in (r, s2, t1 ++ t2)
  | (Skip, s1, t1) => (Skip, s1, t1)
  | (Fail e, s1, t1) => (Fail e, s1, t1)
  end.

Definition gemit (e : E) : G unit := fun s => (Done tt, s, [e]).
Definition graise {A} (e : X) : G A := fun s => (Fail e, s, []).
Definition ggets {A} (f : S -> A) : G A := fun s => (Done (f s), s, []).
Definition gmodify (f : S -> S) : G unit := fun s => (Done tt, f s, []).

(** [try: m  except Exception: h]. *)
Definition gtry {A} (m : G A) (h : X -> G A) : G A := fun s =>
  match m s with
  | (Fail e, s1, t1) => let '(r, s2, t2) := h e s1 in (r, s2, t1 ++ t2)
  | other => other
  end.

End Generic.

Notation "'run' x <- m ; k" := (gbind m (fun x => k))
  (at level 10, x name, m at level 100, k at level 200).

(** [', '.join] of the [key: value] items of a flat dict of strings, and
    [json.dumps] of such a dict; no text that goes through here holds a
    character that [json.dumps] would escape. *)
Fixpoint json_items (fields : list (string * string)) : string :=
  match fields with
  | [] => ""
  | [(k, v)] => json_quote k +:+ ": " +:+ json_quote v
  | (k, v) :: rest =>
      json_quote k +:+ ": " +:+ json_quote v +:+ ", " +:+ json_items rest
  end.

Definition json_dumps_dict (fields : list (string * string)) : string :=
  "{" +:+ json_items fields +:+ "}".

Module SimpleServer.

(** The fields of an [AudioReceiver] that change; the format fields are
    the constants below. *)
Record receiver := {
  is_recording : bool;
  audio_buffer : bytes
}.

Definition sample_rate : nat := 16 * 1000.
Definition channels : nat := 1.
Definition sample_width : nat := 2.

(** A WAV file as [wave] writes it: the name, the three format parameters
    and the frames. *)
Record wav_file := {
  wav_name : string;
  wav_channels : nat;
  wav_sampwidth : nat;
  wav_framerate : nat;
  wav_frames : bytes
}.

(** The module-level [audio_receiver], the files saved so far (oldest
    first), and how many timestamps, file writes and socket sends there
    have been, which index the answers of the clock, the file system and
    the transport. *)
Record world := {
  audio_receiver : receiver;
  files : list wav_file;
  stamps : nat;
  writes : nat;
  sends : nat
}.

Inductive log_line :=
| LogStartReceiving
| LogNoAudio
| LogFileSaved (filename : string) (file_size : nat)
| LogSaveFailed
| LogClientConnected
| LogReceiveError
| LogRecordingStartedEvent
| LogRecordingEndedEvent
| LogOtherEvent (event : option json)
| LogJsonError
| LogTextError
| LogProgress (total_size : nat)
| LogClientDisconnected
| LogSavingOnDisconnect
| LogConnectionError
| LogConnectionDone.

Inductive effect :=
| EAccept (ws : conn)
| EPrint (l : log_line)
| EWriteWav (file : wav_file) (ok : bool)
| ESendText (to : conn) (text : string) (ok : bool).

(** The exceptions that reach the handler. *)
Inductive error :=
| JSONDecodeError
| AttributeError
| OSError
| SendError
| WebSocketDisconnect.

(** The statements of this server. *)
Local Abbreviation M := (@G world effect error).

(** What [await websocket.receive()] does: it returns a message or
    raises. *)
Inductive incoming :=
| Received (m : message)
| ReceiveFailed.

Definition set_receiver (r : receiver) (w : world) : world :=
  {| audio_receiver := r; files := files w; stamps := stamps w;
     writes := writes w; sends := sends w |}.

Section Handlers.

(** [json_loads] is [json.loads]; [now n] is the text
    [datetime.now().strftime(..)] gives when asked for the [n]-th time;
    [write_ok n] and [send_ok n] tell whether the [n]-th file write and the
    [n]-th socket send succeed. *)
Variable json_loads : string -> option json.
Variable now : nat -> string.
Variable write_ok : nat -> bool.
Variable send_ok : nat -> bool.

Definition print (l : log_line) : M unit := gemit (EPrint l).

Definition start_recording : M unit :=
  run _ <- gmodify (set_receiver {| is_recording := true; audio_buffer := [] |});
  print LogStartReceiving.

Definition add_audio_data (data : bytes) : M unit :=
  run r <- ggets audio_receiver;
  if is_recording r
  then gmodify (set_receiver
         {| is_recording := true; audio_buffer := audio_buffer r ++ data |})
  else gret tt.

(** [with wave.open(filename, 'wb') as wav_file: ...]: the file is there
    when the block ends without an exception. *)
Definition write_wav (file : wav_file) : M unit := fun w =>
  let ok := write_ok (writes w) in
  (if ok then Done tt else Fail OSError,
   {| audio_receiver := audio_receiver w;
      files := if ok then files w ++ [file] else files w;
      stamps := stamps w; writes := Datatypes.S (writes w);
      sends := sends w |},
   [EWriteWav file ok]).

Definition strftime_now : M string := fun w =>
  (Done (now (stamps w)),
   {| audio_receiver := audio_receiver w; files := files w;
      stamps := Datatypes.S (stamps w); writes := writes w;
      sends := sends w |},
   []).

Definition stop_recording : M string :=
  run r <- ggets audio_receiver;
  run _ <- gmodify (set_receiver
             {| is_recording := false; audio_buffer := audio_buffer r |});
  if Nat.eqb (length (audio_buffer r)) 0 then
    run _ <- print LogNoAudio; gret ""
  else
    run timestamp <- strftime_now;
    let filename := "audio_record_" +:+ timestamp +:+ ".wav" in
    gtry
      (run _ <- write_wav {| wav_name := filename;
                             wav_channels := channels;
                             wav_sampwidth := sample_width;
                             wav_framerate := sample_rate;
                             wav_frames := audio_buffer r |};
       run _ <- print (LogFileSaved filename (length (audio_buffer r)));
       gret filename)
      (fun _ => run _ <- print LogSaveFailed; gret "").

Definition send_text (ws : conn) (text : string) : M unit := fun w =>
  let ok := send_ok (sends w) in
  (if ok then Done tt else Fail SendError,
   {| audio_receiver := audio_receiver w; files := files w;
      stamps := stamps w; writes := writes w;
      sends := Datatypes.S (sends w) |},
   [ESendText ws text ok]).

(** The [try] block that handles one text message, with its two [except]
    clauses. *)
Definition on_text (websocket : conn) (text : string) : M unit :=
  gtry
    (run data <- match json_loads text with
                 | Some data => gret data
                 | None => graise JSONDecodeError
                 end;
     run event <- match data with
                  | JObject fields => gret (dict_lookup "event" fields)
                  | _ => graise AttributeError
                  end;
     if event_is event "recording_started" then
       run _ <- print LogRecordingStartedEvent;
       start_recording
     else if event_is event "recording_ended" then
       run _ <- print LogRecordingEndedEvent;
       run filename <- stop_recording;
       if negb (String.eqb filename "") then
         send_text websocket
           (json_dumps_dict [("event", "file_saved"); ("filename", filename);
                             ("status", "success")])
       else
         send_text websocket
           (json_dumps_dict [("event", "file_save_failed");
                             ("status", "failed")])
     else print (LogOtherEvent event))
    (fun e => match e with
              | JSONDecodeError => print LogJsonError
              | _ => print LogTextError
              end).

(** The part of the loop body that follows a successful [receive()]. *)
Definition handle_message (websocket : conn) (message : message) : M unit :=
  match msg_text message with
  | Some text => on_text websocket text
  | None =>
      match msg_bytes message with
      | Some audio_chunk =>
          run _ <- add_audio_data audio_chunk;
          run r <- ggets audio_receiver;
          let total_size := length (audio_buffer r) in
          if Nat.eqb (total_size mod (8 * 1000)) 0
          then print (LogProgress total_size)
          else gret tt
      | None => gret tt
      end
  end.

(** The [while True] loop over what [receive()] does, one item after the
    other. It answers [true] when it is waiting for an item that has not
    come yet and [false] after the [break]. *)
Fixpoint receive_loop (websocket : conn) (arriving : list incoming) : M bool :=
  match arriving with
  | [] => gret true
  | ReceiveFailed :: _ => run _ <- print LogReceiveError; gret false
  | Received message :: rest =>
      run _ <- handle_message websocket message;
      receive_loop websocket rest
  end.

(** [websocket_endpoint]: the loop inside the outer [try], with its
    [except] clauses and the [finally] clause, which runs once the loop is
    left. The answer is that of the loop: [true] while the handler is
    still waiting in [receive()]. *)
Definition websocket_endpoint (websocket : conn) (arriving : list incoming)
    : M bool :=
  run _ <- gemit (EAccept websocket);
  run _ <- print LogClientConnected;
  run waiting <-
    gtry (receive_loop websocket arriving)
      (fun e =>
         match e with
         | WebSocketDisconnect =>
             run _ <- print LogClientDisconnected;
             run r <- ggets audio_receiver;
             run _ <- (if is_recording r
                       then run _ <- print LogSavingOnDisconnect;
                            run _ <- stop_recording; gret tt
                       else gret tt);
             gret false
         | _ => run _ <- print LogConnectionError; gret false
         end);
  run _ <- (if waiting then gret tt else print LogConnectionDone);
  gret waiting.


(** ** Observations *)

(** A control payload that decodes to an object whose [event] is [name]. *)
Definition is_event (text name : string) : bool :=
  match json_loads text with
  | Some (JObject fields) => event_is (dict_lookup "event" fields) name
  | _ => false
  end.

(** The file writes and the socket sends of a trace, in order. *)
Definition is_write (e : effect) : bool :=
  match e with EWriteWav _ _ => true | _ => false end.

Definition is_send (e : effect) : bool :=
  match e with ESendText _ _ _ => true | _ => false end.

Definition file_writes (tr : list effect) : list effect :=
  List.filter is_write tr.

Definition text_sends (tr : list effect) : list effect :=
  List.filter is_send tr.

(** The two replies to a [recording_ended]. *)
Definition file_saved (filename : string) : string :=
  json_dumps_dict [("event", "file_saved"); ("filename", filename);
                   ("status", "success")].

Definition file_save_failed : string :=
  json_dumps_dict [("event", "file_save_failed"); ("status", "failed")].

(** The file [stop_recording] writes for the buffer [frames] when the
    clock reads [timestamp]. *)
Definition recording_file (timestamp : string) (frames : bytes) : wav_file :=
  {| wav_name := "audio_record_" +:+ timestamp +:+ ".wav";
     wav_channels := channels;
     wav_sampwidth := sample_width;
     wav_framerate := sample_rate;
     wav_frames := frames |}.

(** ** The recorder *)

Lemma file_writes_app t1 t2 :
  file_writes (t1 ++ t2) = file_writes t1 ++ file_writes t2.
Proof. apply List.filter_app. Qed.

Lemma recorder_text_sends_app t1 t2 :
  text_sends (t1 ++ t2) = text_sends t1 ++ text_sends t2.
Proof. apply List.filter_app. Qed.

(** [stop_recording], case by case. *)
Lemma stop_recording_run w :
  stop_recording w
  = let r := audio_receiver w in
    let w1 := set_receiver
                {| is_recording := false; audio_buffer := audio_buffer r |} w in
    if Nat.eqb (length (audio_buffer r)) 0 then
      (Done "", w1, [EPrint LogNoAudio])
    else
      let file := recording_file (now (stamps w)) (audio_buffer r) in
      if write_ok (writes w) then
        (Done (wav_name file),
         {| audio_receiver := audio_receiver w1;
            files := files w ++ [file];
            stamps := Datatypes.S (stamps w);
            writes := Datatypes.S (writes w); sends := sends w |},
         [EWriteWav file true;
          EPrint (LogFileSaved (wav_name file) (length (audio_buffer r)))])
      else
        (Done "",
         {| audio_receiver := audio_receiver w1;
            files := files w;
            stamps := Datatypes.S (stamps w);
            writes := Datatypes.S (writes w); sends := sends w |},
         [EWriteWav file false; EPrint LogSaveFailed]).
Proof.
  unfold stop_recording, gbind, ggets, gmodify, gtry, write_wav, strftime_now,
    print, gemit, gret, recording_file.
  cbv zeta. cbn [audio_receiver set_receiver audio_buffer].
  destruct (Nat.eqb (length (audio_buffer (audio_receiver w))) 0);
    [reflexivity|].
  cbn [writes set_receiver stamps].
  destruct (write_ok (writes w)); reflexivity.
Qed.

(** One text message never raises and never [continue]s: both [except]
    clauses end in a print. *)
Lemma on_text_done ws text w :
  exists w' tr, on_text ws text w = (Done tt, w', tr).
Proof.
  unfold on_text, gtry, gbind at 1.
  destruct (json_loads text) as [data|]; cbn [gret graise].
  2:{ eexists _, _. reflexivity. }
  unfold gbind at 1.
  destruct data as [| | | | |fields]; cbn [gret graise];
    try (eexists _, _; reflexivity).
  destruct (event_is (dict_lookup "event" fields) "recording_started").
  { eexists _, _. reflexivity. }
  destruct (event_is (dict_lookup "event" fields) "recording_ended").
  2:{ eexists _, _. reflexivity. }
  unfold gbind at 1. unfold print at 1, gemit at 1.
  unfold gbind at 1. rewrite stop_recording_run. cbv zeta.
  destruct (Nat.eqb (length (audio_buffer (audio_receiver w))) 0).
  { cbn [negb String.eqb]. unfold send_text.
    destruct (send_ok _); eexists _, _; reflexivity. }
  destruct (write_ok (writes w)).
  - destruct (negb _); unfold send_text;
      destruct (send_ok _); eexists _, _; reflexivity.
  - cbn [negb String.eqb]. unfold send_text.
    destruct (send_ok _); eexists _, _; reflexivity.
Qed.

(** What one binary frame does: it is appended while the recorder
    records, and a progress line is printed whenever the buffer then holds
    a multiple of 8000 bytes. *)
Lemma recorder_handle_binary_frame ws chunk w :
  handle_message ws (binary_frame chunk) w
  = let r := audio_receiver w in
    let w1 := if is_recording r
              then set_receiver
                     {| is_recording := true;
                        audio_buffer := audio_buffer r ++ chunk |} w
              else w in
    let total_size := length (audio_buffer (audio_receiver w1)) in
    (Done tt, w1,
     if Nat.eqb (total_size mod (8 * 1000)) 0
     then [EPrint (LogProgress total_size)] else []).
Proof.
  unfold handle_message. cbn [msg_text msg_bytes binary_frame].
  unfold gbind, add_audio_data, ggets, gmodify, gret, print, gemit.
  cbn -[Nat.modulo Nat.mul Nat.eqb].
  destruct (is_recording (audio_receiver w));
    cbn -[Nat.modulo Nat.mul Nat.eqb];
    match goal with
    | |- context [Nat.eqb ?a 0] => destruct (Nat.eqb a 0)
    end; reflexivity.
Qed.

Lemma handle_message_done ws m w :
  exists w' tr, handle_message ws m w = (Done tt, w', tr).
Proof.
  destruct m as [[text|] [chunk|]];
    try (apply (on_text_done ws text w));
    [|eexists _, _; reflexivity].
  change {| msg_text := None; msg_bytes := Some chunk |}
    with (binary_frame chunk).
  rewrite recorder_handle_binary_frame. eexists _, _. reflexivity.
Qed.

(** X17. No message can end the connection of this server: whatever the
    decoder makes of a text, whether the file can be written or the reply
    sent, the handler deals with the message and waits for the next one.
    Only a [receive()] that raises leaves the loop. *)
Theorem messages_never_end_connection ws msgs w :
  exists w' tr,
    websocket_endpoint ws (map Received msgs) w = (Done true, w', tr).
Proof.
  assert (Hloop : forall w0, exists w' tr,
            receive_loop ws (map Received msgs) w0 = (Done true, w', tr)).
  { induction msgs as [|m msgs IH]; intros w0.
    - eexists _, _. reflexivity.
    - cbn [map receive_loop]. unfold gbind.
      destruct (handle_message_done ws m w0) as (w1 & t1 & ->).
      destruct (IH w1) as (w2 & t2 & ->). eexists _, _. reflexivity. }
  unfold websocket_endpoint.
  unfold gbind at 1. unfold gemit at 1.
  unfold gbind at 1. unfold print at 1, gemit at 1.
  unfold gbind at 1. unfold gtry at 1.
  destruct (Hloop w) as (w' & tr & ->). eexists _, _. reflexivity.
Qed.

(** ** From the frames to the file *)

(** The binary message that carries [frame], as [receive()] returns it. *)
Definition frame_received (frame : bytes) : incoming :=
  Received (binary_frame frame).

Lemma recorder_receive_loop_cons ws m rest w :
  receive_loop ws (Received m :: rest) w
  = (let '(_, w1, t1) := handle_message ws m w in
     let '(r, w2, t2) := receive_loop ws rest w1 in (r, w2, t1 ++ t2)).
Proof.
  cbn [receive_loop]. unfold gbind.
  destruct (handle_message_done ws m w) as (w1 & t1 & ->). reflexivity.
Qed.

(** A run of frames, then whatever follows: the frames are appended while
    the recorder records and dropped otherwise, and all they cause besides
    is progress lines. *)
Lemma receive_frames_then ws frames rest w :
  exists tp,
    file_writes tp = [] /\ text_sends tp = [] /\
    receive_loop ws (map frame_received frames ++ rest) w
    = (let w1 :=
         if is_recording (audio_receiver w)
         then set_receiver
                {| is_recording := true;
                   audio_buffer :=
                     audio_buffer (audio_receiver w) ++ concat frames |} w
         else w in
       let '(r, w2, t2) := receive_loop ws rest w1 in (r, w2, tp ++ t2)).
Proof.
  revert w. induction frames as [|f frames IH]; intros w.
  - exists []. split; [reflexivity|]. split; [reflexivity|].
    cbn [map app concat]. rewrite app_nil_r.
    assert (Hw : (if is_recording (audio_receiver w)
                  then set_receiver
                         {| is_recording := true;
                            audio_buffer := audio_buffer (audio_receiver w) |} w
                  else w) = w).
    { destruct w as [[rec buf] fs st wr sn]. cbn. destruct rec; reflexivity. }
    cbv zeta. rewrite Hw.
    destruct (receive_loop ws rest w) as [[r w2] t2]. reflexivity.
  - cbn [map app]. unfold frame_received at 1.
    rewrite recorder_receive_loop_cons, recorder_handle_binary_frame. cbv zeta.
    destruct (is_recording (audio_receiver w)) eqn:Hrec.
    + destruct (IH (set_receiver
                      {| is_recording := true;
                         audio_buffer := audio_buffer (audio_receiver w) ++ f |}
                      w)) as (tp & Hw & Hs & ->).
      cbn [audio_receiver set_receiver is_recording audio_buffer concat].
      rewrite <- app_assoc.
      match goal with
      | |- context [Nat.eqb ?a 0] => destruct (Nat.eqb a 0)
      end.
      * exists (EPrint (LogProgress
                  (length (audio_buffer (audio_receiver w) ++ f))) :: tp).
        split; [exact Hw|]. split; [exact Hs|]. cbv zeta.
        destruct (receive_loop ws rest _) as [[r w2] t2]. reflexivity.
      * exists tp. split; [exact Hw|]. split; [exact Hs|]. cbv zeta.
        destruct (receive_loop ws rest _) as [[r w2] t2]. reflexivity.
    + destruct (IH w) as (tp & Hw & Hs & ->). rewrite Hrec. cbv zeta.
      match goal with
      | |- context [Nat.eqb ?a 0] => destruct (Nat.eqb a 0)
      end.
      * exists (EPrint (LogProgress (length (audio_buffer (audio_receiver w))))
                  :: tp).
        split; [exact Hw|]. split; [exact Hs|].
        destruct (receive_loop ws rest w) as [[r w2] t2]. reflexivity.
      * exists tp. split; [exact Hw|]. split; [exact Hs|].
        destruct (receive_loop ws rest w) as [[r w2] t2]. reflexivity.
Qed.

Lemma recorder_handle_recording_started ws text w :
  is_event text "recording_started" = true ->
  handle_message ws (text_frame text) w
  = (Done tt,
     set_receiver {| is_recording := true; audio_buffer := [] |} w,
     [EPrint LogRecordingStartedEvent; EPrint LogStartReceiving]).
Proof.
  unfold is_event, handle_message, on_text. cbn [msg_text text_frame].
  intros H. unfold gtry, gbind at 1.
  destruct (json_loads text) as [[| | | | |fields]|]; try discriminate.
  cbn [gret]. unfold gbind at 1. cbn [gret]. rewrite H. reflexivity.
Qed.

(** The reply to a [recording_ended], and what became of the buffer. *)
Lemma recorder_handle_recording_ended ws text w :
  is_event text "recording_ended" = true ->
  handle_message ws (text_frame text) w
  = let buf := audio_buffer (audio_receiver w) in
    let r' := {| is_recording := false; audio_buffer := buf |} in
    let file := recording_file (now (stamps w)) buf in
    let ok := send_ok (sends w) in
    if Nat.eqb (length buf) 0 then
      (Done tt,
       {| audio_receiver := r'; files := files w; stamps := stamps w;
          writes := writes w; sends := Datatypes.S (sends w) |},
       [EPrint LogRecordingEndedEvent; EPrint LogNoAudio;
        ESendText ws file_save_failed ok]
       ++ if ok then [] else [EPrint LogTextError])
    else if write_ok (writes w) then
      (Done tt,
       {| audio_receiver := r'; files := files w ++ [file];
          stamps := Datatypes.S (stamps w);
          writes := Datatypes.S (writes w);
          sends := Datatypes.S (sends w) |},
       [EPrint LogRecordingEndedEvent; EWriteWav file true;
        EPrint (LogFileSaved (wav_name file) (length buf));
        ESendText ws (file_saved (wav_name file)) ok]
       ++ if ok then [] else [EPrint LogTextError])
    else
      (Done tt,
       {| audio_receiver := r'; files := files w;
          stamps := Datatypes.S (stamps w);
          writes := Datatypes.S (writes w);
          sends := Datatypes.S (sends w) |},
       [EPrint LogRecordingEndedEvent; EWriteWav file false;
        EPrint LogSaveFailed; ESendText ws file_save_failed ok]
       ++ if ok then [] else [EPrint LogTextError]).
Proof.
  unfold is_event, handle_message, on_text. cbn [msg_text text_frame].
  intros H. unfold gtry, gbind at 1.
  destruct (json_loads text) as [[| | | | |fields]|]; try discriminate.
  cbn [gret]. unfold gbind at 1. cbn [gret].
  unfold event_is in *.
  destruct (dict_lookup "event" fields) as [[| | |ev| |]|]; try discriminate.
  apply String.eqb_eq in H. subst ev.
  cbn [String.eqb Ascii.eqb Bool.eqb].
  unfold gbind at 1. unfold print at 1, gemit at 1.
  unfold gbind at 1. rewrite stop_recording_run. cbv zeta.
  destruct (Nat.eqb (length (audio_buffer (audio_receiver w))) 0).
  { cbn [negb String.eqb]. unfold send_text, file_save_failed, print, gemit.
    cbn [sends set_receiver audio_receiver files stamps writes].
    destruct (send_ok (sends w)); reflexivity. }
  destruct (write_ok (writes w)).
  - replace (negb (String.eqb
               (wav_name (recording_file (now (stamps w))
                            (audio_buffer (audio_receiver w)))) ""))
      with true by reflexivity.
    unfold send_text, file_saved, print, gemit.
    cbn [sends set_receiver audio_receiver files stamps writes wav_name].
    destruct (send_ok (sends w)); reflexivity.
  - cbn [negb String.eqb]. unfold send_text, file_save_failed, print, gemit.
    cbn [sends set_receiver audio_receiver files stamps writes].
    destruct (send_ok (sends w)); reflexivity.
Qed.

(** X18. The reply to a [recording_ended] tells what happened to the
    recording. When the buffer holds audio and the file can be written,
    the file is added with the buffer as its frames and the reply is
    [file_saved] with that file's name; when the buffer is empty no write
    is even attempted, and when the write fails no file is added: in both
    cases the reply is [file_save_failed]. Either way the recorder stops
    recording and keeps its buffer. *)
Theorem recording_ended_reply_tells_outcome ws text w :
  is_event text "recording_ended" = true ->
  let buf := audio_buffer (audio_receiver w) in
  let file := recording_file (now (stamps w)) buf in
  let '(_, w', tr) := handle_message ws (text_frame text) w in
  audio_receiver w' = {| is_recording := false; audio_buffer := buf |} /\
  if Nat.eqb (length buf) 0 then
    files w' = files w /\ file_writes tr = [] /\
    text_sends tr = [ESendText ws file_save_failed (send_ok (sends w))]
  else if write_ok (writes w) then
    files w' = files w ++ [file] /\ file_writes tr = [EWriteWav file true] /\
    text_sends tr
    = [ESendText ws (file_saved (wav_name file)) (send_ok (sends w))]
  else
    files w' = files w /\ file_writes tr = [EWriteWav file false] /\
    text_sends tr = [ESendText ws file_save_failed (send_ok (sends w))].
Proof.
  intros Hev. cbv zeta. rewrite (recorder_handle_recording_ended _ _ _ Hev). cbv zeta.
  destruct (Nat.eqb (length (audio_buffer (audio_receiver w))) 0);
    [|destruct (write_ok (writes w))];
    destruct (send_ok (sends w)); repeat split.
Qed.

(** X19. A [recording_started], then any frames, then a
    [recording_ended], from any state of the recorder: when the frames
    hold audio and the file can be written, the file that is saved is
    mono, 16 bit, 16 kHz, and its frames are the frames received since the
    [recording_started], in the order of arrival; the reply names that
    file. *)
Theorem recording_saved_with_its_frames ws started ended frames w :
  is_event started "recording_started" = true ->
  is_event ended "recording_ended" = true ->
  concat frames <> [] ->
  write_ok (writes w) = true ->
  let file := recording_file (now (stamps w)) (concat frames) in
  let '(r, w', tr) :=
    receive_loop ws
      (Received (text_frame started)
         :: map frame_received frames ++ [Received (text_frame ended)]) w in
  r = Done true /\
  files w' = files w ++ [file] /\
  (wav_channels file, wav_sampwidth file, wav_framerate file)
  = (1, 2, 16 * 1000) /\
  file_writes tr = [EWriteWav file true] /\
  text_sends tr = [ESendText ws (file_saved (wav_name file)) (send_ok (sends w))].
Proof.
  intros Hs He Hne Hw. cbv zeta.
  rewrite recorder_receive_loop_cons, (recorder_handle_recording_started _ _ _ Hs).
  destruct (receive_frames_then ws frames [Received (text_frame ended)]
              (set_receiver {| is_recording := true; audio_buffer := [] |} w))
    as (tp & Hwp & Hsp & ->).
  cbn [audio_receiver set_receiver is_recording audio_buffer app].
  rewrite recorder_receive_loop_cons, (recorder_handle_recording_ended _ _ _ He). cbv zeta.
  cbn [audio_receiver set_receiver audio_buffer stamps writes sends files
       receive_loop].
  destruct (Nat.eqb (length (concat frames)) 0) eqn:Elen.
  { apply Nat.eqb_eq in Elen. destruct (concat frames); [congruence|].
    discriminate. }
  rewrite Hw. unfold gret.
  split; [reflexivity|]. split; [reflexivity|]. split; [reflexivity|].
  split.
  - rewrite app_nil_r. change (?a :: ?b :: tp ++ ?c) with ([a; b] ++ tp ++ c).
    rewrite !file_writes_app, Hwp. destruct (send_ok (sends w)); reflexivity.
  - rewrite app_nil_r. change (?a :: ?b :: tp ++ ?c) with ([a; b] ++ tp ++ c).
    rewrite !recorder_text_sends_app, Hsp. destruct (send_ok (sends w)); reflexivity.
Qed.

(** [websocket_endpoint] around a loop that ended without an exception. *)
Lemma recorder_websocket_endpoint_run ws arriving w b w' tr :
  receive_loop ws arriving w = (Done b, w', tr) ->
  websocket_endpoint ws arriving w
  = (Done b, w',
     [EAccept ws; EPrint LogClientConnected] ++ tr ++
     if b then [] else [EPrint LogConnectionDone]).
Proof.
  intros H. unfold websocket_endpoint.
  unfold gbind at 1. unfold gemit at 1.
  unfold gbind at 1. unfold print at 1, gemit at 1.
  unfold gbind at 1. unfold gtry at 1. rewrite H.
  destruct b; cbn; rewrite ?app_nil_r; reflexivity.
Qed.

(** X20. The recorder belongs to the server, not to a connection, and a
    connection that drops does not save or reset it. When a device starts
    a recording and its [receive()] then fails, nothing is written and the
    recorder goes on recording; the frames of the next connection are
    appended behind those of the dropped one, and its [recording_ended]
    saves both together. *)
Theorem dropped_recording_leaks_into_next ws1 ws2 started ended frames1 frames2 w :
  is_event started "recording_started" = true ->
  is_event ended "recording_ended" = true ->
  concat frames1 ++ concat frames2 <> [] ->
  write_ok (writes w) = true ->
  let '(r1, w1, t1) :=
    websocket_endpoint ws1
      (Received (text_frame started)
         :: map frame_received frames1 ++ [ReceiveFailed]) w in
  let '(r2, w2, t2) :=
    websocket_endpoint ws2
      (map frame_received frames2 ++ [Received (text_frame ended)]) w1 in
  r1 = Done false /\ files w1 = files w /\ file_writes t1 = [] /\
  audio_receiver w1
  = {| is_recording := true; audio_buffer := concat frames1 |} /\
  r2 = Done true /\
  files w2
  = files w ++ [recording_file (now (stamps w))
                  (concat frames1 ++ concat frames2)].
Proof.
  intros Hs He Hne Hw.
  assert (H1 : exists tp, file_writes tp = [] /\
            receive_loop ws1
              (Received (text_frame started)
                 :: map frame_received frames1 ++ [ReceiveFailed]) w
            = (Done false,
               set_receiver
                 {| is_recording := true; audio_buffer := concat frames1 |} w,
               tp)).
  { rewrite recorder_receive_loop_cons, (recorder_handle_recording_started _ _ _ Hs).
    destruct (receive_frames_then ws1 frames1 [ReceiveFailed]
                (set_receiver {| is_recording := true; audio_buffer := [] |} w))
      as (tp & Hwp & Hsp & ->).
    cbn [audio_receiver set_receiver is_recording audio_buffer app
         receive_loop].
    eexists. split; [|reflexivity].
    change (?a :: ?b :: tp ++ ?c) with ([a; b] ++ tp ++ c).
    rewrite !file_writes_app, Hwp. reflexivity. }
  destruct H1 as (tp & Hwp & H1).
  rewrite (recorder_websocket_endpoint_run _ _ _ _ _ _ H1).
  set (w1 := set_receiver _ w).
  assert (H2 : exists tq,
            receive_loop ws2
              (map frame_received frames2 ++ [Received (text_frame ended)]) w1
            = (Done true,
               {| audio_receiver :=
                    {| is_recording := false;
                       audio_buffer := concat frames1 ++ concat frames2 |};
                  files := files w ++
                           [recording_file (now (stamps w))
                              (concat frames1 ++ concat frames2)];
                  stamps := Datatypes.S (stamps w);
                  writes := Datatypes.S (writes w);
                  sends := Datatypes.S (sends w) |},
               tq)).
  { destruct (receive_frames_then ws2 frames2 [Received (text_frame ended)] w1)
      as (tq & Hwq & Hsq & ->).
    subst w1.
    cbn [audio_receiver set_receiver is_recording audio_buffer].
    rewrite recorder_receive_loop_cons, (recorder_handle_recording_ended _ _ _ He). cbv zeta.
    cbn [audio_receiver set_receiver audio_buffer stamps writes sends files
         receive_loop].
    destruct (Nat.eqb (length (concat frames1 ++ concat frames2)) 0) eqn:Elen.
    { apply Nat.eqb_eq in Elen.
      destruct (concat frames1 ++ concat frames2); [congruence|discriminate]. }
    rewrite Hw. unfold gret. eexists. reflexivity. }
  destruct H2 as (tq & H2).
  rewrite (recorder_websocket_endpoint_run _ _ _ _ _ _ H2).
  split; [reflexivity|]. split; [reflexivity|]. split.
  { rewrite !file_writes_app, Hwp. reflexivity. }
  split; [reflexivity|]. split; reflexivity.
Qed.

End Handlers.


(** ** Closed instances *)

(** A clock that always reads the same second. *)
Definition sample_now (n : nat) : string := "20251111_095832".

(** The server before its first connection. *)
Definition idle : world :=
  {| audio_receiver := {| is_recording := false; audio_buffer := [] |};
     files := []; stamps := 0; writes := 0; sends := 0 |}.

(** X18 at work: a [recording_ended] while the disk is full. *)
Lemma recording_ended_reply_witness :
  let w := set_receiver {| is_recording := true; audio_buffer := [x01; x02] |}
             idle in
  is_event sample_json_loads (json_dumps_event "recording_ended")
    "recording_ended" = true /\
  let '(_, w', tr) :=
    handle_message sample_json_loads sample_now (send_fails_at 0) all_sends_ok
      1 (text_frame (json_dumps_event "recording_ended")) w in
  audio_receiver w' = {| is_recording := false; audio_buffer := [x01; x02] |} /\
  files w' = [] /\
  file_writes tr
  = [EWriteWav (recording_file "20251111_095832" [x01; x02]) false] /\
  text_sends tr = [ESendText 1 file_save_failed true].
Proof.
  split; [reflexivity|].
  exact (recording_ended_reply_tells_outcome
           sample_json_loads sample_now (send_fails_at 0) all_sends_ok 1
           (json_dumps_event "recording_ended")
           (set_receiver {| is_recording := true; audio_buffer := [x01; x02] |}
              idle) eq_refl).
Defined.

(** X19 at work: three frames are recorded and saved. *)
Lemma recording_saved_witness :
  is_event sample_json_loads (json_dumps_event "recording_started")
    "recording_started" = true /\
  is_event sample_json_loads (json_dumps_event "recording_ended")
    "recording_ended" = true /\
  concat [[x01]; [x02; x03]; [x04]] <> [] /\
  all_sends_ok (writes idle) = true /\
  let file := recording_file (sample_now (stamps idle))
                (concat [[x01]; [x02; x03]; [x04]]) in
  let '(r, w', tr) :=
    receive_loop sample_json_loads sample_now all_sends_ok all_sends_ok 1
      (Received (text_frame (json_dumps_event "recording_started"))
         :: map frame_received [[x01]; [x02; x03]; [x04]]
         ++ [Received (text_frame (json_dumps_event "recording_ended"))])
      idle in
  r = Done true /\
  files w' = files idle ++ [file] /\
  (wav_channels file, wav_sampwidth file, wav_framerate file)
  = (1, 2, 16 * 1000) /\
  file_writes tr = [EWriteWav file true] /\
  text_sends tr
  = [ESendText 1 (file_saved (wav_name file)) (all_sends_ok (sends idle))].
Proof.
  assert (H : concat [[x01]; [x02; x03]; [x04]] <> []) by discriminate.
  split; [reflexivity|]. split; [reflexivity|]. split; [exact H|].
  split; [reflexivity|].
  exact (recording_saved_with_its_frames
           sample_json_loads sample_now all_sends_ok all_sends_ok 1
           (json_dumps_event "recording_started")
           (json_dumps_event "recording_ended") [[x01]; [x02; x03]; [x04]]
           idle eq_refl eq_refl H eq_refl).
Defined.

(** X20 at work: the first device drops after two frames, the second
    sends one frame and ends the recording. *)
Lemma dropped_recording_witness :
  is_event sample_json_loads (json_dumps_event "recording_started")
    "recording_started" = true /\
  is_event sample_json_loads (json_dumps_event "recording_ended")
    "recording_ended" = true /\
  concat [[x01]; [x02]] ++ concat [[x03]] <> [] /\
  all_sends_ok (writes idle) = true /\
  let '(r1, w1, t1) :=
    websocket_endpoint sample_json_loads sample_now all_sends_ok all_sends_ok
      1 (Received (text_frame (json_dumps_event "recording_started"))
           :: map frame_received [[x01]; [x02]] ++ [ReceiveFailed]) idle in
  let '(r2, w2, t2) :=
    websocket_endpoint sample_json_loads sample_now all_sends_ok all_sends_ok
      2 (map frame_received [[x03]]
           ++ [Received (text_frame (json_dumps_event "recording_ended"))])
      w1 in
  r1 = Done false /\ files w1 = files idle /\ file_writes t1 = [] /\
  audio_receiver w1
  = {| is_recording := true; audio_buffer := concat [[x01]; [x02]] |} /\
  r2 = Done true /\
  files w2
  = files idle ++ [recording_file (sample_now (stamps idle))
                     (concat [[x01]; [x02]] ++ concat [[x03]])].
Proof.
  assert (H : concat [[x01]; [x02]] ++ concat [[x03]] <> []) by discriminate.
  split; [reflexivity|]. split; [reflexivity|]. split; [exact H|].
  split; [reflexivity|].
  exact (dropped_recording_leaks_into_next
           sample_json_loads sample_now all_sends_ok all_sends_ok 1 2
           (json_dumps_event "recording_started")
           (json_dumps_event "recording_ended") [[x01]; [x02]] [[x03]]
           idle eq_refl eq_refl H eq_refl).
Defined.

End SimpleServer.

(** * The loop-back server

    [src/loopback_server.py]: the handler that answers every recording
    with one fixed piece of audio, and [send_audio_stream], which streams
    it. *)

Module Loopback.

(** The [client_state] dict of a connection. *)
Record client_state := {
  is_recording : bool;
  audio_buffer : bytes;
  conversation_count : nat
}.

(** The state of the connection that is served and the number of
    [send_bytes] calls so far, which indexes the answers of the
    transport. *)
Record world := {
  client : client_state;
  sends : nat
}.

Inductive log_line :=
| LogClientConnected
| LogRecordingStarted
| LogRecordingEnded
| LogAudioReceived (size : nat)
| LogLoopbackStart
| LogReplying (size : nat)
| LogReplyNotLoaded
| LogRoundDone (count : nat)
| LogClientDisconnected
| LogConnectionError
| LogSendFailed
| LogStreamDone (sent_bytes total : nat).

Inductive effect :=
| EAccept (ws : conn)
| EPrint (l : log_line)
| ESendBytes (to : conn) (chunk : bytes) (ok : bool)
| ESleep (ms : nat)
| EPing (to : conn) (ok : bool)
| EClose (ws : conn).

Inductive error :=
| JSONDecodeError
| AttributeError
| SendError
| PingError
| RuntimeError
| WebSocketDisconnect.

Local Abbreviation M := (@G world effect error).

(** What [await websocket.receive()] does: it returns a message or
    raises. *)
Inductive incoming :=
| Received (m : message)
| ReceiveRaised (e : error).

Definition set_client (c : client_state) (w : world) : world :=
  {| client := c; sends := sends w |}.

Definition add_sends (n : nat) (w : world) : world :=
  {| client := client w; sends := sends w + n |}.

(** The state every connection starts with. *)
Definition new_client_state : client_state :=
  {| is_recording := false; audio_buffer := []; conversation_count := 0 |}.

Section Handlers.

(** [json_loads] is [json.loads]; [REPLY_AUDIO_DATA] is the module-level
    variable as the start-up code left it; [send_ok n] tells whether the
    [n]-th [send_bytes] succeeds, and [ping_ok] whether
    [websocket.ping()] returns. *)
Variable json_loads : string -> option json.
Variable REPLY_AUDIO_DATA : option bytes.
Variable send_ok : nat -> bool.
Variable ping_ok : bool.

Definition print (l : log_line) : M unit := gemit (EPrint l).

Definition send_bytes (ws : conn) (chunk : bytes) : M unit := fun w =>
  let ok := send_ok (sends w) in
  (if ok then Done tt else Fail SendError,
   {| client := client w; sends := Datatypes.S (sends w) |},
   [ESendBytes ws chunk ok]).

Definition asyncio_sleep (ms : nat) : M unit := gemit (ESleep ms).

Definition ping (ws : conn) : M unit := fun w =>
  (if ping_ok then Done tt else Fail PingError, w, [EPing ws ping_ok]).

(** The [for] loop of [send_audio_stream] over the offsets that are left,
    with [sent_bytes] as it stands; a send that fails breaks out of it. *)
Fixpoint send_chunks (C : nat) (websocket : conn) (audio_data : bytes)
    (offsets : list nat) (sent_bytes : nat) : M nat :=
  match offsets with
  | [] => gret sent_bytes
  | i :: rest =>
      let chunk := slice audio_data i (i + C) in
      run sent <- gtry
                    (run _ <- send_bytes websocket chunk;
                     run _ <- asyncio_sleep 10;
                     gret (Some (sent_bytes + length chunk)))
                    (fun _ => run _ <- print LogSendFailed; gret None);
      match sent with
      | Some n => send_chunks C websocket audio_data rest n
      | None => gret sent_bytes
      end
  end.

(** [send_audio_stream], with the chunk size as a parameter. *)
Definition send_audio_stream_with (C : nat) (websocket : conn)
    (audio_data : bytes) : M unit :=
  run sent_bytes <- send_chunks C websocket audio_data
                      (range 0 (length audio_data) C) 0;
  gtry
    (run _ <- ping websocket;
     print (LogStreamDone sent_bytes (length audio_data)))
    (fun _ => gret tt).

Definition CHUNK_SIZE : nat := 32 * 100.

Definition send_audio_stream : conn -> bytes -> M unit :=
  send_audio_stream_with CHUNK_SIZE.

(** [if REPLY_AUDIO_DATA:] holds for bytes that are not empty. *)
Definition reply_loaded : option bytes :=
  match REPLY_AUDIO_DATA with
  | Some data => if Nat.eqb (length data) 0 then None else Some data
  | None => None
  end.

(** The body of the [while True] loop after the [receive()]. *)
Definition handle_message (websocket : conn) (m : message) : M unit :=
  match msg_text m with
  | Some text =>
      run data <- match json_loads text with
                  | Some data => gret data
                  | None => graise JSONDecodeError
                  end;
      run event <- match data with
                   | JObject fields => gret (dict_lookup "event" fields)
                   | _ => graise AttributeError
                   end;
      if event_is event "recording_started" then
        run _ <- print LogRecordingStarted;
        gmodify (fun w =>
          set_client {| is_recording := true; audio_buffer := [];
                        conversation_count := conversation_count (client w) |}
            w)
      else if event_is event "recording_ended" then
        run _ <- print LogRecordingEnded;
        run _ <- gmodify (fun w =>
          set_client {| is_recording := false;
                        audio_buffer := audio_buffer (client w);
                        conversation_count :=
                          Datatypes.S (conversation_count (client w)) |} w);
        run c <- ggets client;
        run _ <- print (LogAudioReceived (length (audio_buffer c)));
        run _ <- print LogLoopbackStart;
        run _ <- match reply_loaded with
                 | Some data =>
                     run _ <- print (LogReplying (length data));
                     send_audio_stream websocket data
                 | None => print LogReplyNotLoaded
                 end;
        print (LogRoundDone (conversation_count c))
      else gret tt
  | None =>
      match msg_bytes m with
      | Some audio_chunk =>
          run c <- ggets client;
          if is_recording c then
            gmodify (set_client
              {| is_recording := true;
                 audio_buffer := audio_buffer c ++ audio_chunk;
                 conversation_count := conversation_count c |})
          else gret tt
      | None => gret tt
      end
  end.

(** The [while True] loop over what [receive()] gives; when the list is
    used up the handler is waiting for the next message. *)
Fixpoint receive_loop (websocket : conn) (arriving : list incoming)
    : M bool :=
  match arriving with
  | [] => gret true
  | Received message :: rest =>
      run _ <- handle_message websocket message;
      receive_loop websocket rest
  | ReceiveRaised e :: _ => graise e
  end.

(** The handler. [websocket.client_state] is an enum member and never
    equal to the text it is compared with, so the second [except] always
    closes. *)
Definition websocket_endpoint (websocket : conn) (arriving : list incoming)
    : M bool :=
  run _ <- gemit (EAccept websocket);
  run _ <- print LogClientConnected;
  run _ <- gmodify (set_client new_client_state);
  gtry (receive_loop websocket arriving)
    (fun e =>
       match e with
       | WebSocketDisconnect =>
           run _ <- print LogClientDisconnected; gret false
       | _ =>
           run _ <- print LogConnectionError;
           run _ <- gemit (EClose websocket);
           gret false
       end).

(** ** Observations *)

Definition is_event (text name : string) : bool :=
  match json_loads text with
  | Some (JObject fields) => event_is (dict_lookup "event" fields) name
  | _ => false
  end.

(** The chunks of a reply, as the loop cuts them. *)
Definition chunks (C : nat) (audio_data : bytes) : list bytes :=
  map (fun i => slice audio_data i (i + C)) (range 0 (length audio_data) C).

(** The chunks of a trace that the transport accepted, in order. *)
Fixpoint sent_chunks (tr : list effect) : list bytes :=
  match tr with
  | [] => []
  | ESendBytes _ chunk true :: tr' => chunk :: sent_chunks tr'
  | _ :: tr' => sent_chunks tr'
  end.

(** What a trace puts on the wire or waits for: sends, sleeps and pings. *)
Definition is_wire (e : effect) : bool :=
  match e with
  | ESendBytes _ _ _ | ESleep _ | EPing _ _ => true
  | _ => false
  end.

Definition wire (tr : list effect) : list effect := List.filter is_wire tr.

Definition is_ping (e : effect) : bool :=
  match e with EPing _ _ => true | _ => false end.

Definition pings (tr : list effect) : list effect := List.filter is_ping tr.

(** The round numbers a trace reports, in order. *)
Fixpoint rounds (tr : list effect) : list nat :=
  match tr with
  | [] => []
  | EPrint (LogRoundDone n) :: tr' => n :: rounds tr'
  | _ :: tr' => rounds tr'
  end.

(** The trace of a stream whose sends all succeed. *)
Definition paced (ws : conn) (cs : list bytes) : list effect :=
  flat_map (fun chunk => [ESendBytes ws chunk true; ESleep 10]) cs.


(** ** Streaming the reply *)

Lemma loopback_add_sends_0 w : add_sends 0 w = w.
Proof. destruct w as [c n]. unfold add_sends. cbn. f_equal. lia. Qed.

Lemma loopback_sent_chunks_app t1 t2 :
  sent_chunks (t1 ++ t2) = sent_chunks t1 ++ sent_chunks t2.
Proof.
  induction t1 as [|e t1 IH]; [reflexivity|].
  destruct e as [| | ? ? []| | |]; cbn; rewrite ?IH; reflexivity.
Qed.


(** The loop when every send of the offsets succeeds. *)
Lemma loopback_send_chunks_all_ok C ws audio offsets n w :
  (forall k, k < length offsets -> send_ok (sends w + k) = true) ->
  send_chunks C ws audio offsets n w
  = (Done (n + length (concat (map (fun i => slice audio i (i + C)) offsets))),
     add_sends (length offsets) w,
     paced ws (map (fun i => slice audio i (i + C)) offsets)).
Proof.
  revert n w. induction offsets as [|i rest IH]; intros n w Hok.
  - cbn. rewrite loopback_add_sends_0, Nat.add_0_r. reflexivity.
  - cbn [send_chunks map length concat].
    assert (H0 : send_ok (sends w) = true).
    { rewrite <- (Nat.add_0_r (sends w)). apply Hok. cbn. lia. }
    unfold gbind at 1. unfold gtry, gbind, send_bytes, asyncio_sleep, gemit, gret.
    rewrite H0. cbn [app].
    rewrite IH.
    + unfold add_sends, paced. cbn. rewrite length_app.
      rewrite Nat.add_assoc, <- Nat.add_succ_r. reflexivity.
    + intros k Hk. cbn.
      replace (Datatypes.S (sends w + k)) with (sends w + Datatypes.S k) by lia.
      apply Hok. cbn. lia.
Qed.


(** The summary lines of a trace: the bytes reported as sent and the
    total. *)
Fixpoint summaries (tr : list effect) : list (nat * nat) :=
  match tr with
  | [] => []
  | EPrint (LogStreamDone n total) :: tr' => (n, total) :: summaries tr'
  | _ :: tr' => summaries tr'
  end.

Lemma loopback_rounds_app t1 t2 : rounds (t1 ++ t2) = rounds t1 ++ rounds t2.
Proof.
  induction t1 as [|e t1 IH]; [reflexivity|].
  destruct e as [|[]| | | |]; cbn; rewrite ?IH; reflexivity.
Qed.

Lemma loopback_wire_app t1 t2 : wire (t1 ++ t2) = wire t1 ++ wire t2.
Proof. apply List.filter_app. Qed.

(** The loop under any transport: it never raises, leaves the client
    state alone, and the chunks that went out are the first [k] of the
    offsets' chunks, with [sent_bytes] their total size. *)
Lemma loopback_send_chunks_any C ws audio offsets n w :
  let '(r, w', tr) := send_chunks C ws audio offsets n w in
  client w' = client w /\ rounds tr = [] /\ pings tr = [] /\
  summaries tr = [] /\
  exists k,
    r = Done
          (n + length (concat (take k
                 (map (fun i => slice audio i (i + C)) offsets)))) /\
    sent_chunks tr = take k (map (fun i => slice audio i (i + C)) offsets).
Proof.
  revert n w. induction offsets as [|i rest IH]; intros n w.
  - cbn. repeat split. exists 0. cbn. rewrite Nat.add_0_r. split; reflexivity.
  - cbn [send_chunks map].
    unfold gbind at 1. unfold gtry, gbind, send_bytes, asyncio_sleep, print,
      gemit, gret.
    destruct (send_ok (sends w)); cbn [app].
    + match goal with
      | |- context [send_chunks C ws audio rest ?m ?v] =>
          specialize (IH m v); destruct (send_chunks C ws audio rest m v)
            as [[r' w'] tr']
      end.
      destruct IH as (Hc & Hr & Hp & Hs & k & Hk1 & Hk2).
      cbn. repeat split; try assumption.
      exists (Datatypes.S k). cbn. rewrite Hk1, Hk2, length_app.
      split; [|reflexivity]. rewrite Nat.add_assoc. reflexivity.
    + cbn. repeat split. exists 0. cbn. rewrite Nat.add_0_r.
      split; reflexivity.
Qed.

(** The state of the client does not bear on the stream. *)
Lemma loopback_send_chunks_client C ws audio offsets n c w :
  send_chunks C ws audio offsets n (set_client c w)
  = (let '(r, w', tr) := send_chunks C ws audio offsets n w in
     (r, set_client c w', tr)).
Proof.
  revert n w. induction offsets as [|i rest IH]; intros n w.
  - reflexivity.
  - cbn [send_chunks].
    unfold gbind at 1 3. unfold gtry, gbind, send_bytes, asyncio_sleep, print,
      gemit, gret.
    cbn [set_client sends client].
    destruct (send_ok (sends w)); cbn [app]; [|reflexivity].
    match goal with
    | |- context [send_chunks C ws audio rest ?m
                    {| client := c; sends := ?k |}] =>
        change {| client := c; sends := k |}
          with (set_client c {| client := client w; sends := k |})
    end.
    rewrite IH.
    destruct (send_chunks C ws audio rest _ _) as [[r' w'] tr'].
    reflexivity.
Qed.

Lemma loopback_stream_client C ws audio c w :
  send_audio_stream_with C ws audio (set_client c w)
  = (let '(r, w', tr) := send_audio_stream_with C ws audio w in
     (r, set_client c w', tr)).
Proof.
  unfold send_audio_stream_with. unfold gbind at 1 3.
  rewrite loopback_send_chunks_client.
  destruct (send_chunks C ws audio _ 0 w) as [[r w'] tr].
  destruct r as [n| |e]; [|reflexivity|reflexivity].
  unfold gtry, gbind, ping, print, gemit, gret.
  destruct ping_ok; reflexivity.
Qed.


Lemma loopback_chunks_concat C audio : 0 < C -> concat (chunks C audio) = audio.
Proof.
  intros HC. unfold chunks, range.
  rewrite (range_slices_concat C HC audio (length audio) 0) by lia.
  reflexivity.
Qed.

Lemma loopback_chunks_length C audio :
  0 < C -> length (chunks C audio) = ceil_div (length audio) C.
Proof.
  intros HC. unfold chunks, range. rewrite length_map.
  rewrite (range_from_length C HC) by lia.
  rewrite Nat.sub_0_r. reflexivity.
Qed.

Lemma loopback_chunk_size_pos : 0 < CHUNK_SIZE.
Proof. unfold CHUNK_SIZE. lia. Qed.

(** X21. On a transport that accepts every chunk, [send_audio_stream]
    sends the audio in [ceil(len / 3200)] chunks which, put together in
    the order sent, are the audio; it waits 10 ms after each chunk, the
    last one included, then pings once; when the ping returns, the
    summary line reports every byte as sent. *)
Theorem stream_complete_and_paced ws audio w :
  (forall k, k < ceil_div (length audio) CHUNK_SIZE ->
     send_ok (sends w + k) = true) ->
  send_audio_stream ws audio w
  = (Done tt, add_sends (ceil_div (length audio) CHUNK_SIZE) w,
     paced ws (chunks CHUNK_SIZE audio)
     ++ EPing ws ping_ok
        :: (if ping_ok
            then [EPrint (LogStreamDone (length audio) (length audio))]
            else [])) /\
  concat (chunks CHUNK_SIZE audio) = audio /\
  length (chunks CHUNK_SIZE audio) = ceil_div (length audio) CHUNK_SIZE.
Proof.
  intros Hok.
  pose proof (loopback_chunks_concat CHUNK_SIZE audio loopback_chunk_size_pos)
    as Hcat.
  pose proof (loopback_chunks_length CHUNK_SIZE audio loopback_chunk_size_pos)
    as Hlen.
  split; [|split; assumption].
  unfold send_audio_stream, send_audio_stream_with. unfold gbind at 1.
  rewrite loopback_send_chunks_all_ok.
  - fold (chunks CHUNK_SIZE audio). rewrite Hcat.
    unfold chunks in Hlen. rewrite length_map in Hlen. rewrite Hlen.
    unfold gtry, gbind, ping, print, gemit, gret.
    destruct ping_ok; reflexivity.
  - intros k Hk. apply Hok. unfold chunks in Hlen.
    rewrite length_map in Hlen. rewrite <- Hlen. exact Hk.
Qed.

(** X22. Whatever the transport and the ping do, [send_audio_stream]
    returns normally and leaves the client state alone; the chunks that
    got through are the first chunks of the audio, in order; the ping is
    attempted exactly once, also after a chunk that failed; and when the
    summary line is printed, the bytes it reports as sent are the bytes
    of the chunks that got through. *)
Theorem reported_bytes_are_delivered ws audio w :
  let '(r, w', tr) := send_audio_stream ws audio w in
  r = Done tt /\ client w' = client w /\
  sent_chunks tr `prefix_of` chunks CHUNK_SIZE audio /\
  concat (sent_chunks tr) `prefix_of` audio /\
  pings tr = [EPing ws ping_ok] /\
  summaries tr
  = if ping_ok
    then [(length (concat (sent_chunks tr)), length audio)]
    else [].
Proof.
  pose proof (loopback_chunks_concat CHUNK_SIZE audio loopback_chunk_size_pos)
    as Hcat.
  unfold send_audio_stream, send_audio_stream_with. unfold gbind at 1.
  pose proof (loopback_send_chunks_any CHUNK_SIZE ws audio
                (range 0 (length audio) CHUNK_SIZE) 0 w) as H.
  destruct (send_chunks CHUNK_SIZE ws audio _ 0 w) as [[r w'] tr].
  destruct H as (Hc & _ & Hp & Hs & k & -> & Hk).
  fold (chunks CHUNK_SIZE audio) in Hk.
  assert (Hpre : sent_chunks tr `prefix_of` chunks CHUNK_SIZE audio).
  { rewrite Hk. exists (drop k (chunks CHUNK_SIZE audio)).
    symmetry. apply take_drop. }
  assert (Hpre' : concat (sent_chunks tr) `prefix_of` audio).
  { destruct Hpre as [post Hpost].
    exists (concat post). rewrite <- concat_app, <- Hpost. symmetry.
    exact Hcat. }
  fold (chunks CHUNK_SIZE audio). rewrite <- Hk. cbn [Nat.add].
  unfold gtry, gbind, ping, print, gemit, gret.
  assert (Hsent : forall t, sent_chunks (tr ++ EPing ws ping_ok :: t)
                            = sent_chunks tr ++ sent_chunks t).
  { intros t. rewrite loopback_sent_chunks_app. reflexivity. }
  assert (Hpings : forall t, pings (tr ++ EPing ws ping_ok :: t)
                             = EPing ws ping_ok :: pings t).
  { intros t. unfold pings in *. rewrite List.filter_app, Hp. reflexivity. }
  assert (Hsum : forall t, summaries (tr ++ EPing ws ping_ok :: t)
                           = summaries t).
  { intros t. clear -Hs. induction tr as [|e tr IH]; [reflexivity|].
    destruct e as [|[]| | | |]; cbn in *; try discriminate; auto. }
  destruct ping_ok; cbn [app];
    rewrite Hsent, Hpings, Hsum; cbn; rewrite app_nil_r;
    repeat split; assumption.
Qed.


(** ** The handler *)

(** What the handler can rely on after a stream, whatever the transport
    did. *)
Lemma loopback_stream_any C ws audio w :
  let '(r, w', tr) := send_audio_stream_with C ws audio w in
  r = Done tt /\ client w' = client w /\ rounds tr = [] /\
  sent_chunks tr `prefix_of` chunks C audio /\
  pings tr = [EPing ws ping_ok].
Proof.
  unfold send_audio_stream_with. unfold gbind at 1.
  pose proof (loopback_send_chunks_any C ws audio
                (range 0 (length audio) C) 0 w) as H.
  destruct (send_chunks C ws audio _ 0 w) as [[r w'] tr].
  destruct H as (Hc & Hr & Hp & _ & k & -> & Hk).
  fold (chunks C audio) in Hk.
  unfold gtry, gbind, ping, print, gemit, gret.
  assert (Hpre : forall t, sent_chunks t = [] ->
            sent_chunks (tr ++ t) `prefix_of` chunks C audio).
  { intros t Ht. rewrite loopback_sent_chunks_app, Ht, app_nil_r, Hk.
    exists (drop k (chunks C audio)). symmetry. apply take_drop. }
  assert (Hpings : forall t, pings (tr ++ EPing ws ping_ok :: t)
                             = EPing ws ping_ok :: pings t).
  { intros t. unfold pings in *. rewrite List.filter_app, Hp. reflexivity. }
  destruct ping_ok; cbn [app];
    rewrite Hpings, loopback_rounds_app, Hr; cbn;
    (repeat split; [assumption|apply Hpre; reflexivity]).
Qed.

(** What the decoder made of a text that passes for an event. *)
Lemma loopback_is_event_inv text name :
  is_event text name = true ->
  exists fields,
    json_loads text = Some (JObject fields) /\
    event_is (dict_lookup "event" fields) name = true.
Proof.
  unfold is_event. destruct (json_loads text) as [[| | | | |fields]|];
    try discriminate.
  intros H. exists fields. split; [reflexivity|exact H].
Qed.

Lemma loopback_event_is_other event name other :
  event_is event name = true -> String.eqb name other = false ->
  event_is event other = false.
Proof.
  unfold event_is. destruct event as [[| | |s| |]|]; try discriminate.
  intros H%String.eqb_eq Hn. subst s. exact Hn.
Qed.

(** The [recording_ended] branch, run. *)
Lemma loopback_recording_ended_run ws text w :
  is_event text "recording_ended" = true ->
  handle_message ws (text_frame text) w
  = (let c := {| is_recording := false;
                 audio_buffer := audio_buffer (client w);
                 conversation_count :=
                   Datatypes.S (conversation_count (client w)) |} in
     let pre := [EPrint LogRecordingEnded;
                 EPrint (LogAudioReceived (length (audio_buffer (client w))));
                 EPrint LogLoopbackStart] in
     let post := [EPrint (LogRoundDone
                            (Datatypes.S (conversation_count (client w))))] in
     match reply_loaded with
     | Some data =>
         let '(_, w', tr) := send_audio_stream ws data w in
         (Done tt, set_client c w',
          pre ++ EPrint (LogReplying (length data)) :: tr ++ post)
     | None =>
         (Done tt, set_client c w, pre ++ EPrint LogReplyNotLoaded :: post)
     end).
Proof.
  intros (fields & Hj & Hev)%loopback_is_event_inv.
  pose proof (loopback_event_is_other _ _ "recording_started" Hev eq_refl)
    as Hns.
  unfold handle_message. cbn [text_frame msg_text].
  rewrite Hj. unfold gbind at 1. unfold gret at 1. cbn [app].
  unfold gbind at 1. unfold gret at 1. cbn [app].
  rewrite Hns, Hev.
  unfold gbind at 1. unfold print at 1, gemit at 1.
  unfold gbind at 1. unfold gmodify at 1.
  unfold gbind at 1. unfold ggets at 1.
  cbn [set_client client conversation_count audio_buffer].
  unfold gbind at 1. unfold print at 1, gemit at 1.
  unfold gbind at 1. unfold print at 1, gemit at 1.
  unfold gbind at 1.
  destruct reply_loaded as [data|].
  - unfold gbind at 1. unfold print at 1, gemit at 1.
    unfold send_audio_stream.
    match goal with
    | |- context [send_audio_stream_with CHUNK_SIZE ws data ?v] =>
        change v with (set_client
          {| is_recording := false; audio_buffer := audio_buffer (client w);
             conversation_count :=
               Datatypes.S (conversation_count (client w)) |} w)
    end.
    rewrite loopback_stream_client.
    pose proof (loopback_stream_any CHUNK_SIZE ws data w) as H.
    destruct (send_audio_stream_with CHUNK_SIZE ws data w) as [[r w'] tr].
    destruct H as (-> & _). cbn. reflexivity.
  - cbn. reflexivity.
Qed.


Lemma loopback_wire_pings tr : pings (wire tr) = pings tr.
Proof.
  unfold pings, wire. induction tr as [|e tr IH]; [reflexivity|].
  destruct e; cbn; rewrite ?IH; reflexivity.
Qed.

(** X23. The answer to a [recording_ended] does not depend on the
    recording: whether the client was recording or not, and whatever its
    buffer holds, even nothing, the same sends, sleeps and ping follow.
    With reply audio loaded they are a stream of that audio; with none
    loaded, or none that is not empty, nothing is sent. The turn is
    counted either way, and the buffer is kept. *)
Theorem reply_ignores_recording ws text c1 c2 w :
  is_event text "recording_ended" = true ->
  let '(r1, w1, t1) := handle_message ws (text_frame text) (set_client c1 w) in
  let '(r2, w2, t2) := handle_message ws (text_frame text) (set_client c2 w) in
  r1 = Done tt /\ r2 = Done tt /\
  wire t1 = wire t2 /\ sends w1 = sends w2 /\
  client w1 = {| is_recording := false; audio_buffer := audio_buffer c1;
                 conversation_count :=
                   Datatypes.S (conversation_count c1) |} /\
  match reply_loaded with
  | Some data =>
      sent_chunks t1 `prefix_of` chunks CHUNK_SIZE data /\
      pings t1 = [EPing ws ping_ok]
  | None => wire t1 = []
  end.
Proof.
  intros Hev.
  rewrite !(loopback_recording_ended_run _ _ _ Hev).
  cbn [set_client client audio_buffer conversation_count].
  destruct reply_loaded as [data|].
  - unfold send_audio_stream. rewrite !loopback_stream_client.
    pose proof (loopback_stream_any CHUNK_SIZE ws data w) as H.
    destruct (send_audio_stream_with CHUNK_SIZE ws data w) as [[r w'] tr].
    destruct H as (_ & _ & _ & Hpre & Hp).
    cbn [set_client client sends].
    assert (Hs : forall a b l,
              sent_chunks (EPrint a :: EPrint b :: EPrint LogLoopbackStart
                             :: EPrint (LogReplying (length data))
                             :: tr ++ [EPrint l])
              = sent_chunks tr).
    { intros a b l. cbn. rewrite loopback_sent_chunks_app. cbn.
      apply app_nil_r. }
    assert (Hw : forall a b l,
              wire (EPrint a :: EPrint b :: EPrint LogLoopbackStart
                      :: EPrint (LogReplying (length data))
                      :: tr ++ [EPrint l])
              = wire tr).
    { intros a b l. cbn. fold (wire (tr ++ [EPrint l])).
      rewrite loopback_wire_app. cbn. apply app_nil_r. }
    cbn [app]. rewrite Hs, !Hw.
    repeat split; try assumption.
    rewrite <- Hp, <- loopback_wire_pings, Hw, loopback_wire_pings.
    reflexivity.
  - cbn. repeat split.
Qed.

(** What one message does to the turn counter and the round lines. *)
Lemma loopback_handle_message_rounds ws m w :
  let '(_, w', tr) := handle_message ws m w in
  (rounds tr = [] /\
   conversation_count (client w') = conversation_count (client w)) \/
  (rounds tr = [Datatypes.S (conversation_count (client w))] /\
   conversation_count (client w')
   = Datatypes.S (conversation_count (client w))).
Proof.
  destruct m as [[text|] mb].
  - destruct (is_event text "recording_ended") eqn:Hev.
    + change {| msg_text := Some text; msg_bytes := mb |}
        with (let m := {| msg_text := Some text; msg_bytes := mb |} in m).
      assert (Hm : handle_message ws {| msg_text := Some text; msg_bytes := mb |}
                   = handle_message ws (text_frame text)) by reflexivity.
      cbv zeta. rewrite Hm, (loopback_recording_ended_run _ _ _ Hev).
      cbv zeta. destruct reply_loaded as [data|].
      * pose proof (loopback_stream_any CHUNK_SIZE ws data w) as H.
        unfold send_audio_stream.
        destruct (send_audio_stream_with CHUNK_SIZE ws data w)
          as [[r w'] tr].
        destruct H as (_ & _ & Hr & _).
        cbn. rewrite loopback_rounds_app, Hr. right. split; reflexivity.
      * cbn. right. split; reflexivity.
    + unfold handle_message. cbn [msg_text].
      unfold is_event in Hev.
      destruct (json_loads text) as [[| | | | |fields]|];
        try (cbn; left; split; reflexivity).
      unfold gbind at 1. unfold gret at 1.
      unfold gbind at 1. unfold gret at 1. rewrite Hev.
      destruct (event_is (dict_lookup "event" fields) "recording_started");
        cbn; left; split; reflexivity.
  - unfold handle_message. cbn [msg_text msg_bytes].
    destruct mb as [chunk|]; [|cbn; left; split; reflexivity].
    unfold gbind, ggets, gmodify, gret.
    destruct (is_recording (client w)); cbn; left; split; reflexivity.
Qed.

Lemma loopback_receive_loop_rounds ws arriving w :
  let '(_, w', tr) := receive_loop ws arriving w in
  rounds tr
  = seq (Datatypes.S (conversation_count (client w))) (length (rounds tr)) /\
  conversation_count (client w')
  = conversation_count (client w) + length (rounds tr).
Proof.
  revert w. induction arriving as [|[m|e] rest IH]; intros w.
  - cbn. split; [reflexivity|lia].
  - cbn [receive_loop]. unfold gbind.
    pose proof (loopback_handle_message_rounds ws m w) as Hm.
    destruct (handle_message ws m w) as [[r w1] t1].
    destruct r as [[]| |x].
    + specialize (IH w1). destruct (receive_loop ws rest w1) as [[r2 w2] t2].
      destruct IH as [IH1 IH2].
      rewrite loopback_rounds_app, length_app.
      destruct Hm as [[Hr Hc]|[Hr Hc]]; rewrite Hr, Hc in *; cbn [length app].
      * split; [exact IH1|exact IH2].
      * split.
        -- cbn [seq Nat.add]. f_equal. exact IH1.
        -- rewrite IH2. lia.
    + destruct Hm as [[Hr Hc]|[Hr Hc]]; rewrite Hr, Hc; cbn;
        split; reflexivity || lia.
    + destruct Hm as [[Hr Hc]|[Hr Hc]]; rewrite Hr, Hc; cbn;
        split; reflexivity || lia.
  - cbn. split; [reflexivity|lia].
Qed.

(** X24. The rounds of a connection are numbered 1, 2, 3, ... without a
    gap, whatever comes in and however the connection ends, and the
    counter of the connection is the number of rounds reported: every
    connection counts from zero, and a round is reported whenever it was
    counted, also when its reply could not be sent. *)
Theorem rounds_numbered_from_one ws arriving w :
  let '(_, w', tr) := websocket_endpoint ws arriving w in
  rounds tr = seq 1 (length (rounds tr)) /\
  conversation_count (client w') = length (rounds tr).
Proof.
  unfold websocket_endpoint.
  unfold gbind at 1. unfold gemit at 1.
  unfold gbind at 1. unfold print at 1, gemit at 1.
  unfold gbind at 1. unfold gmodify at 1.
  unfold gtry.
  pose proof (loopback_receive_loop_rounds ws arriving
                (set_client new_client_state w)) as H.
  destruct (receive_loop ws arriving (set_client new_client_state w))
    as [[r w'] tr].
  cbn [set_client client new_client_state conversation_count Nat.add] in H.
  destruct H as [H1 H2].
  destruct r as [b| |e]; cbn [app rounds]; try (split; assumption).
  destruct e; unfold gbind, print, gemit, gret; cbn [app client rounds];
    rewrite loopback_rounds_app; cbn [rounds]; rewrite app_nil_r;
    split; assumption.
Qed.


(** With no reply loaded, no message puts anything on the wire. *)
Lemma loopback_silent_message ws m w :
  reply_loaded = None ->
  let '(_, _, tr) := handle_message ws m w in wire tr = [].
Proof.
  intros Hnone. destruct m as [[text|] mb].
  - destruct (is_event text "recording_ended") eqn:Hev.
    + assert (Hm : handle_message ws {| msg_text := Some text; msg_bytes := mb |}
                   = handle_message ws (text_frame text)) by reflexivity.
      rewrite Hm, (loopback_recording_ended_run _ _ _ Hev).
      cbv zeta. rewrite Hnone. reflexivity.
    + unfold handle_message. cbn [msg_text].
      unfold is_event in Hev.
      destruct (json_loads text) as [[| | | | |fields]|]; try reflexivity.
      unfold gbind at 1. unfold gret at 1.
      unfold gbind at 1. unfold gret at 1. rewrite Hev.
      destruct (event_is (dict_lookup "event" fields) "recording_started");
        reflexivity.
  - unfold handle_message. cbn [msg_text msg_bytes].
    destruct mb as [chunk|]; [|reflexivity].
    unfold gbind, ggets, gmodify, gret.
    destruct (is_recording (client w)); reflexivity.
Qed.

Lemma loopback_silent_loop ws arriving w :
  reply_loaded = None ->
  let '(_, _, tr) := receive_loop ws arriving w in wire tr = [].
Proof.
  intros Hnone. revert w. induction arriving as [|[m|e] rest IH]; intros w.
  - reflexivity.
  - cbn [receive_loop]. unfold gbind.
    pose proof (loopback_silent_message ws m w Hnone) as Hm.
    destruct (handle_message ws m w) as [[r w1] t1].
    destruct r as [[]| |x]; try exact Hm.
    specialize (IH w1). destruct (receive_loop ws rest w1) as [[r2 w2] t2].
    rewrite loopback_wire_app, Hm, IH. reflexivity.
  - reflexivity.
Qed.

Lemma loopback_silent_endpoint ws arriving w :
  reply_loaded = None ->
  let '(_, _, tr) := websocket_endpoint ws arriving w in wire tr = [].
Proof.
  intros Hnone. unfold websocket_endpoint.
  unfold gbind at 1. unfold gemit at 1.
  unfold gbind at 1. unfold print at 1, gemit at 1.
  unfold gbind at 1. unfold gmodify at 1.
  unfold gtry.
  pose proof (loopback_silent_loop ws arriving
                (set_client new_client_state w) Hnone) as H.
  destruct (receive_loop ws arriving (set_client new_client_state w))
    as [[r w'] tr].
  unfold wire in *.
  destruct r as [b| |e]; [| |destruct e];
    unfold gbind, print, gemit, gret; cbn [app List.filter is_wire];
    rewrite ?List.filter_app, H; reflexivity.
Qed.



End Handlers.



(** ** Loading the reply *)

Definition REPLY_WAV_FILE : string := "audio_record_20251111_095832.wav".

(** What the [with wave.open(filepath, 'rb')] block of [load_wav_audio]
    meets: a WAV file, with its header and the frames that
    [readframes(getnframes())] returns; no file at that path; or another
    exception. *)
Inductive opened :=
| Opened (wf : SimpleServer.wav_file)
| FileNotFoundError
| OtherError.

Inductive load_line :=
| LogLoading (channels sample_width framerate : nat)
| LogIncompatible
| LogLoaded (size : nat)
| LogFileNotFound
| LogLoadFailed.

Section Loading.

Variable wave_open : string -> opened.

Definition load_wav_audio (filepath : string)
    : option bytes * list load_line :=
  match wave_open filepath with
  | Opened wf =>
      let channels := SimpleServer.wav_channels wf in
      let sample_width := SimpleServer.wav_sampwidth wf in
      let framerate := SimpleServer.wav_framerate wf in
      if negb (Nat.eqb channels 1) || negb (Nat.eqb sample_width 2)
         || negb (Nat.eqb framerate (16 * 1000))
      then (None, [LogLoading channels sample_width framerate;
                   LogIncompatible])
      else
        let audio_data := SimpleServer.wav_frames wf in
        (Some audio_data,
         [LogLoading channels sample_width framerate;
          LogLoaded (length audio_data)])
  | FileNotFoundError => (None, [LogFileNotFound])
  | OtherError => (None, [LogLoadFailed])
  end.

(** [REPLY_AUDIO_DATA] after the start-up code of the module. *)
Definition loaded_at_startup : option bytes :=
  fst (load_wav_audio REPLY_WAV_FILE).

(** X25. [load_wav_audio] returns audio exactly for a file that opens
    with the header the recording server writes, mono, 16 bit, 16 kHz,
    and the audio is then the frames of that file; a missing file, a file
    that cannot be read and a file of another format all give [None]. *)
Theorem load_accepts_recorder_format filepath data :
  fst (load_wav_audio filepath) = Some data <->
  exists wf,
    wave_open filepath = Opened wf /\
    (SimpleServer.wav_channels wf, SimpleServer.wav_sampwidth wf,
     SimpleServer.wav_framerate wf)
    = (SimpleServer.channels, SimpleServer.sample_width,
       SimpleServer.sample_rate) /\
    data = SimpleServer.wav_frames wf.
Proof.
  unfold load_wav_audio, SimpleServer.channels, SimpleServer.sample_width,
    SimpleServer.sample_rate.
  destruct (wave_open filepath) as [wf| |].
  - cbv zeta.
    destruct (Nat.eqb_spec (SimpleServer.wav_channels wf) 1) as [Hc|Hc];
      destruct (Nat.eqb_spec (SimpleServer.wav_sampwidth wf) 2) as [Hw|Hw];
      destruct (Nat.eqb_spec (SimpleServer.wav_framerate wf) (16 * 1000))
        as [Hf|Hf];
      cbn [negb orb fst]; split;
      try discriminate;
      try (intros (wf' & [= <-] & Heq & _);
           pose proof (f_equal (fun p => fst (fst p)) Heq) as H1;
           pose proof (f_equal (fun p => snd (fst p)) Heq) as H2;
           pose proof (f_equal snd Heq) as H3;
           cbn [fst snd] in H1, H2, H3; congruence).
    + intros [= <-]. exists wf. rewrite Hc, Hw, Hf. repeat split.
    + intros (wf' & [= <-] & _ & ->). reflexivity.
  - split; [discriminate|]. intros (wf & H & _). discriminate.
  - split; [discriminate|]. intros (wf & H & _). discriminate.
Qed.

End Loading.


Section Server.

Variable json_loads : string -> option json.
Variable send_ok : nat -> bool.
Variable ping_ok : bool.
Variable wave_open : string -> opened.

(** The handler of the server as [__main__] starts it: with what
    [load_wav_audio] made of the reply file. *)
Definition serving : conn -> list incoming -> G bool :=
  websocket_endpoint json_loads (loaded_at_startup wave_open) send_ok ping_ok.

Lemma loopback_loaded_inv data :
  loaded_at_startup wave_open = Some data ->
  exists wf,
    wave_open REPLY_WAV_FILE = Opened wf /\
    (SimpleServer.wav_channels wf, SimpleServer.wav_sampwidth wf,
     SimpleServer.wav_framerate wf) = (1, 2, 16 * 1000) /\
    data = SimpleServer.wav_frames wf.
Proof.
  unfold loaded_at_startup, load_wav_audio.
  destruct (wave_open REPLY_WAV_FILE) as [wf| |]; try discriminate.
  cbv zeta.
  destruct (Nat.eqb_spec (SimpleServer.wav_channels wf) 1) as [Hc|Hc];
    destruct (Nat.eqb_spec (SimpleServer.wav_sampwidth wf) 2) as [Hw|Hw];
    destruct (Nat.eqb_spec (SimpleServer.wav_framerate wf) (16 * 1000))
      as [Hf|Hf];
    cbn [negb orb fst]; try discriminate.
  intros [= <-]. exists wf. rewrite Hc, Hw, Hf. repeat split.
Qed.


(** X26. When the reply file is missing, cannot be read, has another
    format than mono, 16 bit, 16 kHz, or holds no frames, the server
    starts all the same and accepts connections, but no connection is
    ever sent anything: whatever comes in, the handler sends no audio,
    never sleeps and never pings. *)
Theorem unloadable_reply_silences_server ws arriving w :
  (forall wf,
     wave_open REPLY_WAV_FILE = Opened wf ->
     (SimpleServer.wav_channels wf, SimpleServer.wav_sampwidth wf,
      SimpleServer.wav_framerate wf) <> (1, 2, 16 * 1000) \/
     SimpleServer.wav_frames wf = []) ->
  let '(_, _, tr) := serving ws arriving w in wire tr = [].
Proof.
  intros Hbad. unfold serving.
  apply loopback_silent_endpoint.
  unfold reply_loaded.
  destruct (loaded_at_startup wave_open) as [data|] eqn:Hload;
    [|reflexivity].
  destruct (loopback_loaded_inv data Hload) as (wf & Hopen & Hfmt & ->).
  destruct (Hbad wf Hopen) as [Hne|Hempty]; [contradiction|].
  rewrite Hempty. reflexivity.
Qed.


End Server.

(** ** Closed instances *)

(** A connection that has just been accepted. *)
Definition connected : world := {| client := new_client_state; sends := 0 |}.

(** X21 at work: five bytes fit in one chunk; the ping fails. *)
Lemma stream_complete_witness :
  (forall k, k < ceil_div (length [x01; x02; x03; x04; x05]) CHUNK_SIZE ->
     all_sends_ok (sends connected + k) = true) /\
  send_audio_stream all_sends_ok false 1 [x01; x02; x03; x04; x05] connected
  = (Done tt,
     add_sends (ceil_div (length [x01; x02; x03; x04; x05]) CHUNK_SIZE)
       connected,
     paced 1 (chunks CHUNK_SIZE [x01; x02; x03; x04; x05])
     ++ EPing 1 false
        :: (if false
            then [EPrint (LogStreamDone (length [x01; x02; x03; x04; x05])
                            (length [x01; x02; x03; x04; x05]))]
            else [])) /\
  concat (chunks CHUNK_SIZE [x01; x02; x03; x04; x05])
  = [x01; x02; x03; x04; x05] /\
  length (chunks CHUNK_SIZE [x01; x02; x03; x04; x05])
  = ceil_div (length [x01; x02; x03; x04; x05]) CHUNK_SIZE.
Proof.
  assert (H : forall k,
            k < ceil_div (length [x01; x02; x03; x04; x05]) CHUNK_SIZE ->
            all_sends_ok (sends connected + k) = true)
    by (intros k _; reflexivity).
  split; [exact H|].
  exact (stream_complete_and_paced all_sends_ok false 1
           [x01; x02; x03; x04; x05] connected H).
Defined.

(** X23 at work: a client that recorded two bytes and a client that
    never recorded get the same answer. *)
Lemma reply_ignores_recording_witness :
  is_event sample_json_loads (json_dumps_event "recording_ended")
    "recording_ended" = true /\
  let c1 := {| is_recording := true; audio_buffer := [x01; x02];
               conversation_count := 3 |} in
  let c2 := new_client_state in
  let '(r1, w1, t1) :=
    handle_message sample_json_loads (Some [x2a; x2a; x2a]) all_sends_ok true
      1 (text_frame (json_dumps_event "recording_ended"))
      (set_client c1 connected) in
  let '(r2, w2, t2) :=
    handle_message sample_json_loads (Some [x2a; x2a; x2a]) all_sends_ok true
      1 (text_frame (json_dumps_event "recording_ended"))
      (set_client c2 connected) in
  r1 = Done tt /\ r2 = Done tt /\
  wire t1 = wire t2 /\ sends w1 = sends w2 /\
  client w1 = {| is_recording := false; audio_buffer := audio_buffer c1;
                 conversation_count :=
                   Datatypes.S (conversation_count c1) |} /\
  match reply_loaded (Some [x2a; x2a; x2a]) with
  | Some data =>
      sent_chunks t1 `prefix_of` chunks CHUNK_SIZE data /\
      pings t1 = [EPing 1 true]
  | None => wire t1 = []
  end.
Proof.
  split; [reflexivity|].
  exact (reply_ignores_recording sample_json_loads (Some [x2a; x2a; x2a])
           all_sends_ok true 1 (json_dumps_event "recording_ended")
           {| is_recording := true; audio_buffer := [x01; x02];
              conversation_count := 3 |}
           new_client_state connected eq_refl).
Defined.


(** A directory without the reply file, and one where the reply file is
    a recording of two bytes. *)
Definition no_reply_file (filepath : string) : opened := FileNotFoundError.


(** X26 at work: the reply file is not there, and a device records and
    ends a recording. *)
Lemma unloadable_reply_witness :
  (forall wf,
     no_reply_file REPLY_WAV_FILE = Opened wf ->
     (SimpleServer.wav_channels wf, SimpleServer.wav_sampwidth wf,
      SimpleServer.wav_framerate wf) <> (1, 2, 16 * 1000) \/
     SimpleServer.wav_frames wf = []) /\
  let '(_, _, tr) :=
    serving sample_json_loads all_sends_ok true no_reply_file 1
      [Received (text_frame (json_dumps_event "recording_started"));
       Received (binary_frame [x01]);
       Received (text_frame (json_dumps_event "recording_ended"))]
      connected in
  wire tr = [].
Proof.
  assert (H : forall wf,
            no_reply_file REPLY_WAV_FILE = Opened wf ->
            (SimpleServer.wav_channels wf, SimpleServer.wav_sampwidth wf,
             SimpleServer.wav_framerate wf) <> (1, 2, 16 * 1000) \/
            SimpleServer.wav_frames wf = [])
    by (intros wf Hopen; discriminate Hopen).
  split; [exact H|].
  exact (unloadable_reply_silences_server sample_json_loads all_sends_ok true
           no_reply_file 1
           [Received (text_frame (json_dumps_event "recording_started"));
            Received (binary_frame [x01]);
            Received (text_frame (json_dumps_event "recording_ended"))]
           connected H).
Defined.


End Loopback.

(** * The HTTP server

    [src/app.py]: the Flask endpoints [/api/text_chat] and
    [/api/voice_chat]. The server keeps nothing between requests; the
    conversation history travels in the request and in the response. *)

Module FlaskApp.

Definition newline : string := String (Ascii.ascii_of_nat 10) EmptyString.

Inductive log_line :=
| LogSttError
| LogTtsError
| LogTextRequest
| LogTextInfo (user_id current_history user_text : string)
| LogLlmTime
| LogAiReply (ai_response_text : string)
| LogVoiceRequest
| LogVoiceInfo (user_id chat_history : string) (audio_size : nat)
| LogUserSaid (user_text : string)
| LogSendingAudio.

Inductive effect :=
| EPrint (l : log_line)
| EAsr (audio : bytes)
| ELlm (chat_history question : string)
| ETts (text : string).

Inductive error :=
| LLMError.

(** A JSON response: the status code and the items of the body, all of
    which are texts here. *)
Record response := {
  status_code : nat;
  body : list (string * string)
}.

Local Abbreviation M := (@G unit effect error).

(** [d.get(key)] on a dict of texts. *)
Fixpoint get (key : string) (d : list (string * string)) : option string :=
  match d with
  | [] => None
  | (k, v) :: rest => if String.eqb k key then Some v else get key rest
  end.

(** [jsonify({"error": msg}), code]. *)
Definition error_response (msg : string) (code : nat) : response :=
  {| status_code := code; body := [("error", msg)] |}.

(** The f-string that extends the history by one exchange. *)
Definition extend_history (history user_text ai_response_text : string)
    : string :=
  history +:+ newline +:+ "Human: " +:+ user_text
          +:+ newline +:+ "AI: " +:+ ai_response_text.

Section Endpoints.

(** [speech_asr] and [speech_synthesis] are the calls of the speech SDK as
    this file makes them; [llm history question] is
    [tutor_chain.invoke(..)["text"]], [None] when it raises; [b64encode] is
    [base64.b64encode(..).decode('utf-8')]. *)
Variable speech_asr : bytes -> option stt_dict.
Variable speech_synthesis : string -> tts_result.
Variable llm : string -> string -> option string.
Variable b64encode : bytes -> string.

Definition print (l : log_line) : M unit := gemit (EPrint l).

Definition transcribe_audio_stream (audio_bytes : bytes) : M string :=
  run _ <- gemit (EAsr audio_bytes);
  match stt_first_result (speech_asr audio_bytes) with
  | Some text => gret text
  | None => run _ <- print LogSttError; gret ""
  end.

Definition synthesize_speech_stream (text : string) : M bytes :=
  run _ <- gemit (ETts text);
  match speech_synthesis text with
  | TtsAudio audio => gret audio
  | TtsErrorDict _ => run _ <- print LogTtsError; gret []
  end.

Definition get_ai_response (user_input current_history : string)
    : M string :=
  run _ <- gemit (ELlm current_history user_input);
  match llm current_history user_input with
  | Some text => gret text
  | None => graise LLMError
  end.

(** [text_chat_endpoint] on the body [request.get_json()] returned:
    [None], or an object whose values are texts. *)
Definition text_chat_endpoint (data : option (list (string * string)))
    : M response :=
  run _ <- print LogTextRequest;
  match data with
  | Some ((_ :: _) as d) =>
      match get "user_input" d, get "chat_history" d with
      | Some user_text, Some current_history =>
          let user_id := default "default_user" (get "user_id" d) in
          run _ <- print (LogTextInfo user_id current_history user_text);
          run ai_response_text <- get_ai_response user_text current_history;
          run _ <- print LogLlmTime;
          let new_history :=
            extend_history current_history user_text ai_response_text in
          run _ <- print (LogAiReply ai_response_text);
          gret {| status_code := 200;
                  body := [("status", "success");
                           ("ai_response", ai_response_text);
                           ("new_chat_history", new_history);
                           ("user_id", user_id)] |}
      | _, _ =>
          gret (error_response
            "Missing required fields (user_input or chat_history) in request body"
            400)
      end
  | _ =>
      gret (error_response
        "Missing required fields (user_input or chat_history) in request body"
        400)
  end.

(** [voice_chat_endpoint] on [request.data] and [request.form]. *)
Definition voice_chat_endpoint (audio_bytes : bytes)
    (form : list (string * string)) : M response :=
  run _ <- print LogVoiceRequest;
  let user_id := default "default_user" (get "user_id" form) in
  let chat_history := default "" (get "chat_history" form) in
  if Nat.eqb (length audio_bytes) 0 then
    gret (error_response "Missing audio data in request body" 400)
  else
    run _ <- print (LogVoiceInfo user_id chat_history (length audio_bytes));
    run user_text <- transcribe_audio_stream audio_bytes;
    if String.eqb user_text "" then
      gret (error_response
              "Could not understand audio or ASR error occurred" 500)
    else
      run _ <- print (LogUserSaid user_text);
      run ai_response_text <- get_ai_response user_text chat_history;
      let new_history :=
        extend_history chat_history user_text ai_response_text in
      run _ <- print (LogAiReply ai_response_text);
      run response_audio_bytes <- synthesize_speech_stream ai_response_text;
      if Nat.eqb (length response_audio_bytes) 0 then
        gret (error_response "TTS synthesis failed" 500)
      else
        run _ <- print LogSendingAudio;
        gret {| status_code := 200;
                body := [("status", "success");
                         ("ai_response", ai_response_text);
                         ("new_chat_history", new_history);
                         ("audio_data_base64", b64encode response_audio_bytes);
                         ("mimetype", "audio/mpeg");
                         ("user_id", user_id)] |}.

(** ** Observations *)

(** The calls of a trace to the collaborators, in order. *)
Definition is_call (e : effect) : bool :=
  match e with EPrint _ => false | _ => true end.

Definition calls (tr : list effect) : list effect := List.filter is_call tr.

(** The keys of a response body, in order. *)
Definition keys (r : response) : list string := map fst (body r).

(** What the transcriber makes of the audio, and what the synthesiser
    makes of a text. *)
Definition transcript (audio : bytes) : string :=
  default "" (stt_first_result (speech_asr audio)).

Definition synthesized (text : string) : bytes :=
  match speech_synthesis text with
  | TtsAudio audio => audio
  | TtsErrorDict _ => []
  end.


(** ** The endpoints, run *)

Lemma text_chat_endpoint_run d user_text current_history :
  get "user_input" d = Some user_text ->
  get "chat_history" d = Some current_history ->
  text_chat_endpoint (Some d) tt
  = (let user_id := default "default_user" (get "user_id" d) in
     let pre := [EPrint LogTextRequest;
                 EPrint (LogTextInfo user_id current_history user_text);
                 ELlm current_history user_text] in
     match llm current_history user_text with
     | Some ai =>
         (Done {| status_code := 200;
                  body := [("status", "success"); ("ai_response", ai);
                           ("new_chat_history",
                            extend_history current_history user_text ai);
                           ("user_id", user_id)] |},
          tt, pre ++ [EPrint LogLlmTime; EPrint (LogAiReply ai)])
     | None => (Fail LLMError, tt, pre)
     end).
Proof.
  intros Hu Hh. destruct d as [|item d]; [discriminate|].
  unfold text_chat_endpoint. rewrite Hu, Hh.
  unfold gbind, print, get_ai_response, gbind, gemit, gret, graise.
  cbv zeta. destruct (llm current_history user_text); reflexivity.
Qed.

Lemma voice_chat_endpoint_run audio form :
  audio <> [] ->
  transcript audio <> "" ->
  voice_chat_endpoint audio form tt
  = (let user_id := default "default_user" (get "user_id" form) in
     let chat_history := default "" (get "chat_history" form) in
     let user_text := transcript audio in
     let pre := [EPrint LogVoiceRequest;
                 EPrint (LogVoiceInfo user_id chat_history (length audio));
                 EAsr audio; EPrint (LogUserSaid user_text);
                 ELlm chat_history user_text] in
     match llm chat_history user_text with
     | Some ai =>
         match speech_synthesis ai with
         | TtsAudio (b :: bs) =>
             (Done {| status_code := 200;
                      body := [("status", "success"); ("ai_response", ai);
                               ("new_chat_history",
                                extend_history chat_history user_text ai);
                               ("audio_data_base64", b64encode (b :: bs));
                               ("mimetype", "audio/mpeg");
                               ("user_id", user_id)] |},
              tt, pre ++ [EPrint (LogAiReply ai); ETts ai;
                          EPrint LogSendingAudio])
         | TtsAudio [] =>
             (Done (error_response "TTS synthesis failed" 500), tt,
              pre ++ [EPrint (LogAiReply ai); ETts ai])
         | TtsErrorDict _ =>
             (Done (error_response "TTS synthesis failed" 500), tt,
              pre ++ [EPrint (LogAiReply ai); ETts ai; EPrint LogTtsError])
         end
     | None => (Fail LLMError, tt, pre)
     end).
Proof.
  intros Ha Ht. destruct audio as [|a audio]; [congruence|].
  unfold voice_chat_endpoint. cbn [length Nat.eqb].
  unfold transcript in *.
  unfold gbind at 1. unfold print at 1, gemit at 1.
  unfold gbind at 1. unfold print at 1, gemit at 1.
  unfold gbind at 1. unfold transcribe_audio_stream.
  unfold gbind at 1. unfold gemit at 1.
  destruct (stt_first_result (speech_asr (a :: audio))) as [text|];
    [|exfalso; apply Ht; reflexivity].
  cbn [default from_option id] in *. unfold gret at 1. cbn [app].
  destruct (String.eqb text "") eqn:He;
    [apply String.eqb_eq in He; congruence|].
  unfold gbind at 1. unfold print at 1, gemit at 1.
  unfold gbind at 1. unfold get_ai_response.
  unfold gbind at 1. unfold gemit at 1.
  cbv zeta.
  destruct (llm (default "" (get "chat_history" form)) text) as [ai|];
    [|reflexivity].
  unfold gret at 1. cbn [app].
  unfold gbind at 1. unfold print at 1, gemit at 1.
  unfold gbind at 1. unfold synthesize_speech_stream.
  unfold gbind at 1. unfold gemit at 1.
  destruct (speech_synthesis ai) as [[|b bs]|code]; reflexivity.
Qed.


Lemma voice_chat_endpoint_unheard audio form :
  audio <> [] ->
  transcript audio = "" ->
  voice_chat_endpoint audio form tt
  = (Done (error_response
             "Could not understand audio or ASR error occurred" 500), tt,
     [EPrint LogVoiceRequest;
      EPrint (LogVoiceInfo (default "default_user" (get "user_id" form))
                (default "" (get "chat_history" form)) (length audio));
      EAsr audio]
     ++ match stt_first_result (speech_asr audio) with
        | Some _ => []
        | None => [EPrint LogSttError]
        end).
Proof.
  intros Ha Ht. destruct audio as [|a audio]; [congruence|].
  unfold voice_chat_endpoint. cbn [length Nat.eqb].
  unfold transcript in Ht.
  unfold gbind at 1. unfold print at 1, gemit at 1.
  unfold gbind at 1. unfold print at 1, gemit at 1.
  unfold gbind at 1. unfold transcribe_audio_stream.
  unfold gbind at 1. unfold gemit at 1.
  destruct (stt_first_result (speech_asr (a :: audio))) as [text|].
  - cbn [default from_option id] in Ht. subst text. reflexivity.
  - reflexivity.
Qed.

(** X28. A voice request is answered all or nothing. The response is
    either a success that carries the reply text, the history extended by
    this exchange and the encoded audio of the reply, after the
    transcriber, the model and the synthesiser were called once each in
    that order; or it holds an [error] item and nothing else: 400 with no
    collaborator called when the request has no audio, 500 after the
    transcriber alone when nothing was understood, and 500 when synthesis
    gave no audio, in which case the reply the model had already given and
    the extended history are not returned. When the model raises, the
    synthesiser is not called. *)
Theorem voice_chat_all_or_nothing audio form :
  let h := default "" (get "chat_history" form) in
  let '(r, _, tr) := voice_chat_endpoint audio form tt in
  match r with
  | Done resp =>
      (status_code resp = 200 /\
       keys resp = ["status"; "ai_response"; "new_chat_history";
                    "audio_data_base64"; "mimetype"; "user_id"] /\
       exists reply,
         llm h (transcript audio) = Some reply /\
         synthesized reply <> [] /\
         get "ai_response" (body resp) = Some reply /\
         get "new_chat_history" (body resp)
         = Some (extend_history h (transcript audio) reply) /\
         get "audio_data_base64" (body resp)
         = Some (b64encode (synthesized reply)) /\
         calls tr = [EAsr audio; ELlm h (transcript audio); ETts reply])
      \/
      (keys resp = ["error"] /\
       ((status_code resp = 400 /\ audio = [] /\ calls tr = []) \/
        (status_code resp = 500 /\ audio <> [] /\ transcript audio = "" /\
         calls tr = [EAsr audio]) \/
        (status_code resp = 500 /\
         exists reply,
           llm h (transcript audio) = Some reply /\
           synthesized reply = [] /\
           calls tr = [EAsr audio; ELlm h (transcript audio); ETts reply])))
  | Skip => False
  | Fail _ =>
      audio <> [] /\ transcript audio <> "" /\
      llm h (transcript audio) = None /\
      calls tr = [EAsr audio; ELlm h (transcript audio)]
  end.
Proof.
  cbv zeta.
  destruct (decide (audio = [])) as [->|Ha].
  { cbn. right. split; [reflexivity|]. left. repeat split. }
  destruct (decide (transcript audio = "")) as [Ht|Ht].
  { rewrite (voice_chat_endpoint_unheard _ _ Ha Ht).
    right. split; [reflexivity|]. right. left.
    repeat split; try assumption.
    destruct (stt_first_result (speech_asr audio)); reflexivity. }
  rewrite (voice_chat_endpoint_run _ _ Ha Ht). cbv zeta.
  destruct (llm (default "" (get "chat_history" form)) (transcript audio))
    as [reply|] eqn:Hl; [|repeat split; assumption].
  unfold synthesized.
  destruct (speech_synthesis reply) as [[|b bs]|code] eqn:Hs.
  - right. split; [reflexivity|]. right. right. split; [reflexivity|].
    exists reply. rewrite Hs. repeat split.
  - left. split; [reflexivity|]. split; [reflexivity|].
    exists reply. rewrite Hs. repeat split. discriminate.
  - right. split; [reflexivity|]. right. right. split; [reflexivity|].
    exists reply. rewrite Hs. repeat split.
Qed.

(** X29. The voice endpoint is the text endpoint behind a transcriber
    and in front of a synthesiser: when the audio is understood and the
    reply can be synthesised, a voice request and a text request that
    carries the transcript as its input, the same history and the same
    user id ask the model the same one question, and the voice response
    holds the items of the text response with the same values. *)
Theorem voice_chat_agrees_with_text_chat audio form d reply :
  audio <> [] ->
  transcript audio <> "" ->
  llm (default "" (get "chat_history" form)) (transcript audio) = Some reply ->
  synthesized reply <> [] ->
  get "user_input" d = Some (transcript audio) ->
  get "chat_history" d = Some (default "" (get "chat_history" form)) ->
  get "user_id" d = get "user_id" form ->
  let '(rv, _, tv) := voice_chat_endpoint audio form tt in
  let '(rt, _, tx) := text_chat_endpoint (Some d) tt in
  exists voice text,
    rv = Done voice /\ rt = Done text /\
    status_code voice = 200 /\ status_code text = 200 /\
    keys text = ["status"; "ai_response"; "new_chat_history"; "user_id"] /\
    Forall (fun key => get key (body voice) = get key (body text))
      (keys text) /\
    calls tx
    = [ELlm (default "" (get "chat_history" form)) (transcript audio)] /\
    calls tv = EAsr audio :: calls tx ++ [ETts reply].
Proof.
  intros Ha Ht Hl Hs Hu Hh Hid.
  rewrite (voice_chat_endpoint_run _ _ Ha Ht).
  rewrite (text_chat_endpoint_run _ _ _ Hu Hh).
  cbv zeta. rewrite Hl, Hid.
  unfold synthesized in Hs.
  destruct (speech_synthesis reply) as [[|b bs]|code]; try congruence.
  eexists _, _. split; [reflexivity|]. split; [reflexivity|].
  split; [reflexivity|]. split; [reflexivity|]. split; [reflexivity|].
  split; [|split; reflexivity].
  repeat constructor.
Qed.

(** X30. The history a client gets back is the history the model sees
    next: when a first text request is answered and a second request
    carries the [new_chat_history] of that answer as its [chat_history],
    the model is asked the second question with a history that ends with
    the first exchange, and the history returned then ends with both
    exchanges, in order. *)
Theorem text_chat_history_threads d1 d2 h u1 a1 u2 a2 first t1 :
  get "user_input" d1 = Some u1 ->
  get "chat_history" d1 = Some h ->
  text_chat_endpoint (Some d1) tt = (Done first, tt, t1) ->
  get "ai_response" (body first) = Some a1 ->
  get "user_input" d2 = Some u2 ->
  get "chat_history" d2 = get "new_chat_history" (body first) ->
  llm (extend_history h u1 a1) u2 = Some a2 ->
  let '(r, _, t2) := text_chat_endpoint (Some d2) tt in
  exists second,
    r = Done second /\
    calls t2 = [ELlm (extend_history h u1 a1) u2] /\
    get "ai_response" (body second) = Some a2 /\
    get "new_chat_history" (body second)
    = Some (extend_history (extend_history h u1 a1) u2 a2).
Proof.
  intros Hu1 Hh1 Hfirst Ha1 Hu2 Hh2 Hl2.
  rewrite (text_chat_endpoint_run _ _ _ Hu1 Hh1) in Hfirst. cbv zeta in Hfirst.
  destruct (llm h u1) as [a|]; [|discriminate].
  injection Hfirst as <- _. cbn in Hh2, Ha1. injection Ha1 as ->.
  rewrite (text_chat_endpoint_run _ _ _ Hu2 Hh2). cbv zeta.
  rewrite Hl2.
  eexists. repeat split.
Qed.

End Endpoints.


(** ** Closed instances *)

(** A model that answers every question the same way, and a stand-in for
    the encoder. *)
Definition sample_chat (chat_history question : string) : option string :=
  Some "Nice to meet you.".

Definition sample_encoding (audio : bytes) : string := "KioqKg==".

(** X29 at work: a voice request without form fields and the text
    request of the transcript with an empty history. *)
Lemma voice_chat_agrees_witness :
  [x01; x02] <> [] /\
  transcript sample_asr [x01; x02] <> "" /\
  sample_chat (default "" (get "chat_history" []))
    (transcript sample_asr [x01; x02]) = Some "Nice to meet you." /\
  synthesized sample_synthesis "Nice to meet you." <> [] /\
  let audio := [x01; x02] in
  let d := [("user_input", "ni hao"); ("chat_history", "")] in
  let '(rv, _, tv) :=
    voice_chat_endpoint sample_asr sample_synthesis sample_chat
      sample_encoding audio [] tt in
  let '(rt, _, tx) := text_chat_endpoint sample_chat (Some d) tt in
  exists voice text,
    rv = Done voice /\ rt = Done text /\
    status_code voice = 200 /\ status_code text = 200 /\
    keys text = ["status"; "ai_response"; "new_chat_history"; "user_id"] /\
    Forall (fun key => get key (body voice) = get key (body text))
      (keys text) /\
    calls tx
    = [ELlm (default "" (get "chat_history" [])) (transcript sample_asr audio)] /\
    calls tv = EAsr audio :: calls tx ++ [ETts "Nice to meet you."].
Proof.
  assert (H1 : [x01; x02] <> ([] : bytes)) by discriminate.
  assert (H2 : transcript sample_asr [x01; x02] <> "") by discriminate.
  assert (H3 : synthesized sample_synthesis "Nice to meet you." <> [])
    by discriminate.
  split; [exact H1|]. split; [exact H2|]. split; [reflexivity|].
  split; [exact H3|].
  exact (voice_chat_agrees_with_text_chat sample_asr sample_synthesis
           sample_chat sample_encoding [x01; x02] []
           [("user_input", "ni hao"); ("chat_history", "")]
           "Nice to meet you." H1 H2 eq_refl H3 eq_refl eq_refl eq_refl).
Defined.

(** X30 at work: two requests of one conversation. *)
Lemma text_chat_history_witness :
  let d1 := [("user_input", "Hello"); ("chat_history", "")] in
  let first :=
    {| status_code := 200;
       body := [("status", "success"); ("ai_response", "Nice to meet you.");
                ("new_chat_history",
                 extend_history "" "Hello" "Nice to meet you.");
                ("user_id", "default_user")] |} in
  let d2 := [("user_input", "How are you?");
             ("chat_history", extend_history "" "Hello" "Nice to meet you.")] in
  text_chat_endpoint sample_chat (Some d1) tt
  = (Done first, tt,
     [EPrint LogTextRequest; EPrint (LogTextInfo "default_user" "" "Hello");
      ELlm "" "Hello"; EPrint LogLlmTime;
      EPrint (LogAiReply "Nice to meet you.")]) /\
  let '(r, _, t2) := text_chat_endpoint sample_chat (Some d2) tt in
  exists second,
    r = Done second /\
    calls t2
    = [ELlm (extend_history "" "Hello" "Nice to meet you.") "How are you?"] /\
    get "ai_response" (body second) = Some "Nice to meet you." /\
    get "new_chat_history" (body second)
    = Some (extend_history (extend_history "" "Hello" "Nice to meet you.")
              "How are you?" "Nice to meet you.").
Proof.
  cbv zeta. split; [reflexivity|].
  exact (text_chat_history_threads sample_chat
           [("user_input", "Hello"); ("chat_history", "")]
           [("user_input", "How are you?");
            ("chat_history", extend_history "" "Hello" "Nice to meet you.")]
           "" "Hello" "Nice to meet you." "How are you?" "Nice to meet you."
           _ _ eq_refl eq_refl eq_refl eq_refl eq_refl eq_refl eq_refl).
Defined.

End FlaskApp.
